(** * COA: request/fulfilment coordination protocol

    A shallow embedding of
    - [contracts/Inference.sol]  (contract [CoaInference], the Request Ledger),
    - [pkg/monio/index.js]       (class [MinioClient], the Content Store client),
    - [pkg/tee/index.js]         (function [parseAndVerifyJWT], the attestation verifier),
    - [index.js]                 (class [COAApplication], the correlation/polling engine),
    followed by the properties established about them.

    Layout: all definitions come first (one module per source file), the
    lemmas and theorems follow. *)

From Stdlib Require Import ZArith NArith String Ascii List Lia Bool Sorted.
From stdpp Require Import base option list gmap strings.

Local Open Scope string_scope.
Local Open Scope N_scope.

(** ** Part I.  The Request Ledger ([contracts/Inference.sol]) *)

Module Ledger.

(** Solidity value types.  [uint256], [bytes32] and [address] are unsigned
    machine words; they are carried as [N], and the only arithmetic the
    contract performs on them, [++_requestCounter], is checked (Solidity
    0.8): it reverts with [Panic(0x11)] instead of wrapping around. *)
Abbreviation uint256 := N (only parsing).
Abbreviation bytes32 := N (only parsing).
Abbreviation address := N (only parsing).

Definition max_uint256 : N := 2 ^ 256 - 1.

(** [struct Call]. *)
Record Call := mkCall {
  caller : address;
  model : string;
  promptHash : bytes32;
  resultHash : bytes32;
  reportHash : bytes32
}.

(** The value a [mapping(uint256 => Call)] returns for a key never written. *)
Definition zero_Call : Call := mkCall 0 "" 0 0 0.

(** Contract storage: the [Ownable] owner slot followed by the state
    variables of [CoaInference], under their source names. *)
Record State := mkState {
  _owner : address;
  _requestCounter : uint256;
  _inferenceNode : address;
  calls : gmap N Call;
  models : gmap string bool;
  modelList : list string
}.

Inductive Event :=
| CallRequested (requestId : uint256) (caller : address) (model : string) (promptHash : bytes32)
| CallFinished (requestId : uint256) (resultHash reportHash : bytes32)
| ModelAdded (model : string)
| ModelDeled (model : string)
| OwnershipTransferred (previousOwner newOwner : address).

(** Ways a call aborts.  An aborted call leaves storage untouched and
    emits nothing (see [transact]). *)
Inductive Failure :=
| Revert (reason : string)
| Panic (code : N)
| OwnableUnauthorizedAccount (account : address)
| OwnableInvalidOwner (owner : address).

Inductive Exec (A : Type) :=
| Ok (a : A)
| Err (e : Failure).
Arguments Ok {A} a.
Arguments Err {A} e.

Definition bind {A B} (c : Exec A) (k : A -> Exec B) : Exec B :=
  match c with
  | Ok a => k a
  | Err e => Err e
  end.

Declare Scope sol_scope.
Delimit Scope sol_scope with sol.
Notation "'let*' x ':=' c 'in' k" := (bind c (fun x => k))
  (at level 10, x name, c at level 100, k at level 200) : sol_scope.
Notation "c ;; k" := (bind c (fun _ => k))
  (at level 100, k at level 200, right associativity) : sol_scope.
Local Open Scope sol_scope.

Definition require (cond : bool) (reason : string) : Exec unit :=
  if cond then Ok tt else Err (Revert reason).

(** The names the specification gives to the [require] failures. *)
Definition UnsupportedModel : Failure := Revert "Inference: model unsupported".
Definition EmptyDigest : Failure := Revert "Inference: prompt hash is empty".
Definition InvalidId : Failure := Revert "Inference: invalid requestId".
Definition AlreadyFulfilled : Failure := Revert "Inference: already fulfilled".
Definition UnknownModel : Failure := Revert "Inference: model no exists".
Definition ModelAlreadyExists : Failure := Revert "Inference: model already exists".
Definition NotInferenceNode : Failure := Revert "Inference: not inference node".
Definition EmptyInferenceNode : Failure :=
  Revert "Inference: inference node can't be empty".

(** Public getters of the two mappings, with Solidity's default values. *)
Definition calls_at (st : State) (requestId : uint256) : Call :=
  default zero_Call (calls st !! requestId).

Definition models_at (st : State) (m : string) : bool :=
  default false (models st !! m).

Definition set_requestCounter (st : State) (c : uint256) : State :=
  mkState (_owner st) c (_inferenceNode st) (calls st) (models st) (modelList st).
Definition set_inferenceNode (st : State) (a : address) : State :=
  mkState (_owner st) (_requestCounter st) a (calls st) (models st) (modelList st).
Definition set_owner (st : State) (a : address) : State :=
  mkState a (_requestCounter st) (_inferenceNode st) (calls st) (models st) (modelList st).
Definition set_calls (st : State) (cs : gmap N Call) : State :=
  mkState (_owner st) (_requestCounter st) (_inferenceNode st) cs (models st) (modelList st).
Definition set_models (st : State) (ms : gmap string bool) : State :=
  mkState (_owner st) (_requestCounter st) (_inferenceNode st) (calls st) ms (modelList st).
Definition set_modelList (st : State) (l : list string) : State :=
  mkState (_owner st) (_requestCounter st) (_inferenceNode st) (calls st) (models st) l.

(** [modifier onlyOwner] (OpenZeppelin [Ownable]) and [modifier onlyInferenceNode]. *)
Definition onlyOwner (st : State) (sender : address) : Exec unit :=
  if sender =? _owner st then Ok tt else Err (OwnableUnauthorizedAccount sender).

Definition onlyInferenceNode (st : State) (sender : address) : Exec unit :=
  require (sender =? _inferenceNode st) "Inference: not inference node".

Definition inferenceNode (st : State) : address := _inferenceNode st.

Definition setInferenceNode (st : State) (sender inferenceNode_ : address)
  : Exec (State * list Event) :=
  onlyOwner st sender ;;
  require (negb (inferenceNode_ =? 0)) "Inference: inference node can't be empty" ;;
  Ok (set_inferenceNode st inferenceNode_, []).

Definition addModel (st : State) (sender : address) (model : string)
  : Exec (State * list Event) :=
  onlyOwner st sender ;;
  require (negb (models_at st model)) "Inference: model already exists" ;;
  let st := set_models st (<[model := true]> (models st)) in
  let st := set_modelList st (modelList st ++ [model]) in
  Ok (st, [ModelAdded model]).

(** Body of the [for] loop of [addModels]: entries already registered are
    skipped without any error. *)
Fixpoint addModels_loop (st : State) (models_ : list string) : State * list Event :=
  match models_ with
  | [] => (st, [])
  | m :: rest =>
      if negb (models_at st m) then
        let st := set_models st (<[m := true]> (models st)) in
        let st := set_modelList st (modelList st ++ [m]) in
        let '(st', evs) := addModels_loop st rest in
        (st', ModelAdded m :: evs)
      else addModels_loop st rest
  end.

Definition addModels (st : State) (sender : address) (models_ : list string)
  : Exec (State * list Event) :=
  onlyOwner st sender ;;
  Ok (addModels_loop st models_).

(** [keccak256(bytes(a)) == keccak256(bytes(b))] is Solidity's idiom for
    comparing two strings; the hash is taken collision free, as it already
    is for the keys of [mapping(string => bool)], so the test is string
    equality. *)
Definition keccak256_eq (a b : string) : bool := String.eqb a b.

(** Index of the first entry of [l] (scanning from position [i]) matching
    [model]: the iteration at which the removal loop reaches its [break]. *)
Fixpoint find_model (model : string) (l : list string) (i : nat) : option nat :=
  match l with
  | [] => None
  | x :: rest => if keccak256_eq x model then Some i else find_model model rest (S i)
  end.

(** [modelList[i] = modelList[modelList.length - 1]; modelList.pop();] *)
Definition swap_pop (l : list string) (i : nat) : list string :=
  removelast (<[i := default "" (l !! (length l - 1)%nat)]> l).

(** The "Remove from modelList" loop shared by [delModel] and [delModels]. *)
Definition remove_from_modelList (model : string) (l : list string) : list string :=
  match find_model model l 0 with
  | Some i => swap_pop l i
  | None => l
  end.

Definition delModel (st : State) (sender : address) (model : string)
  : Exec (State * list Event) :=
  onlyOwner st sender ;;
  require (models_at st model) "Inference: model no exists" ;;
  let st := set_models st (<[model := false]> (models st)) in
  let st := set_modelList st (remove_from_modelList model (modelList st)) in
  Ok (st, [ModelDeled model]).

Fixpoint delModels_loop (st : State) (models_ : list string) : State * list Event :=
  match models_ with
  | [] => (st, [])
  | m :: rest =>
      if models_at st m then
        let st := set_models st (<[m := false]> (models st)) in
        let st := set_modelList st (remove_from_modelList m (modelList st)) in
        let '(st', evs) := delModels_loop st rest in
        (st', ModelDeled m :: evs)
      else delModels_loop st rest
  end.

Definition delModels (st : State) (sender : address) (models_ : list string)
  : Exec (State * list Event) :=
  onlyOwner st sender ;;
  Ok (delModels_loop st models_).

Definition getCaller (st : State) (requestId : uint256) : address :=
  caller (calls_at st requestId).

(** [++_requestCounter] under checked arithmetic. *)
Definition checked_incr (c : uint256) : Exec uint256 :=
  if c <? max_uint256 then Ok (c + 1) else Err (Panic 17).

Definition requestCall (st : State) (sender : address) (model : string)
    (promptHash : bytes32) : Exec (State * list Event) :=
  require (models_at st model) "Inference: model unsupported" ;;
  require (negb (promptHash =? 0)) "Inference: prompt hash is empty" ;;
  let* requestId := checked_incr (_requestCounter st) in
  let st := set_requestCounter st requestId in
  let st := set_calls st (<[requestId := mkCall sender model promptHash 0 0]> (calls st)) in
  Ok (st, [CallRequested requestId sender model promptHash]).

Definition submitResult (st : State) (sender : address) (requestId : uint256)
    (resultHash reportHash : bytes32) : Exec (State * list Event) :=
  onlyInferenceNode st sender ;;
  require ((0 <? requestId) && (requestId <=? _requestCounter st))
    "Inference: invalid requestId" ;;
  let call := calls_at st requestId in
  require (Ledger.resultHash call =? 0) "Inference: already fulfilled" ;;
  let call := mkCall (caller call) (Ledger.model call) (Ledger.promptHash call)
                resultHash reportHash in
  let st := set_calls st (<[requestId := call]> (calls st)) in
  Ok (st, [CallFinished requestId resultHash reportHash]).

Definition getAllModels (st : State) : list string := modelList st.

(** [transferOwnership] and [renounceOwnership], inherited from
    OpenZeppelin's [Ownable]; they only move the owner slot. *)
Definition transferOwnership (st : State) (sender newOwner : address)
  : Exec (State * list Event) :=
  onlyOwner st sender ;;
  if newOwner =? 0 then Err (OwnableInvalidOwner 0)
  else Ok (set_owner st newOwner, [OwnershipTransferred (_owner st) newOwner]).

Definition renounceOwnership (st : State) (sender : address)
  : Exec (State * list Event) :=
  onlyOwner st sender ;;
  Ok (set_owner st 0, [OwnershipTransferred (_owner st) 0]).

(** [constructor(inferenceNode_, initialModels) Ownable(msg.sender)]. *)
Definition constructor (sender inferenceNode_ : address) (initialModels : list string)
  : Exec (State * list Event) :=
  (if sender =? 0 then Err (OwnableInvalidOwner 0) else Ok tt) ;;
  let st := mkState sender 0 0 ∅ ∅ [] in
  require (negb (inferenceNode_ =? 0)) "Inference: inference node can't be empty" ;;
  let st := set_inferenceNode st inferenceNode_ in
  let* r := addModels st sender initialModels in
  Ok (fst r, OwnershipTransferred 0 sender :: snd r).

(** *** Transactions

    The externally callable, state-changing functions, and the
    all-or-nothing effect of calling one: either the new storage and the
    emitted events, or the old storage, no event, and the failure.
    ([receive() external payable {}] accepts plain transfers; it touches no
    storage variable and is left out.) *)
Inductive Msg :=
| MsgSetInferenceNode (inferenceNode_ : address)
| MsgAddModel (model : string)
| MsgAddModels (models_ : list string)
| MsgDelModel (model : string)
| MsgDelModels (models_ : list string)
| MsgRequestCall (model : string) (promptHash : bytes32)
| MsgSubmitResult (requestId : uint256) (resultHash reportHash : bytes32)
| MsgTransferOwnership (newOwner : address)
| MsgRenounceOwnership.

Record Tx := mkTx { tx_sender : address; tx_msg : Msg }.

Definition dispatch (st : State) (tx : Tx) : Exec (State * list Event) :=
  let sender := tx_sender tx in
  match tx_msg tx with
  | MsgSetInferenceNode a => setInferenceNode st sender a
  | MsgAddModel m => addModel st sender m
  | MsgAddModels ms => addModels st sender ms
  | MsgDelModel m => delModel st sender m
  | MsgDelModels ms => delModels st sender ms
  | MsgRequestCall m h => requestCall st sender m h
  | MsgSubmitResult i r p => submitResult st sender i r p
  | MsgTransferOwnership a => transferOwnership st sender a
  | MsgRenounceOwnership => renounceOwnership st sender
  end.

Record Receipt := mkReceipt { failure : option Failure; logs : list Event }.

Definition transact (st : State) (tx : Tx) : State * Receipt :=
  match dispatch st tx with
  | Ok (st', evs) => (st', mkReceipt None evs)
  | Err e => (st, mkReceipt (Some e) [])
  end.

(** A sequence of transactions, mined one after the other, with the
    receipt of each. *)
Fixpoint run (st : State) (txs : list Tx) : State * list Receipt :=
  match txs with
  | [] => (st, [])
  | tx :: rest =>
      let '(st1, r) := transact st tx in
      let '(st2, rs) := run st1 rest in
      (st2, r :: rs)
  end.

(** States the contract can be in: deployed by the constructor, then
    driven by any transactions from any senders. *)
Definition reachable (st : State) : Prop :=
  ∃ deployer node initialModels st0 evs txs,
    constructor deployer node initialModels = Ok (st0, evs) ∧ fst (run st0 txs) = st.

(** Request ids announced by [CallRequested] events. *)
Definition requested_id (e : Event) : option uint256 :=
  match e with
  | CallRequested requestId _ _ _ => Some requestId
  | _ => None
  end.

Definition requested_ids (rs : list Receipt) : list uint256 :=
  omap requested_id (concat (map logs rs)).

(** The calls that manage the registry and the authorities, as opposed to
    the two calls that work on requests. *)
Definition registry_msg (m : Msg) : bool :=
  match m with
  | MsgRequestCall _ _ | MsgSubmitResult _ _ _ => false
  | _ => true
  end.

(** A transaction paired with its receipt is a successful submission when
    it called [requestCall] and did not abort. *)
Definition successful_submit (p : Tx * Receipt) : bool :=
  match tx_msg (fst p), failure (snd p) with
  | MsgRequestCall _ _, None => true
  | _, _ => false
  end.

(** The [k] ids following counter value [c]: [c+1; c+2; ...; c+k]. *)
Definition ids_after (c : uint256) (k : nat) : list uint256 :=
  map (λ i, c + N.of_nat i) (seq 1 k).

(** A record is pending while its [resultHash] is zero. *)
Definition pending (c : Call) : bool := resultHash c =? 0.
Definition fulfilled (c : Call) : bool := negb (pending c).

(** A deployment by account 1, with account 2 as inference node and the
    single model "COA". *)
Definition deployed_COA : Exec (State * list Event) := constructor 1 2 ["COA"].

(** The storage right after that deployment. *)
Definition ledger_COA : State := mkState 1 0 2 ∅ {[ "COA" := true ]} ["COA"].

(** The same ledger once account 3 has submitted request 1, still pending. *)
Definition ledger_pending : State :=
  mkState 1 1 2 {[ 1 := mkCall 3 "COA" 2748 0 0 ]} {[ "COA" := true ]} ["COA"].

(** One request is submitted, then the inference node reports twice on
    it, the first time with a zero [resultHash]. *)
Definition double_fulfil : list Tx :=
  [ mkTx 3 (MsgRequestCall "COA" 2748);
    mkTx 2 (MsgSubmitResult 1 0 5);
    mkTx 2 (MsgSubmitResult 1 7 9) ].

(** Registry invariant: the whitelist and its listing agree, and the
    listing has no duplicates. *)
Definition registry_consistent (st : State) : Prop :=
  (∀ m, models_at st m = true ↔ m ∈ modelList st) ∧ NoDup (modelList st).

(** Request invariant: the counter fits its type, every allocated id
    carries a record with a non-zero prompt hash, and no record is stored
    outside the allocated range. *)
Definition requests_well_formed (st : State) : Prop :=
  _requestCounter st ≤ max_uint256 ∧
  (∀ id, 0 < id → id ≤ _requestCounter st → promptHash (calls_at st id) ≠ 0) ∧
  (∀ id, id = 0 ∨ _requestCounter st < id → calls st !! id = None).

(** What a request was submitted with. *)
Definition request_data (c : Call) : address * string * bytes32 :=
  (caller c, model c, promptHash c).

(** A ledger with two models, ["COA"] and ["GPT"], and request 1 fulfilled. *)
Definition ledger_two_models : State :=
  mkState 1 0 2 ∅ {[ "COA" := true; "GPT" := true ]} ["COA"; "GPT"].

Definition ledger_fulfilled : State :=
  mkState 1 1 2 {[ 1 := mkCall 3 "COA" 2748 7 9 ]} {[ "COA" := true ]} ["COA"].

(** The entries of a batch, each once, in the order in which they first
    occur in it. *)
Fixpoint first_occurrences (ms : list string) : list string :=
  match ms with
  | [] => []
  | m :: ms => m :: filter (fun x => x ≠ m) (first_occurrences ms)
  end.

End Ledger.

(** ** Part II.  The JavaScript side: values, exceptions and effects *)

Module Js.
Local Open Scope Z_scope.

Local Unset Elimination Schemes.

(** JSON documents, as [JSON.parse] produces them (numbers are integers
    here). *)
Inductive Json :=
| JNull
| JBool (b : bool)
| JNum (n : Z)
| JStr (s : string)
| JArr (items : list Json)
| JObj (fields : list (string * Json)).
Local Set Elimination Schemes.

(** Values a caller can pass where a string is expected. *)
Inductive Value :=
| VUndefined
| VNull
| VBool (b : bool)
| VNumber (n : Z)
| VString (s : string)
| VObject.

(** [!!v]. *)
Definition truthy (v : Value) : bool :=
  match v with
  | VUndefined | VNull => false
  | VBool b => b
  | VNumber n => negb (n =? 0)
  | VString s => negb (String.eqb s "")
  | VObject => true
  end.

(** [typeof v === 'string']. *)
Definition is_string (v : Value) : bool :=
  match v with
  | VString _ => true
  | _ => false
  end.

(** A piece of a template literal: literal text, an interpolated integer,
    the interpolated quotient [n / d] of two integers (a JavaScript number,
    in general not an integer), or an interpolated JSON value. *)
Inductive Fragment :=
| Lit (s : string)
| Int (n : Z)
| Div (n d : Z)
| Interp (j : Json).

Definition Message := list Fragment.

(** What a [throw] can carry: an [Error] object with its [message], or the
    value [undefined]. *)
Inductive Thrown :=
| Error (message : Message)
| ThrownUndefined.

(** [TypeError] raised when a property is read on [undefined] or [null]. *)
Definition TypeError_reading (base prop : string) : Thrown :=
  Error [Lit "Cannot read properties of "; Lit base; Lit " (reading '"; Lit prop; Lit "')"].

(** How an (async) function call ends.  [OutOfFuel] is not a JavaScript
    outcome: it marks a loop cut off by the iteration budget of the model. *)
Inductive Outcome (A : Type) :=
| Return (a : A)
| Throw (e : Thrown)
| OutOfFuel.
Arguments Return {A} a.
Arguments Throw {A} e.
Arguments OutOfFuel {A}.

(** What a call into a library or a promise obtained from the outside
    world settles to: a value, or an [Error] object with its message. *)
Inductive Settled (A : Type) :=
| Resolved (a : A)
| Rejected (message : Message).
Arguments Resolved {A} a.
Arguments Rejected {A} message.

Definition settle {A} (s : Settled A) : Outcome A :=
  match s with
  | Resolved a => Return a
  | Rejected message => Throw (Error message)
  end.

(** [error.message] in a [catch] block. *)
Definition message_of (error : Thrown) : Outcome Message :=
  match error with
  | Error message => Return message
  | ThrownUndefined => Throw (TypeError_reading "undefined" "message")
  end.

(** The exception-only computations (no access to the world). *)
Definition obind {A B} (c : Outcome A) (k : A -> Outcome B) : Outcome B :=
  match c with
  | Return a => k a
  | Throw e => Throw e
  | OutOfFuel => OutOfFuel
  end.

(** [try { body } catch (error) { handler }]. *)
Definition otry {A} (body : Outcome A) (handler : Thrown -> Outcome A) : Outcome A :=
  match body with
  | Throw e => handler e
  | other => other
  end.

(** An HTTP request as [_makeRequest] receives it: [{ method, path, data }]. *)
Record Request := mkRequest {
  method : string;
  path : string;
  data : option Value
}.

(** What the network does with a request: a complete response, a socket
    error, or a timeout. *)
Inductive NetOutcome :=
| NetResponse (statusCode : Z) (responseData : string)
| NetError (message : string)
| NetTimeout.

(** Ledger record as the client reads it: every hash is a ["0x..."] string. *)
Record Details := mkDetails {
  caller : string;
  model : string;
  promptHash : string;
  resultHash : string;
  reportHash : string
}.

(** A log entry of a transaction receipt, seen through
    [interface.parseLog]: an event of the ABI with its name and its
    [requestId] argument, or an entry the ABI does not describe (parsing
    throws or yields [null]). *)
Record ParsedLog := mkParsedLog { name : string; args_requestId : Z }.

Inductive Log :=
| Foreign
| Parsed (parsed : ParsedLog).

Definition parseLog (log : Log) : option ParsedLog :=
  match log with
  | Foreign => None
  | Parsed parsed => Some parsed
  end.

Record Receipt := mkReceipt { hash : string; logs : list Log }.

(** Everything the client does to the outside world. *)
Inductive Effect :=
| EHttp (options : Request)
| ESleep (ms : Z)
| EModels (model : string)
| ECalls (requestId : option Z)
| ERequestCall (model promptHash : string)
| EAllowance
| EApprove (amount : Z).

(** The world as the client sees it: the clock ([Date.now()], in
    milliseconds) and the effects performed so far, oldest first. *)
Record World := mkWorld { now : Z; trace : list Effect }.

Definition performed (e : Effect) (w : World) : World :=
  mkWorld (now w) (trace w ++ [e]).

(** Effects that write: transactions sent to a contract.  Reads of contract
    state, HTTP requests and timers are not. *)
Definition is_transaction (e : Effect) : bool :=
  match e with
  | ERequestCall _ _ | EApprove _ => true
  | _ => false
  end.

Definition is_http (e : Effect) : bool :=
  match e with
  | EHttp _ => true
  | _ => false
  end.

(** Stateful computations: [async] functions running against the world. *)
Definition M (A : Type) : Type := World -> Outcome A * World.

Definition ret {A} (a : A) : M A := fun w => (Return a, w).
Definition throw {A} (e : Thrown) : M A := fun w => (Throw e, w).
Definition lift {A} (o : Outcome A) : M A := fun w => (o, w).

Definition bind {A B} (c : M A) (k : A -> M B) : M B :=
  fun w =>
    match c w with
    | (Return a, w') => k a w'
    | (Throw e, w') => (Throw e, w')
    | (OutOfFuel, w') => (OutOfFuel, w')
    end.

(** [try { body } catch (error) { handler }]. *)
Definition try_catch {A} (body : M A) (handler : Thrown -> M A) : M A :=
  fun w =>
    match body w with
    | (Throw e, w') => handler e w'
    | other => other
    end.

(** Node's timers: a delay below 1 or above 2^31 - 1 is replaced by 1. *)
Definition timer_delay (ms : Z) : Z :=
  if (ms <? 1) || (2147483647 <? ms) then 1 else ms.

(** [await new Promise(resolve => setTimeout(resolve, ms))].  Time passes
    in timers only; every other step is instantaneous. *)
Definition sleep (ms : Z) : M unit :=
  fun w => (Return tt, mkWorld (now w + timer_delay ms) (trace w ++ [ESleep ms])).

(** [Date.now()]. *)
Definition Date_now : M Z := fun w => (Return (now w), w).

Declare Scope js_scope.
Delimit Scope js_scope with js.
Notation "'let*' x ':=' c 'in' k" := (bind c (fun x => k))
  (at level 10, x name, c at level 100, k at level 200) : js_scope.
Notation "c ;; k" := (bind c (fun _ => k))
  (at level 100, k at level 200, right associativity) : js_scope.

Declare Scope outcome_scope.
Delimit Scope outcome_scope with outcome.
Notation "'let*' x ':=' c 'in' k" := (obind c (fun x => k))
  (at level 10, x name, c at level 100, k at level 200) : outcome_scope.
Notation "c ;; k" := (obind c (fun _ => k))
  (at level 100, k at level 200, right associativity) : outcome_scope.

End Js.

(** ** Part III.  The Content Store client ([pkg/monio/index.js]) *)

Module Minio.
Import Js.
Local Open Scope Z_scope.
Local Open Scope js_scope.

(** The network the client talks to: the outcome of a request may depend on
    everything that happened before (time, earlier attempts).
    [encodeURIComponent] is the JavaScript built-in (it takes any value). *)
Class Network := {
  network : World -> Request -> NetOutcome;
  encodeURIComponent : Value -> string
}.

(** Client configuration, [{ ...DEFAULT_CONFIG, ...config }]. *)
Record Config := mkConfig {
  endpoint : string;
  timeout : Z;
  retries : Z;
  userAgent : string
}.

Definition DEFAULT_CONFIG : Config :=
  mkConfig "http://34.126.81.115:8080" 30000 3 "MinIO-NodeJS-Client/1.0.0".

(** The object [_makeRequest] resolves to (headers are not used by any caller). *)
Record Response := mkResponse { statusCode : Z; response_data : string }.

(** [_makeRequest]: one HTTP exchange.  Resolves on a 2xx status; rejects
    on any other status, on a socket error and on a timeout.  The exchange
    is recorded in the trace; how long it takes is not modelled (the clock
    [now] counts the time spent in timers only). *)
Definition _makeRequest `{Network} (options : Request) : M Response :=
  fun w =>
    let w' := performed (EHttp options) w in
    match network w options with
    | NetResponse status responseData =>
        if (200 <=? status) && (status <? 300)
        then (Return (mkResponse status responseData), w')
        else (Throw (Error [Lit "HTTP "; Int status; Lit ": "; Lit responseData]), w')
    | NetError message => (Throw (Error [Lit "Request failed: "; Lit message]), w')
    | NetTimeout => (Throw (Error [Lit "Request timeout"]), w')
    end.

(** [Math.min(1000 * Math.pow(2, attempt - 1), 5000)]. *)
Definition backoff_delay (attempt : Z) : Z :=
  Z.min (1000 * 2 ^ (attempt - 1)) 5000.

(** The [for (let attempt = 1; attempt <= retries; attempt++)] loop of
    [_requestWithRetry], followed by [throw lastError].  [fuel] bounds the
    number of iterations. *)
Fixpoint retry_loop `{Network} (config : Config) (options : Request)
    (fuel : nat) (attempt : Z) (lastError : Thrown) : M Response :=
  if attempt <=? retries config then
    match fuel with
    | O => lift OutOfFuel
    | S fuel' =>
        try_catch (_makeRequest options) (fun error =>
          if attempt =? retries config then throw error
          else
            sleep (backoff_delay attempt) ;;
            retry_loop config options fuel' (attempt + 1) error)
    end
  else throw lastError.

Definition _requestWithRetry `{Network} (config : Config) (options : Request)
  : M Response :=
  retry_loop config options (Z.to_nat (retries config)) 1 ThrownUndefined.

(** [catch (error) { throw new Error(`<prefix>${error.message}`) }]. *)
Definition rethrow_prefixed {A} (prefix : string) (error : Thrown) : M A :=
  match message_of error with
  | Return message => throw (Error (Lit prefix :: message))
  | Throw e => throw e
  | OutOfFuel => lift OutOfFuel
  end.

Definition putObject `{Network} (config : Config) (content : Value) : M string :=
  if negb (truthy content) || negb (is_string content)
  then throw (Error [Lit "Content must be a non-empty string"])
  else
    try_catch
      (let* response :=
         _requestWithRetry config (mkRequest "POST" "/v1/minio/object" (Some content)) in
       ret (response_data response))
      (rethrow_prefixed "Failed to upload object: ").

Definition getObject `{Network} (config : Config) (key : Value) : M string :=
  if negb (truthy key) || negb (is_string key)
  then throw (Error [Lit "Key must be a non-empty string"])
  else
    try_catch
      (let* response :=
         _requestWithRetry config
           (mkRequest "GET" ("/v1/minio/get/" ++ encodeURIComponent key) None) in
       ret (response_data response))
      (rethrow_prefixed "Failed to get object: ").

(** [ping]: a single request, any failure turned into [false]. *)
Definition ping `{Network} : M bool :=
  try_catch
    (_makeRequest (mkRequest "GET" "/v1/minio/health" None) ;; ret true)
    (fun _ => ret false).

(** The effects a computation added to the trace. *)
Definition added (w w' : World) : list Effect :=
  drop (length (trace w)) (trace w').

(** The effects of [k] attempts at [options], the first of them numbered
    [attempt]: each attempt but the last is followed by its backoff wait. *)
Fixpoint attempts_trace (options : Request) (attempt : Z) (k : nat) : list Effect :=
  match k with
  | O => []
  | S O => [EHttp options]
  | S k' =>
      EHttp options :: ESleep (backoff_delay attempt)
        :: attempts_trace options (attempt + 1) k'
  end.

(** How a retried operation may end, for a request [options] and the
    prefix its caller puts before the message of a failure: after [k]
    attempts, at most [retries] of them, separated by the backoff waits and
    by nothing else, either the last attempt succeeded and its body is
    returned, or every allowed attempt failed and the error of the last one
    is thrown under the prefix.  Without any allowed attempt
    ([retries <= 0]) the operation throws without touching the network. *)
Definition retry_outcome `{Network} (config : Config) (options : Request) (prefix : string)
    (w : World) (r : Outcome string * World) : Prop :=
  ∃ k : nat,
    Z.of_nat k <= Z.max 0 (retries config) ∧
    added w (snd r) = attempts_trace options 1 k ∧
    match fst r with
    | Return body =>
        ∃ w_last response,
          _makeRequest options w_last = (Return response, snd r) ∧
          body = response_data response
    | Throw e =>
        (k = O ∧ retries config <= 0 ∧ e = TypeError_reading "undefined" "message") ∨
        (Z.of_nat k = retries config ∧
         ∃ w_last message,
           _makeRequest options w_last = (Throw (Error message), snd r) ∧
           e = Error (Lit prefix :: message))
    | OutOfFuel => False
    end.

(** The waits of the first [k] failed attempts: 1000, 2000, 4000, 5000, ... *)
Definition backoff_schedule (k : nat) : list Z :=
  map (fun i => backoff_delay (Z.of_nat i)) (seq 1 k).

Definition sleeps (es : list Effect) : list Z :=
  omap (fun e => match e with ESleep ms => Some ms | _ => None end) es.

Definition http_requests (es : list Effect) : list Request :=
  omap (fun e => match e with EHttp r => Some r | _ => None end) es.

(** Two networks to run the client on: a store that never answers, and a
    store that answers 503 twice and then stores the object under key
    ["k1"] (it counts the requests it has seen). *)
Definition store_down : Network :=
  {| network := fun _ _ => NetTimeout;
     encodeURIComponent := fun v => match v with VString s => s | _ => "" end |}.

Definition store_flaky : Network :=
  {| network := fun w _ =>
       if (length (http_requests (trace w)) <? 2)%nat
       then NetResponse 503 "busy" else NetResponse 200 "k1";
     encodeURIComponent := fun v => match v with VString s => s | _ => "" end |}.

Definition world0 : World := mkWorld 0 [].

(** The waits among a list of effects stay within the backoff policy of
    a client with this configuration: each delay handed to the timer lies
    between one and five seconds, there is at most one of them per retry,
    and together they ask for at most five seconds per retry. *)
Definition waits_within (config : Config) (es : list Effect) : Prop :=
  Forall (fun ms => 1000 <= ms <= 5000) (sleeps es) ∧
  Z.of_nat (length (sleeps es)) <= Z.max 0 (retries config - 1) ∧
  fold_right Z.add 0 (sleeps es) <= 5000 * Z.max 0 (retries config - 1).

(** A request the store does not answer with a 2xx status. *)
Definition attempt_fails `{Network} (w : World) (options : Request) : bool :=
  match network w options with
  | NetResponse status _ => negb ((200 <=? status) && (status <? 300))
  | _ => true
  end.

(** The requests of [putObject], [getObject] and [ping]. *)
Definition put_request (content : Value) : Request :=
  mkRequest "POST" "/v1/minio/object" (Some content).

Definition get_request `{Network} (key : Value) : Request :=
  mkRequest "GET" ("/v1/minio/get/" ++ encodeURIComponent key) None.

Definition health_request : Request := mkRequest "GET" "/v1/minio/health" None.

(** A store that answers every request with 404. *)
Definition store_missing : Network :=
  {| network := fun _ _ => NetResponse 404 "no such key";
     encodeURIComponent := fun v => match v with VString s => s | _ => "" end |}.

End Minio.

(** ** Part IV.  The attestation verifier ([pkg/tee/index.js]) *)

Module Tee.
Import Js.
Local Open Scope Z_scope.
Local Open Scope outcome_scope.

(** [token.split('.')]. *)
Fixpoint split_dot (s : string) : list string :=
  match s with
  | EmptyString => [EmptyString]
  | String c rest =>
      if Ascii.eqb c "." then EmptyString :: split_dot rest
      else
        match split_dot rest with
        | part :: parts => String c part :: parts
        | [] => [String c EmptyString]
        end
  end.

(** Value of a property of an object built by [JSON.parse]: the last
    binding of the key wins. *)
Fixpoint lookup_last (prop : string) (fields : list (string * Json)) : option Json :=
  match fields with
  | [] => None
  | (k, v) :: rest =>
      match lookup_last prop rest with
      | Some v' => Some v'
      | None => if String.eqb k prop then Some v else None
      end
  end.

(** [j.prop] for a property that no prototype defines ([kid], [alg],
    [iat]): [None] is [undefined]; reading it on [null] throws. *)
Definition get_prop (j : Json) (prop : string) : Outcome (option Json) :=
  match j with
  | JNull => Throw (TypeError_reading "null" prop)
  | JObj fields => Return (lookup_last prop fields)
  | _ => Return None
  end.

(** [!!v] for a JSON value or [undefined]. *)
Definition truthy_json (v : option Json) : bool :=
  match v with
  | None | Some JNull => false
  | Some (JBool b) => b
  | Some (JNum n) => negb (n =? 0)
  | Some (JStr s) => negb (String.eqb s "")
  | Some (JArr _) | Some (JObj _) => true
  end.

(** [a === b]: primitives by value; two objects or arrays coming from
    different documents are never identical. *)
Definition strict_eq (a b : option Json) : bool :=
  match a, b with
  | None, None => true
  | Some JNull, Some JNull => true
  | Some (JBool x), Some (JBool y) => Bool.eqb x y
  | Some (JNum x), Some (JNum y) => x =? y
  | Some (JStr x), Some (JStr y) => String.eqb x y
  | _, _ => false
  end.

(** The libraries and the network behind the verifier: base64url + JSON
    decoding of a token segment, the HTTPS fetch of the key set, and
    [importJWK] / [jwtVerify] of [jose].  [jwtVerify] receives the [iat]
    claim from which the code builds its [currentDate]. *)
Inductive FetchOutcome :=
| FetchFailed (message : Message)
| FetchDone (ok : bool) (status : Z) (json : Settled Json).

Class Jose := {
  Key : Type;
  decode_json : string -> Settled Json;
  fetch : string -> FetchOutcome;
  importJWK : option Json -> option Json -> Settled Key;
  jwtVerify : string -> Key -> option Json -> option Json -> Settled Json
}.

Definition not_a_function : Thrown := Error [Lit "jwks.keys.find is not a function"].

(** [jwks.keys], as far as [.find] can be called on it. *)
Definition jwks_keys (jwks : Json) : Outcome (list Json) :=
  match jwks with
  | JNull => Throw (TypeError_reading "null" "keys")
  | JObj fields =>
      match lookup_last "keys" fields with
      | Some (JArr items) => Return items
      | Some JNull => Throw (TypeError_reading "null" "find")
      | Some _ => Throw not_a_function
      | None => Throw (TypeError_reading "undefined" "find")
      end
  | JArr _ => Throw not_a_function
  | _ => Throw (TypeError_reading "undefined" "find")
  end.

(** [keys.find(k => k.kid === kid)]. *)
Fixpoint find_kid (items : list Json) (kid : option Json) : Outcome (option Json) :=
  match items with
  | [] => Return None
  | k :: rest =>
      let* k_kid := get_prop k "kid" in
      if strict_eq k_kid kid then Return (Some k) else find_kid rest kid
  end.

(** [`JWK with kid ${kid} not found`]. *)
Definition kid_not_found (kid : option Json) : Thrown :=
  Error [Lit "JWK with kid ";
         match kid with Some j => Interp j | None => Lit "undefined" end;
         Lit " not found"].

Definition getJWKFromJWKS `{Jose} (jwksUrl : string) (kid : option Json)
  : Outcome (option Json) :=
  otry
    (match fetch jwksUrl with
     | FetchFailed message => Throw (Error message)
     | FetchDone ok status json =>
         if negb ok then Throw (Error [Lit "Failed to fetch JWKS: "; Int status])
         else
           let* jwks := settle json in
           let* keys := jwks_keys jwks in
           let* jwk := find_kid keys kid in
           if negb (truthy_json jwk) then Throw (kid_not_found kid)
           else Return jwk
     end)
    (fun error => message_of error ;; Throw error).

(** The object [parseAndVerifyJWT] returns; absent properties are [None]. *)
Record VerifyResult := mkVerifyResult {
  header : option Json;
  payload : option Json;
  signatureValid : bool;
  error : option Message
}.

(** [!segment] for a segment of the split token, [undefined] when the
    token has fewer segments. *)
Definition missing (segment : option string) : bool :=
  match segment with
  | None => true
  | Some s => String.eqb s ""
  end.

Definition parseAndVerifyJWT `{Jose} (token : string) (jwksUrl : string)
  : Outcome VerifyResult :=
  otry
    (let parts := split_dot token in
     let headerB64 := parts !! 0%nat in
     let payloadB64 := parts !! 1%nat in
     let signatureB64 := parts !! 2%nat in
     if missing headerB64 || missing payloadB64 || missing signatureB64
     then Throw (Error [Lit "Invalid JWT format"])
     else
       let* header := settle (decode_json (default "" headerB64)) in
       let* kid := get_prop header "kid" in
       let* alg := get_prop header "alg" in
       if negb (truthy_json kid) || negb (truthy_json alg)
       then Throw (Error [Lit "Missing kid or alg in JWT header"])
       else
         let* jwk := getJWKFromJWKS jwksUrl kid in
         let* key := settle (importJWK jwk alg) in
         let* payloadUnverified := settle (decode_json (default "" payloadB64)) in
         let* iat := get_prop payloadUnverified "iat" in
         otry
           (let* payload := settle (jwtVerify token key alg iat) in
            Return (mkVerifyResult (Some header) (Some payload) true None))
           (fun e =>
              let* message := message_of e in
              Return (mkVerifyResult (Some header) None false (Some message))))
    (fun error =>
       let* message := message_of error in
       Return (mkVerifyResult None None false (Some message))).

(** The shape test the code applies to a token: its first three
    dot-separated segments exist and are non-empty. *)
Definition well_shaped (token : string) : bool :=
  negb (missing (split_dot token !! 0%nat) || missing (split_dot token !! 1%nat)
        || missing (split_dot token !! 2%nat)).

(** The header carries a truthy [kid] and a truthy [alg]. *)
Definition has_kid_and_alg (header : Json) : bool :=
  match get_prop header "kid", get_prop header "alg" with
  | Return kid, Return alg => truthy_json kid && truthy_json alg
  | _, _ => false
  end.

(** The [i]-th dot-separated segment of a token that has one. *)
Definition segment (token : string) (i : nat) : string :=
  default "" (split_dot token !! i).

(** A computation that ends well: it returns a value satisfying [P], or it
    throws an [Error] object.  (It does not throw [undefined], and no loop
    was cut off.) *)
Definition ends_well {A} (P : A → Prop) (o : Outcome A) : Prop :=
  match o with
  | Return a => P a
  | Throw (Error _) => True
  | Throw ThrownUndefined => False
  | OutOfFuel => False
  end.

(** The three forms of a verification result: verified (header, payload,
    valid), rejected by the signature check (header, not valid, reason),
    and failed before the signature check (not valid, reason). *)
Inductive result_form : VerifyResult → Prop :=
| form_verified header payload :
    result_form (mkVerifyResult (Some header) (Some payload) true None)
| form_rejected header message :
    result_form (mkVerifyResult (Some header) None false (Some message))
| form_failed message :
    result_form (mkVerifyResult None None false (Some message)).

(** Stand-ins for the libraries, to run the verifier on: [jose_offline]
    decodes nothing and reaches no key set; [jose_unreachable] decodes
    every segment to the header [{kid: k1, alg: RS256}] and reaches no key
    set; [jose_rejecting] decodes the same, serves that key and rejects
    every signature. *)
Definition jose_offline : Jose :=
  {| Key := unit;
     decode_json := fun _ => Rejected [Lit "Unexpected end of JSON input"];
     fetch := fun _ => FetchFailed [Lit "getaddrinfo ENOTFOUND"];
     importJWK := fun _ _ => Resolved tt;
     jwtVerify := fun _ _ _ _ => Rejected [Lit "signature verification failed"] |}.

Definition sample_header : Json := JObj [("kid", JStr "k1"); ("alg", JStr "RS256")].

Definition jose_unreachable : Jose :=
  {| Key := unit;
     decode_json := fun _ => Resolved sample_header;
     fetch := fun _ => FetchFailed [Lit "getaddrinfo ENOTFOUND"];
     importJWK := fun _ _ => Resolved tt;
     jwtVerify := fun _ _ _ _ => Rejected [Lit "signature verification failed"] |}.

Definition jose_rejecting : Jose :=
  {| Key := unit;
     decode_json := fun _ => Resolved sample_header;
     fetch := fun _ =>
       FetchDone true 200 (Resolved (JObj [("keys", JArr [JObj [("kid", JStr "k1")]])]));
     importJWK := fun _ _ => Resolved tt;
     jwtVerify := fun _ _ _ _ => Rejected [Lit "signature verification failed"] |}.

(** [jose_accepting] decodes every segment to [sample_header], serves
    the key ["k1"] after a key ["k0"], and accepts every signature,
    returning the payload [{iat: 1700000000}]. *)
Definition sample_payload : Json := JObj [("iat", JNum 1700000000)].

Definition sample_jwks : Json :=
  JObj [("keys", JArr [JObj [("kid", JStr "k0")]; JObj [("kid", JStr "k1")]])].

Definition jose_accepting : Jose :=
  {| Key := unit;
     decode_json := fun _ => Resolved sample_header;
     fetch := fun _ => FetchDone true 200 (Resolved sample_jwks);
     importJWK := fun _ _ => Resolved tt;
     jwtVerify := fun _ _ _ _ => Resolved sample_payload |}.

(** Number of dots of a token. *)
Fixpoint count_dots (s : string) : nat :=
  match s with
  | EmptyString => O
  | String c rest => if Ascii.eqb c "." then S (count_dots rest) else count_dots rest
  end.

(** A key-set entry that [find] passes over when looking for [kid]: reading
    its [kid] does not throw, and the value is not identical to [kid]. *)
Definition passed_over (kid : option Json) (k : Json) : Prop :=
  ∃ k_kid, get_prop k "kid" = Return k_kid ∧ strict_eq k_kid kid = false.

End Tee.

(** ** Part V.  The correlation/polling engine ([index.js]) *)

Module App.
Import Js.
Local Open Scope Z_scope.
Local Open Scope js_scope.

(** The chain behind the [ethers] contract objects: reads of contract
    state and mined transactions, each settling to a value or to an
    [Error].  The answers may depend on the time and on what was done
    before. *)
Class Chain := {
  models_view : World -> string -> Settled bool;
  calls_view : World -> option Z -> Settled Details;
  requestCall_tx : World -> string -> string -> Settled Receipt;
  allowance_view : World -> Settled Z;
  approve_tx : World -> Z -> Settled Receipt
}.

(** [ethers.ZeroHash]. *)
Definition ZeroHash : string :=
  "0x0000000000000000000000000000000000000000000000000000000000000000".

(** [hash.startsWith('0x') ? hash.slice(2) : hash]. *)
Definition strip0x (hash : string) : string :=
  if String.prefix "0x" hash then String.substring 2 (String.length hash - 2) hash
  else hash.

(** A contract call: the effect is recorded, the chain answers.  How long
    the call takes is not modelled (the clock [now] counts the time spent
    in timers only). *)
Definition contract_call {A} (e : Effect) (answer : World -> Settled A) : M A :=
  fun w => (settle (answer w), performed e w).

(** [catch (error) { console.error(..., error.message); throw error; }]. *)
Definition log_and_rethrow {A} (error : Thrown) : M A :=
  lift (message_of error) ;; throw error.

Definition uploadPrompt `{Minio.Network} (minioConfig : Minio.Config) (prompt : Value)
  : M string :=
  try_catch (Minio.putObject minioConfig prompt) log_and_rethrow.

(** [approveTokens]: [None] is the [null] returned when the allowance is
    already sufficient. *)
Definition approveTokens `{Chain} (amount : Z) : M (option Receipt) :=
  try_catch
    (let* currentAllowance := contract_call EAllowance allowance_view in
     if amount <=? currentAllowance then ret None
     else
       let* receipt := contract_call (EApprove amount) (fun w => approve_tx w amount) in
       ret (Some receipt))
    log_and_rethrow.

(** The object [callInference] returns; [requestId = None] is [undefined]. *)
Record InferenceResult := mkInferenceResult {
  receipt : Receipt;
  requestId : option Z;
  ir_promptHash : string
}.

(** The callback of [receipt.logs.find]. *)
Definition is_CallRequested (log : Log) : bool :=
  match parseLog log with
  | Some parsed => String.eqb (name parsed) "CallRequested"
  | None => false
  end.

Definition callInference `{Chain} (objectKey : string) (model : string)
  : M InferenceResult :=
  try_catch
    (let* isModelSupported := contract_call (EModels model) (fun w => models_view w model) in
     if negb isModelSupported
     then throw (Error [Lit "Model "; Lit model; Lit " is not supported"])
     else
       let promptHash := "0x" ++ objectKey in
       let* receipt :=
         contract_call (ERequestCall model promptHash)
           (fun w => requestCall_tx w model promptHash) in
       let event := List.find is_CallRequested (logs receipt) in
       let requestId :=
         match event with
         | Some log => args_requestId <$> parseLog log
         | None => None
         end in
       ret (mkInferenceResult receipt requestId promptHash))
    log_and_rethrow.

Definition getRequestDetails `{Chain} (requestId : option Z) : M Details :=
  contract_call (ECalls requestId) (fun w => calls_view w requestId).

(** The object [waitForInferenceResult] returns. *)
Record FinalResult := mkFinalResult {
  fr_requestId : option Z;
  fr_resultHash : string;
  fr_reportHash : string;
  result : string;
  report : string
}.

(** [new Error(`Timeout waiting for inference result after ${maxWaitTime / 1000} seconds`)]. *)
Definition timeout_error (maxWaitTime : Z) : Thrown :=
  Error [Lit "Timeout waiting for inference result after ";
         Div maxWaitTime 1000; Lit " seconds"].

(** The test "result is ready" of the polling loop. *)
Definition result_ready (details : Details) : bool :=
  negb (String.eqb (resultHash details) ZeroHash)
  && negb (String.eqb (reportHash details) ZeroHash).

(** The [while (Date.now() - startTime < maxWaitTime)] loop of
    [waitForInferenceResult] and the [throw] that follows it.  [fuel]
    bounds the number of iterations. *)
Fixpoint wait_loop `{Chain} `{Minio.Network} (minioConfig : Minio.Config)
    (fuel : nat) (requestId : option Z) (maxWaitTime checkInterval startTime : Z)
  : M FinalResult :=
  let* t := Date_now in
  if t - startTime <? maxWaitTime then
    match fuel with
    | O => lift OutOfFuel
    | S fuel' =>
        let* details := getRequestDetails requestId in
        if result_ready details then
          let* result :=
            Minio.getObject minioConfig (VString (strip0x (resultHash details))) in
          let* report :=
            Minio.getObject minioConfig (VString (strip0x (reportHash details))) in
          ret (mkFinalResult requestId (resultHash details) (reportHash details)
                 result report)
        else
          sleep checkInterval ;;
          wait_loop minioConfig fuel' requestId maxWaitTime checkInterval startTime
    end
  else throw (timeout_error maxWaitTime).

Definition waitForInferenceResult `{Chain} `{Minio.Network} (minioConfig : Minio.Config)
    (fuel : nat) (requestId : option Z) (maxWaitTime checkInterval : Z)
  : M FinalResult :=
  let* startTime := Date_now in
  wait_loop minioConfig fuel requestId maxWaitTime checkInterval startTime.

(** Default arguments of [waitForInferenceResult]. *)
Definition default_maxWaitTime : Z := 5 * 60 * 1000.
Definition default_checkInterval : Z := 10 * 1000.

(** The object [execute] returns: the inference result, spread, with
    [finalResult] when the caller waited for it. *)
Record ExecuteResult := mkExecuteResult {
  inferenceResult : InferenceResult;
  finalResult : option FinalResult
}.

Definition execute `{Chain} `{Minio.Network} (minioConfig : Minio.Config) (fuel : nat)
    (prompt : Value) (amount : Z) (model : string) (waitForResult : bool)
  : M ExecuteResult :=
  try_catch
    (approveTokens amount ;;
     let* objectKey := uploadPrompt minioConfig prompt in
     let* inferenceResult := callInference objectKey model in
     if waitForResult then
       let* finalResult :=
         waitForInferenceResult minioConfig fuel (requestId inferenceResult)
           default_maxWaitTime default_checkInterval in
       ret (mkExecuteResult inferenceResult (Some finalResult))
     else ret (mkExecuteResult inferenceResult None))
    log_and_rethrow.

(** Chains to run the engine on.  [chain_silent]: the model is
    whitelisted, [requestCall] is mined, but its receipt carries no log;
    a read of [calls(undefined)] is refused by the encoder.
    [chain_pending]: every record read is still pending.
    [chain_fulfilled_at t]: the record is pending before time [t] and
    fulfilled from then on. *)
Definition pending_details : Details :=
  mkDetails "0x03" "COA" "0x0abc" ZeroHash ZeroHash.

Definition fulfilled_details : Details :=
  mkDetails "0x03" "COA" "0x0abc" "0x0a" "0x0b".

Definition chain_silent : Chain :=
  {| models_view := fun _ _ => Resolved true;
     calls_view := fun _ requestId =>
       match requestId with
       | Some _ => Resolved pending_details
       | None => Rejected [Lit "invalid BigNumberish value"]
       end;
     requestCall_tx := fun _ _ _ => Resolved (mkReceipt "0xfeed" []);
     allowance_view := fun _ => Resolved 10;
     approve_tx := fun _ _ => Resolved (mkReceipt "0xbeef" []) |}.

Definition chain_pending : Chain :=
  {| models_view := fun _ _ => Resolved true;
     calls_view := fun _ _ => Resolved pending_details;
     requestCall_tx := fun _ _ _ => Resolved (mkReceipt "0xfeed" []);
     allowance_view := fun _ => Resolved 10;
     approve_tx := fun _ _ => Resolved (mkReceipt "0xbeef" []) |}.

(** [chain_partial]: the record read has a result hash but no report hash. *)
Definition chain_partial : Chain :=
  {| models_view := fun _ _ => Resolved true;
     calls_view := fun _ _ => Resolved (mkDetails "0x03" "COA" "0x0abc" "0x0a" ZeroHash);
     requestCall_tx := fun _ _ _ => Resolved (mkReceipt "0xfeed" []);
     allowance_view := fun _ => Resolved 10;
     approve_tx := fun _ _ => Resolved (mkReceipt "0xbeef" []) |}.

Definition chain_fulfilled_at (t : Z) : Chain :=
  {| models_view := fun _ _ => Resolved true;
     calls_view := fun w _ =>
       if now w <? t then Resolved pending_details else Resolved fulfilled_details;
     requestCall_tx := fun _ _ _ => Resolved (mkReceipt "0xfeed" []);
     allowance_view := fun _ => Resolved 10;
     approve_tx := fun _ _ => Resolved (mkReceipt "0xbeef" []) |}.

(** A store that serves every key with the key itself as content. *)
Definition store_echo : Minio.Network :=
  {| Minio.network := fun _ options => NetResponse 200 (path options);
     Minio.encodeURIComponent := fun v => match v with VString s => s | _ => "" end |}.

(** One polling round that found the record not ready. *)
Definition poll_round (requestId : option Z) (checkInterval : Z) : list Effect :=
  [ECalls requestId; ESleep checkInterval].

(** The world after a polling round that found the record not ready. *)
Definition after_round (requestId : option Z) (checkInterval : Z) (w : World) : World :=
  mkWorld (now w + timer_delay checkInterval)
    (trace w ++ poll_round requestId checkInterval).

(** [isModelSupported]: the whitelist flag of a model, any failure of the
    read turned into [false]. *)
Definition isModelSupported `{Chain} (model : string) : M bool :=
  try_catch
    (contract_call (EModels model) (fun w => models_view w model))
    (fun _ => ret false).

(** A chain on which the allowance is too low and the approval is mined. *)
Definition chain_no_allowance : Chain :=
  {| models_view := fun _ _ => Resolved true;
     calls_view := fun _ _ => Resolved pending_details;
     requestCall_tx := fun _ _ _ => Resolved (mkReceipt "0xfeed" []);
     allowance_view := fun _ => Resolved 0;
     approve_tx := fun _ _ => Resolved (mkReceipt "0xbeef" []) |}.

(** A chain on which no model is supported. *)
Definition chain_no_model : Chain :=
  {| models_view := fun _ _ => Resolved false;
     calls_view := fun _ _ => Resolved pending_details;
     requestCall_tx := fun _ _ _ => Resolved (mkReceipt "0xfeed" []);
     allowance_view := fun _ => Resolved 10;
     approve_tx := fun _ _ => Resolved (mkReceipt "0xbeef" []) |}.

(** What polling request [requestId] may do: read that record, wait, and
    send GET requests to the store. *)
Definition polling_effect (requestId : option Z) (e : Effect) : Prop :=
  match e with
  | ECalls id => id = requestId
  | ESleep _ => True
  | EHttp options => method options = "GET"
  | _ => False
  end.

(** An object key as the store hands them out: 32 bytes in hexadecimal,
    so that ["0x" + objectKey] is a [bytes32] value. *)
Definition object_key : string :=
  "ab12cd34ef56ab12cd34ef56ab12cd34ef56ab12cd34ef56ab12cd34ef56ab12".

(** A store that files every upload under [object_key] and serves every
    key with the path asked for as content. *)
Definition store_keyed : Minio.Network :=
  {| Minio.network := fun _ options =>
       if String.eqb (method options) "POST" then NetResponse 200 object_key
       else NetResponse 200 (path options);
     Minio.encodeURIComponent := fun v => match v with VString s => s | _ => "" end |}.

End App.

(** ** Part VI.  Properties of the Request Ledger *)

Module LedgerFacts.
Import Ledger.
Local Open Scope sol_scope.

(** Splits a monadic body along its guards. *)
Ltac exec_inv H :=
  repeat match type of H with
  | bind ?c _ = _ =>
      let E := fresh "Hguard" in
      destruct c eqn:E; cbn [bind] in H; [| discriminate H]
  end; cbv zeta in H.

Lemma require_ok cond reason u : require cond reason = Ok u → cond = true.
Proof. unfold require. by destruct cond. Qed.

Lemma require_true reason : require true reason = Ok tt.
Proof. reflexivity. Qed.

Lemma require_err cond reason e :
  require cond reason = Err e → cond = false ∧ e = Revert reason.
Proof. unfold require. destruct cond; [done|]. by intros [= <-]. Qed.

Lemma onlyOwner_ok st sender u : onlyOwner st sender = Ok u → sender = _owner st.
Proof. unfold onlyOwner. destruct (N.eqb_spec sender (_owner st)); by intros. Qed.

Lemma onlyOwner_owner st : onlyOwner st (_owner st) = Ok tt.
Proof. unfold onlyOwner. by rewrite N.eqb_refl. Qed.

Lemma onlyInferenceNode_ok st sender u :
  onlyInferenceNode st sender = Ok u → sender = _inferenceNode st.
Proof.
  intros H%require_ok. by apply N.eqb_eq.
Qed.

Lemma checked_incr_ok c c' : checked_incr c = Ok c' → c' = c + 1 ∧ c < max_uint256.
Proof.
  unfold checked_incr. destruct (N.ltb_spec c max_uint256); [|done].
  by intros [= <-].
Qed.

Lemma calls_at_insert st cs id c :
  calls_at (set_calls st (<[id := c]> cs)) id = c.
Proof. unfold calls_at; cbn. by rewrite lookup_insert_eq. Qed.

Lemma calls_at_insert_ne st id id' c :
  id ≠ id' → calls_at (set_calls st (<[id := c]> (calls st))) id' = calls_at st id'.
Proof. intros Hne. unfold calls_at; cbn. by rewrite lookup_insert_ne. Qed.

(** *** What a successful call did *)

Lemma requestCall_inv st sender m d st' evs :
  requestCall st sender m d = Ok (st', evs) →
  models_at st m = true ∧ d ≠ 0 ∧ _requestCounter st < max_uint256 ∧
  let requestId := _requestCounter st + 1 in
  st' = set_calls (set_requestCounter st requestId)
          (<[requestId := mkCall sender m d 0 0]> (calls st)) ∧
  evs = [CallRequested requestId sender m d].
Proof.
  unfold requestCall. intros H. exec_inv H.
  apply require_ok in Hguard, Hguard0.
  apply checked_incr_ok in Hguard1 as [-> Hlt].
  apply negb_true_iff, N.eqb_neq in Hguard0.
  injection H as <- <-. done.
Qed.

Lemma submitResult_inv st sender id r p st' evs :
  submitResult st sender id r p = Ok (st', evs) →
  sender = _inferenceNode st ∧ 0 < id ∧ id ≤ _requestCounter st ∧
  resultHash (calls_at st id) = 0 ∧
  st' = set_calls st
          (<[id := mkCall (caller (calls_at st id)) (model (calls_at st id))
                          (promptHash (calls_at st id)) r p]> (calls st)) ∧
  evs = [CallFinished id r p].
Proof.
  unfold submitResult. intros H. exec_inv H.
  apply onlyInferenceNode_ok in Hguard.
  apply require_ok in Hguard0, Hguard1.
  apply andb_true_iff in Hguard0 as [H1 H2].
  apply N.ltb_lt in H1. apply N.leb_le in H2. apply N.eqb_eq in Hguard1.
  injection H as <- <-. done.
Qed.

Lemma addModels_loop_counter st ms :
  _requestCounter (fst (addModels_loop st ms)) = _requestCounter st
  ∧ calls (fst (addModels_loop st ms)) = calls st
  ∧ _inferenceNode (fst (addModels_loop st ms)) = _inferenceNode st
  ∧ Forall (λ e, requested_id e = None) (snd (addModels_loop st ms)).
Proof.
  revert st. induction ms as [|m ms IH]; intros st; cbn; [done|].
  destruct (negb (models_at st m)); [|apply IH].
  match goal with |- context [addModels_loop ?s ms] => specialize (IH s) end.
  destruct (addModels_loop _ ms) as [st' evs]; cbn in *.
  destruct IH as (-> & -> & -> & IH). repeat split; [done..|].
  by constructor.
Qed.

Lemma delModels_loop_counter st ms :
  _requestCounter (fst (delModels_loop st ms)) = _requestCounter st
  ∧ calls (fst (delModels_loop st ms)) = calls st
  ∧ _inferenceNode (fst (delModels_loop st ms)) = _inferenceNode st
  ∧ Forall (λ e, requested_id e = None) (snd (delModels_loop st ms)).
Proof.
  revert st. induction ms as [|m ms IH]; intros st; cbn; [done|].
  destruct (models_at st m); [|apply IH].
  match goal with |- context [delModels_loop ?s ms] => specialize (IH s) end.
  destruct (delModels_loop _ ms) as [st' evs]; cbn in *.
  destruct IH as (-> & -> & -> & IH). repeat split; [done..|].
  by constructor.
Qed.

(** Every call other than [requestCall] and [submitResult] leaves the
    request side of the storage alone and announces no request id. *)
Lemma registry_msg_frame st tx st' evs :
  registry_msg (tx_msg tx) = true →
  dispatch st tx = Ok (st', evs) →
  _requestCounter st' = _requestCounter st ∧ calls st' = calls st ∧
  Forall (λ e, requested_id e = None) evs.
Proof.
  destruct tx as [sender msg]; unfold dispatch; cbn [tx_sender tx_msg].
  destruct msg; cbn [registry_msg]; try discriminate; intros _ H.
  - unfold setInferenceNode in H. exec_inv H. injection H as <- <-. done.
  - unfold addModel in H. exec_inv H. injection H as <- <-. repeat split; by repeat constructor.
  - unfold addModels in H. exec_inv H.
    pose proof (addModels_loop_counter st models_) as (? & ? & ? & ?).
    destruct (addModels_loop st models_); injection H as <- <-; done.
  - unfold delModel in H. exec_inv H. injection H as <- <-. repeat split; by repeat constructor.
  - unfold delModels in H. exec_inv H.
    pose proof (delModels_loop_counter st models_) as (? & ? & ? & ?).
    destruct (delModels_loop st models_); injection H as <- <-; done.
  - unfold transferOwnership in H. exec_inv H.
    destruct (newOwner =? 0); [done|]. injection H as <- <-.
    repeat split; by repeat constructor.
  - unfold renounceOwnership in H. exec_inv H. injection H as <- <-.
    repeat split; by repeat constructor.
Qed.

(** *** Id allocation *)

Lemma requested_ids_cons r rs :
  requested_ids (r :: rs) = (omap requested_id (logs r) ++ requested_ids rs)%list.
Proof. unfold requested_ids; cbn. by rewrite omap_app. Qed.

Lemma omap_requested_none evs :
  Forall (λ e, requested_id e = None) evs → omap requested_id evs = [].
Proof. induction 1 as [|e evs He _ IH]; cbn; [done|]. by rewrite He. Qed.

Local Arguments ids_after : simpl never.

Lemma ids_after_S c k : ids_after c (S k) = (c + 1) :: ids_after (c + 1) k.
Proof.
  unfold ids_after. cbn [seq map]. f_equal.
  rewrite <- seq_shift, map_map. apply map_ext. intros i. lia.
Qed.

Lemma ids_after_lower c k : Forall (λ i, c < i) (ids_after c k).
Proof.
  unfold ids_after. apply Forall_map, Forall_forall.
  intros i [Hi _]%elem_of_seq. cbn. lia.
Qed.

Lemma ids_after_sorted c k : StronglySorted N.lt (ids_after c k).
Proof.
  revert c. induction k as [|k IH]; intros c; [constructor|].
  rewrite ids_after_S. constructor; [apply IH|apply ids_after_lower].
Qed.

Lemma ids_after_NoDup c k : NoDup (ids_after c k).
Proof.
  revert c. induction k as [|k IH]; intros c; [constructor|].
  rewrite ids_after_S. constructor; [|apply IH].
  intros Hin. pose proof (ids_after_lower (c + 1) k) as Hlow.
  rewrite Forall_forall in Hlow. apply Hlow in Hin. lia.
Qed.

(** One transaction either allocates nothing, or allocates exactly the id
    following the counter and moves the counter onto it. *)
Lemma transact_allocates st tx :
  let c := _requestCounter st in
  let '(st', r) := transact st tx in
  (successful_submit (tx, r) = false ∧
   _requestCounter st' = c ∧ omap requested_id (logs r) = []) ∨
  (successful_submit (tx, r) = true ∧
   _requestCounter st' = c + 1 ∧ omap requested_id (logs r) = [c + 1]).
Proof.
  unfold transact, successful_submit.
  destruct (dispatch st tx) as [[st' evs]|e] eqn:Hd; cbn;
    [|left; by destruct (tx_msg tx)].
  destruct (registry_msg (tx_msg tx)) eqn:Hm.
  - destruct (registry_msg_frame _ _ _ _ Hm Hd) as (-> & _ & Hevs).
    left. split; [by destruct (tx_msg tx)|]. split; [done|].
    by apply omap_requested_none.
  - destruct tx as [sender []]; try discriminate Hm; unfold dispatch in Hd; cbn in Hd.
    + apply requestCall_inv in Hd as (_ & _ & _ & -> & ->). by right.
    + apply submitResult_inv in Hd as (_ & _ & _ & _ & -> & ->). by left.
Qed.

Lemma run_length st txs : length (snd (run st txs)) = length txs.
Proof.
  revert st. induction txs as [|tx txs IH]; intros st; cbn; [done|].
  destruct (transact st tx) as [st1 r]. specialize (IH st1).
  destruct (run st1 txs). cbn in *. by rewrite IH.
Qed.

Lemma run_allocates st txs :
  let k := length (List.filter successful_submit (zip txs (snd (run st txs)))) in
  requested_ids (snd (run st txs)) = ids_after (_requestCounter st) k ∧
  _requestCounter (fst (run st txs)) = _requestCounter st + N.of_nat k.
Proof.
  revert st. induction txs as [|tx txs IH]; intros st; cbn.
  - split; [done|]. lia.
  - pose proof (transact_allocates st tx) as Hstep.
    destruct (transact st tx) as [st1 r]. specialize (IH st1).
    destruct (run st1 txs) as [st2 rs]. cbn [fst snd zip zip_with List.filter] in *.
    destruct IH as (Hids & Hc).
    rewrite requested_ids_cons, Hids, Hc.
    destruct Hstep as [(Hs & Hc1 & Hl)|(Hs & Hc1 & Hl)];
      rewrite Hs, Hl, Hc1; cbv iota; cbn [length].
    + done.
    + rewrite ids_after_S. split; [done|]. lia.
Qed.

Lemma ids_after_length c k : length (ids_after c k) = k.
Proof. unfold ids_after. by rewrite length_map, length_seq. Qed.

(** C2.  Whatever transactions are mined, from whatever senders and with
    whatever outcome, the request ids announced by [CallRequested] are
    exactly the ids following the counter, in order: [c+1, c+2, ..., c+k],
    one per successful [requestCall]; the counter ends on the last of them.
    Hence they are strictly increasing, without gap and without repeat. *)
Theorem allocated_ids_consecutive (st : State) (txs : list Tx) :
  let ids := requested_ids (snd (run st txs)) in
  length ids = length (List.filter successful_submit (zip txs (snd (run st txs)))) ∧
  ids = ids_after (_requestCounter st) (length ids) ∧
  _requestCounter (fst (run st txs)) = _requestCounter st + N.of_nat (length ids) ∧
  StronglySorted N.lt ids ∧
  NoDup ids.
Proof.
  destruct (run_allocates st txs) as [Hids Hc]. cbv zeta in *.
  set (k := length (List.filter successful_submit _)) in *.
  assert (length (requested_ids (snd (run st txs))) = k) as ->
    by (rewrite Hids; apply ids_after_length).
  rewrite Hids. split_and!; try done.
  - apply ids_after_sorted.
  - apply ids_after_NoDup.
Qed.

(** *** Fulfilment *)

(** A record whose [resultHash] is non-zero is frozen: no transaction
    changes it, and the id stays allocated. *)
Lemma transact_keeps_fulfilled st tx id :
  0 < id → id ≤ _requestCounter st → fulfilled (calls_at st id) = true →
  calls_at (fst (transact st tx)) id = calls_at st id ∧
  id ≤ _requestCounter (fst (transact st tx)).
Proof.
  intros Hpos Hle Hful. unfold transact.
  destruct (dispatch st tx) as [[st' evs]|e] eqn:Hd; cbn [fst]; [|done].
  destruct (registry_msg (tx_msg tx)) eqn:Hm.
  - destruct (registry_msg_frame _ _ _ _ Hm Hd) as (Hc & Hcalls & _).
    unfold calls_at. by rewrite Hcalls, Hc.
  - destruct tx as [sender []]; try discriminate Hm; unfold dispatch in Hd; cbn in Hd.
    + apply requestCall_inv in Hd as (_ & _ & _ & -> & _). cbn. split; [|lia].
      unfold calls_at; cbn. rewrite lookup_insert_ne; [done|lia].
    + apply submitResult_inv in Hd as (_ & _ & _ & Hzero & -> & _). cbn.
      split; [|done]. destruct (decide (requestId = id)) as [->|Hne].
      * unfold fulfilled, pending in Hful. rewrite Hzero in Hful. done.
      * unfold calls_at; cbn. by rewrite lookup_insert_ne.
Qed.

Lemma run_keeps_fulfilled st txs id :
  0 < id → id ≤ _requestCounter st → fulfilled (calls_at st id) = true →
  calls_at (fst (run st txs)) id = calls_at st id.
Proof.
  revert st. induction txs as [|tx txs IH]; intros st Hpos Hle Hful; cbn; [done|].
  destruct (transact_keeps_fulfilled st tx id Hpos Hle Hful) as [Heq Hle'].
  destruct (transact st tx) as [st1 r]. cbn [fst] in *.
  specialize (IH st1 Hpos Hle'). rewrite Heq in IH. specialize (IH Hful).
  destruct (run st1 txs). done.
Qed.

(** Once a record carries a non-zero [resultHash], every further
    [submitResult] on its id is refused and leaves the storage as it is. *)
Lemma submitResult_fulfilled st sender id r p :
  fulfilled (calls_at st id) = true → 0 < id → id ≤ _requestCounter st →
  transact st (mkTx sender (MsgSubmitResult id r p)) =
    (st, mkReceipt (Some (if sender =? _inferenceNode st
                          then AlreadyFulfilled else NotInferenceNode)) []).
Proof.
  intros Hful Hpos Hle. unfold transact, dispatch; cbn.
  unfold submitResult, onlyInferenceNode.
  destruct (sender =? _inferenceNode st); cbn; [|done].
  apply N.ltb_lt in Hpos. apply N.leb_le in Hle. rewrite Hpos, Hle. cbn.
  unfold fulfilled, pending in Hful. apply negb_true_iff in Hful. by rewrite Hful.
Qed.

(** C1.  The contract run on [double_fulfil]: all three transactions
    succeed.  The first report, with [resultHash = 0], is accepted and
    stores [reportHash = 5] while the record stays pending; the second
    report on the same id is accepted as well, not refused with
    [AlreadyFulfilled], and replaces the stored [reportHash] by [9]. *)
Theorem fulfill_twice_after_zero_result :
  ∃ st0 evs,
    deployed_COA = Ok (st0, evs) ∧
    map failure (snd (run st0 double_fulfil)) = [None; None; None] ∧
    map logs (snd (run st0 (take 2 double_fulfil))) =
      [[CallRequested 1 3 "COA" 2748]; [CallFinished 1 0 5]] ∧
    calls_at (fst (run st0 (take 2 double_fulfil))) 1 = mkCall 3 "COA" 2748 0 5 ∧
    calls_at (fst (run st0 double_fulfil)) 1 = mkCall 3 "COA" 2748 7 9.
Proof.
  eexists _, _. split; [reflexivity|]. vm_compute. done.
Qed.

(** *** Submission *)

Lemma requestCall_unsupported st sender m d :
  requestCall st sender m d = Err UnsupportedModel ↔ models_at st m = false.
Proof.
  unfold requestCall, require. destruct (models_at st m); cbn; [|done].
  split; [|done]. destruct (d =? 0); cbn; [done|].
  unfold checked_incr. by destruct (_ <? _).
Qed.

Lemma requestCall_empty st sender m d :
  requestCall st sender m d = Err EmptyDigest ↔ models_at st m = true ∧ d = 0.
Proof.
  unfold requestCall, require. destruct (models_at st m); cbn.
  - destruct (N.eqb_spec d 0); cbn; [done|].
    split; [|by intros []]. unfold checked_incr. by destruct (_ <? _).
  - split; [done|by intros []].
Qed.

Lemma requestCall_ok st sender m d :
  models_at st m = true → d ≠ 0 → _requestCounter st < max_uint256 →
  let requestId := _requestCounter st + 1 in
  requestCall st sender m d =
    Ok (set_calls (set_requestCounter st requestId)
          (<[requestId := mkCall sender m d 0 0]> (calls st)),
        [CallRequested requestId sender m d]).
Proof.
  intros Hm Hd Hc. unfold requestCall, require, checked_incr.
  rewrite Hm. apply N.eqb_neq in Hd. rewrite Hd. apply N.ltb_lt in Hc. by rewrite Hc.
Qed.

(** C3, as amended.  [requestCall] fails with [UnsupportedModel] exactly
    when the model is not whitelisted; it fails with [EmptyDigest] exactly
    when the model is whitelisted and the prompt digest is zero; otherwise,
    as long as the counter has not reached its maximum, it allocates the
    next id, stores under it a pending record (requester = caller, the
    given model and digest, both result digests zero), emits
    [CallRequested(id, caller, model, promptHash)] and nothing else, and
    changes nothing else in the storage. *)
Theorem requestCall_outcome (st : State) (sender : address) (m : string) (d : bytes32) :
  (requestCall st sender m d = Err UnsupportedModel ↔ models_at st m = false) ∧
  (requestCall st sender m d = Err EmptyDigest ↔ models_at st m = true ∧ d = 0) ∧
  (models_at st m = true → d ≠ 0 → _requestCounter st < max_uint256 →
   ∃ st', let requestId := _requestCounter st + 1 in
     requestCall st sender m d = Ok (st', [CallRequested requestId sender m d]) ∧
     _requestCounter st' = requestId ∧
     calls_at st' requestId = mkCall sender m d 0 0 ∧
     pending (calls_at st' requestId) = true ∧
     (∀ id, id ≠ requestId → calls_at st' id = calls_at st id) ∧
     models st' = models st ∧ modelList st' = modelList st ∧
     _owner st' = _owner st ∧ _inferenceNode st' = _inferenceNode st).
Proof.
  split; [apply requestCall_unsupported|]. split; [apply requestCall_empty|].
  intros Hm Hd Hc. eexists. cbv zeta. rewrite requestCall_ok by done. cbv zeta.
  split; [reflexivity|]. cbn. split_and!; try done.
  - apply calls_at_insert.
  - by rewrite calls_at_insert.
  - intros id Hne. unfold calls_at; cbn. by rewrite lookup_insert_ne.
Qed.

Lemma deployed_COA_eq : deployed_COA = Ok (ledger_COA, [OwnershipTransferred 0 1; ModelAdded "COA"]).
Proof. reflexivity. Qed.

Lemma ledger_pending_eq :
  run ledger_COA [mkTx 3 (MsgRequestCall "COA" 2748)] =
    (ledger_pending, [mkReceipt None [CallRequested 1 3 "COA" 2748]]).
Proof. reflexivity. Qed.

Lemma requestCall_outcome_witness :
  ∃ st', requestCall ledger_COA 3 "COA" 2748 = Ok (st', [CallRequested 1 3 "COA" 2748]) ∧
         calls_at st' 1 = mkCall 3 "COA" 2748 0 0.
Proof.
  destruct (requestCall_outcome ledger_COA 3 "COA" 2748) as (_ & _ & H).
  destruct H as (st' & H1 & _ & H2 & _); [reflexivity|discriminate|reflexivity|].
  exists st'. split; [exact H1|exact H2].
Defined.

(** C3, as stated, fails on a zero digest sent with a model that is not
    whitelisted: the whitelist guard comes first, so the call fails with
    [UnsupportedModel], not with [EmptyDigest].  It also fails, for a
    whitelisted model and a non-zero digest, on a ledger whose counter has
    reached [2^256 - 1]: the checked increment aborts and no id is
    allocated. *)
Lemma requestCall_zero_digest_unsupported_model :
  models_at ledger_COA "GPT" = false ∧
  requestCall ledger_COA 3 "GPT" 0 = Err UnsupportedModel ∧
  ¬ (∀ st sender m d, requestCall st sender m d = Err EmptyDigest ↔ d = 0) ∧
  requestCall (set_requestCounter ledger_COA max_uint256) 3 "COA" 2748 = Err (Panic 17).
Proof.
  split; [reflexivity|]. split; [reflexivity|]. split; [|reflexivity].
  intros H. specialize (H ledger_COA 3 "GPT" 0). destruct H as [_ H].
  specialize (H eq_refl). discriminate H.
Qed.

(** *** Reports with a zero digest *)

Lemma submitResult_ok st sender id r p :
  sender = _inferenceNode st → 0 < id → id ≤ _requestCounter st →
  pending (calls_at st id) = true →
  submitResult st sender id r p =
    Ok (set_calls st
          (<[id := mkCall (caller (calls_at st id)) (model (calls_at st id))
                          (promptHash (calls_at st id)) r p]> (calls st)),
        [CallFinished id r p]).
Proof.
  intros -> Hpos Hle Hpend. unfold submitResult, onlyInferenceNode, require.
  rewrite N.eqb_refl. cbn. apply N.ltb_lt in Hpos. apply N.leb_le in Hle.
  rewrite Hpos, Hle. cbn. unfold pending in Hpend. by rewrite Hpend.
Qed.

(** C4.  [submitResult] checks the caller, the id range and that the
    stored [resultHash] is zero, and nothing about the digests it is
    given.  On an allocated pending id, a report by the inference node with
    [resultHash = 0] succeeds, emits [CallFinished], stores the
    [reportHash] and leaves the record pending; a later report on the same
    id then succeeds too and overwrites the stored digests. *)
Theorem submitResult_zero_result_keeps_pending
    (st : State) (sender : address) (id : uint256) (rep : bytes32) :
  sender = _inferenceNode st → 0 < id → id ≤ _requestCounter st →
  pending (calls_at st id) = true →
  ∃ st1,
    submitResult st sender id 0 rep = Ok (st1, [CallFinished id 0 rep]) ∧
    pending (calls_at st1 id) = true ∧
    reportHash (calls_at st1 id) = rep ∧
    ∀ res2 rep2, ∃ st2,
      submitResult st1 sender id res2 rep2 = Ok (st2, [CallFinished id res2 rep2]) ∧
      resultHash (calls_at st2 id) = res2 ∧
      reportHash (calls_at st2 id) = rep2.
Proof.
  intros Hs Hpos Hle Hpend. eexists. split; [by apply submitResult_ok|].
  rewrite calls_at_insert. split; [done|]. split; [done|].
  intros res2 rep2. eexists. split.
  - apply submitResult_ok; try done. by rewrite calls_at_insert.
  - by rewrite calls_at_insert.
Qed.

Lemma submitResult_zero_result_keeps_pending_witness :
  ∃ st1,
    submitResult ledger_pending 2 1 0 5 = Ok (st1, [CallFinished 1 0 5]) ∧
    pending (calls_at st1 1) = true ∧
    reportHash (calls_at st1 1) = 5 ∧
    ∀ res2 rep2, ∃ st2,
      submitResult st1 2 1 res2 rep2 = Ok (st2, [CallFinished 1 res2 rep2]) ∧
      resultHash (calls_at st2 1) = res2 ∧
      reportHash (calls_at st2 1) = rep2.
Proof.
  apply (submitResult_zero_result_keeps_pending ledger_pending 2 1 5);
    [reflexivity | reflexivity | discriminate | reflexivity].
Defined.

(** *** The model registry *)

Example remove_first_of_three :
  remove_from_modelList "a" ["a"; "b"; "c"] = ["c"; "b"].
Proof. reflexivity. Qed.

Example remove_last_of_three :
  remove_from_modelList "c" ["a"; "b"; "c"] = ["a"; "b"].
Proof. reflexivity. Qed.

Example remove_absent :
  remove_from_modelList "d" ["a"; "b"; "c"] = ["a"; "b"; "c"].
Proof. reflexivity. Qed.

Lemma keccak256_eq_spec a b : keccak256_eq a b = true ↔ a = b.
Proof. unfold keccak256_eq. apply String.eqb_eq. Qed.

Lemma find_model_Some m l i0 i :
  find_model m l i0 = Some i →
  ∃ l1 l2, l = (l1 ++ m :: l2)%list ∧ i = (i0 + length l1)%nat ∧ m ∉ l1.
Proof.
  revert i0. induction l as [|x l IH]; intros i0; cbn; [done|].
  destruct (keccak256_eq x m) eqn:Hx.
  - intros [= <-]. apply keccak256_eq_spec in Hx as ->.
    exists [], l. cbn. split; [done|]. split; [lia|apply not_elem_of_nil].
  - intros (l1 & l2 & -> & -> & Hnot)%IH.
    exists (x :: l1), l2. cbn. split; [done|]. split; [lia|].
    rewrite elem_of_cons. intros [->|?]; [|done].
    assert (keccak256_eq x x = true) by by apply keccak256_eq_spec. congruence.
Qed.

Lemma find_model_None m l i0 : find_model m l i0 = None → m ∉ l.
Proof.
  revert i0. induction l as [|x l IH]; intros i0; cbn; [intros; apply not_elem_of_nil|].
  destruct (keccak256_eq x m) eqn:Hx; [done|]. intros H%IH.
  rewrite elem_of_cons. intros [->|?]; [|done].
  assert (keccak256_eq x x = true) by by apply keccak256_eq_spec. congruence.
Qed.

(** Overwriting slot [i] with the last entry and popping removes exactly
    the entry of slot [i], up to the order of the survivors. *)
Lemma swap_pop_middle l1 x l2 :
  swap_pop (l1 ++ x :: l2) (length l1) ≡ₚ (l1 ++ l2)%list.
Proof.
  unfold swap_pop. destruct l2 as [|y l2 _] using rev_ind.
  - replace (length (l1 ++ [x]) - 1)%nat with (length l1)
      by (rewrite length_app; cbn; lia).
    rewrite list_lookup_middle by done. cbn [default].
    rewrite list_insert_id by by apply list_lookup_middle.
    by rewrite removelast_last, app_nil_r.
  - replace (l1 ++ x :: l2 ++ [y])%list with ((l1 ++ x :: l2) ++ [y])%list
      by by rewrite <- app_assoc.
    replace (length ((l1 ++ x :: l2) ++ [y]) - 1)%nat with (length (l1 ++ x :: l2))
      by (rewrite (length_app _ [y]); cbn; lia).
    rewrite list_lookup_middle by done. cbn [default].
    rewrite insert_app_l by (rewrite length_app; cbn; lia).
    rewrite removelast_last.
    replace (length l1) with (length l1 + 0)%nat by lia.
    rewrite insert_app_r. cbn.
    rewrite <- Permutation_middle, app_assoc, <- Permutation_cons_append.
    done.
Qed.

Lemma remove_from_modelList_spec m l :
  NoDup l →
  NoDup (remove_from_modelList m l) ∧
  ∀ x, x ∈ remove_from_modelList m l ↔ x ∈ l ∧ x ≠ m.
Proof.
  intros Hnd. unfold remove_from_modelList.
  destruct (find_model m l 0) as [i|] eqn:Hf.
  - apply find_model_Some in Hf as (l1 & l2 & -> & -> & Hnot). cbn [Nat.add].
    pose proof (swap_pop_middle l1 m l2) as Hperm.
    apply NoDup_app in Hnd as (Hnd1 & Hdisj & [Hm Hnd2]%NoDup_cons).
    split.
    + rewrite Hperm. apply NoDup_app. split; [done|]. split; [|done].
      intros x Hx Hx2. apply (Hdisj x Hx). by right.
    + intros x. rewrite Hperm, !elem_of_app, elem_of_cons. split.
      * intros [Hx|Hx]; (split; [tauto|]); intros ->; done.
      * intros [[Hx|[->|Hx]] Hne]; tauto.
  - apply find_model_None in Hf. split; [done|]. intros x. split; [|tauto].
    intros Hx. split; [done|]. by intros ->.
Qed.

Lemma models_at_insert st ms m b x :
  models_at (set_models st (<[m := b]> ms)) x =
    if decide (m = x) then b else default false (ms !! x).
Proof. unfold models_at; cbn. rewrite lookup_insert. by case_decide. Qed.

Lemma models_at_set_modelList st l x : models_at (set_modelList st l) x = models_at st x.
Proof. reflexivity. Qed.

Lemma register_consistent st m :
  registry_consistent st → models_at st m = false →
  registry_consistent
    (set_modelList (set_models st (<[m := true]> (models st))) (modelList st ++ [m])).
Proof.
  intros [Hiff Hnd] Hm. split; cbn.
  - intros x. rewrite models_at_set_modelList, models_at_insert, elem_of_app,
      list_elem_of_singleton.
    case_decide as Hx; [subst; tauto|]. fold (models_at st x). rewrite (Hiff x).
    split; [tauto|]. intros [?|?]; [done|congruence].
  - apply NoDup_app. split; [done|]. split; [|apply NoDup_singleton].
    intros x Hx ->%list_elem_of_singleton. apply Hiff in Hx. congruence.
Qed.

Lemma unregister_consistent st m :
  registry_consistent st →
  registry_consistent
    (set_modelList (set_models st (<[m := false]> (models st)))
       (remove_from_modelList m (modelList st))).
Proof.
  intros [Hiff Hnd]. destruct (remove_from_modelList_spec m _ Hnd) as [Hnd' Hin].
  split; cbn; [|done].
  intros x. rewrite models_at_set_modelList, models_at_insert, Hin.
  case_decide as Hx; [subst; split; [done|tauto]|].
  fold (models_at st x). rewrite (Hiff x). split; [|tauto]. intros ?; split; [done|congruence].
Qed.

Lemma addModels_loop_consistent st ms :
  registry_consistent st → registry_consistent (fst (addModels_loop st ms)).
Proof.
  revert st. induction ms as [|m ms IH]; intros st Hst; cbn; [done|].
  destruct (models_at st m) eqn:Hm; cbn; [by apply IH|].
  specialize (IH _ (register_consistent st m Hst Hm)).
  by destruct (addModels_loop _ ms).
Qed.

Lemma delModels_loop_consistent st ms :
  registry_consistent st → registry_consistent (fst (delModels_loop st ms)).
Proof.
  revert st. induction ms as [|m ms IH]; intros st Hst; cbn; [done|].
  destruct (models_at st m) eqn:Hm; cbn; [|by apply IH].
  specialize (IH _ (unregister_consistent st m Hst)).
  by destruct (delModels_loop _ ms).
Qed.

Lemma dispatch_consistent st tx st' evs :
  registry_consistent st → dispatch st tx = Ok (st', evs) → registry_consistent st'.
Proof.
  intros Hst. destruct tx as [sender msg]; unfold dispatch; cbn [tx_sender tx_msg].
  destruct msg; intros H.
  - unfold setInferenceNode in H. exec_inv H. by injection H as <- <-.
  - unfold addModel in H. exec_inv H. injection H as <- <-.
    apply require_ok, negb_true_iff in Hguard0. by apply register_consistent.
  - unfold addModels in H. exec_inv H.
    pose proof (addModels_loop_consistent st models_ Hst).
    destruct (addModels_loop st models_). by injection H as <- <-.
  - unfold delModel in H. exec_inv H. injection H as <- <-.
    by apply unregister_consistent.
  - unfold delModels in H. exec_inv H.
    pose proof (delModels_loop_consistent st models_ Hst).
    destruct (delModels_loop st models_). by injection H as <- <-.
  - apply requestCall_inv in H as (_ & _ & _ & -> & _). done.
  - apply submitResult_inv in H as (_ & _ & _ & _ & -> & _). done.
  - unfold transferOwnership in H. exec_inv H.
    destruct (newOwner =? 0); [done|]. by injection H as <- <-.
  - unfold renounceOwnership in H. exec_inv H. by injection H as <- <-.
Qed.

Lemma run_consistent st txs :
  registry_consistent st → registry_consistent (fst (run st txs)).
Proof.
  revert st. induction txs as [|tx txs IH]; intros st Hst; cbn; [done|].
  unfold transact. destruct (dispatch st tx) as [[st1 evs]|e] eqn:Hd.
  - specialize (IH st1 (dispatch_consistent _ _ _ _ Hst Hd)). by destruct (run st1 txs).
  - specialize (IH st Hst). by destruct (run st txs).
Qed.

(** The whitelist and its listing agree, without duplicates, in every
    state the contract can reach. *)
Lemma reachable_consistent st : reachable st → registry_consistent st.
Proof.
  intros (deployer & node & ms & st0 & evs & txs & Hc & <-).
  apply run_consistent. unfold constructor in Hc. exec_inv Hc.
  unfold addModels in Hguard1. exec_inv Hguard1. injection Hc as <- _.
  injection Hguard1 as <-. apply addModels_loop_consistent.
  split; cbn; [|constructor]. intros m. unfold models_at; cbn.
  rewrite lookup_empty. cbn. split; [done|]. by intros ?%elem_of_nil.
Qed.

Lemma count_occ_fresh (l : list string) m :
  m ∉ l → count_occ string_dec (l ++ [m]) m = 1%nat.
Proof.
  intros Hm. rewrite count_occ_app. cbn. destruct (string_dec m m); [|done].
  assert (count_occ string_dec l m = 0%nat) as ->; [|done].
  apply count_occ_not_In. by rewrite <- list_elem_of_In.
Qed.

(** C5, as amended.  [addModel] on a model already registered is refused
    with "model already exists"; as every refused call, it changes nothing
    and emits nothing (the batch entry point [addModels] is the one that
    skips such a model silently).  Called twice by the owner on a model
    that is not registered, [addModel] succeeds once, emitting one
    [ModelAdded], and is refused the second time; the model then occurs
    exactly once in the listing.  [delModel] on a model that is not
    registered is refused, for the owner with "model no exists", and
    changes nothing. *)
Theorem addModel_delModel_repeated (st : State) (m : string) :
  (models_at st m = true →
     transact st (mkTx (_owner st) (MsgAddModel m)) =
       (st, mkReceipt (Some ModelAlreadyExists) []) ∧
     transact st (mkTx (_owner st) (MsgAddModels [m])) = (st, mkReceipt None [])) ∧
  (registry_consistent st → models_at st m = false →
     ∃ st',
       run st [mkTx (_owner st) (MsgAddModel m); mkTx (_owner st) (MsgAddModel m)] =
         (st', [mkReceipt None [ModelAdded m]; mkReceipt (Some ModelAlreadyExists) []]) ∧
       models_at st' m = true ∧
       getAllModels st' = (getAllModels st ++ [m])%list ∧
       count_occ string_dec (getAllModels st') m = 1%nat) ∧
  (models_at st m = false →
     transact st (mkTx (_owner st) (MsgDelModel m)) =
       (st, mkReceipt (Some UnknownModel) []) ∧
     ∀ sender, fst (transact st (mkTx sender (MsgDelModel m))) = st ∧
               logs (snd (transact st (mkTx sender (MsgDelModel m)))) = []).
Proof.
  split_and!.
  - intros Hm. unfold transact, dispatch; cbn. unfold addModel, addModels.
    rewrite onlyOwner_owner; cbn. rewrite Hm; cbn. by destruct st.
  - intros [Hiff Hnd] Hm. eexists. cbn. unfold transact, dispatch; cbn.
    unfold addModel at 1. rewrite onlyOwner_owner; cbn. rewrite Hm; cbn.
    unfold addModel, onlyOwner; cbn. rewrite N.eqb_refl; cbn.
    rewrite models_at_set_modelList, models_at_insert. rewrite decide_True by done. cbn.
    split; [reflexivity|]. rewrite models_at_set_modelList, models_at_insert.
    rewrite decide_True by done. split; [done|]. split; [done|].
    unfold getAllModels; cbn. apply count_occ_fresh. rewrite <- Hiff. congruence.
  - intros Hm. split.
    + unfold transact, dispatch; cbn. unfold delModel.
      rewrite onlyOwner_owner; cbn. by rewrite Hm.
    + intros sender. unfold transact, dispatch; cbn. unfold delModel, onlyOwner.
      destruct (sender =? _owner st); cbn; [|done]. by rewrite Hm.
Qed.

Lemma addModel_delModel_repeated_witness :
  (transact ledger_COA (mkTx 1 (MsgAddModel "COA")) =
     (ledger_COA, mkReceipt (Some ModelAlreadyExists) [])) ∧
  (∃ st', run ledger_COA [mkTx 1 (MsgAddModel "GPT"); mkTx 1 (MsgAddModel "GPT")] =
            (st', [mkReceipt None [ModelAdded "GPT"];
                   mkReceipt (Some ModelAlreadyExists) []]) ∧
          getAllModels st' = ["COA"; "GPT"]) ∧
  transact ledger_COA (mkTx 1 (MsgDelModel "GPT")) =
    (ledger_COA, mkReceipt (Some UnknownModel) []).
Proof.
  destruct (addModel_delModel_repeated ledger_COA "COA") as (H1 & _ & _).
  destruct (addModel_delModel_repeated ledger_COA "GPT") as (_ & H2 & H3).
  destruct (H1 eq_refl) as [H1' _]. destruct (H3 eq_refl) as [H3' _].
  destruct H2 as (st' & Hrun & _ & Hall & _).
  - apply reachable_consistent.
    exists 1, 2, ["COA"], ledger_COA, [OwnershipTransferred 0 1; ModelAdded "COA"], [].
    split; reflexivity.
  - reflexivity.
  - split; [exact H1'|]. split; [|exact H3']. exists st'. split; [exact Hrun|exact Hall].
Defined.

(** C5, as stated, fails where it says that adding a model already
    present raises no error: the owner's [addModel "COA"] on a ledger
    where "COA" is registered is refused with "model already exists". *)
Lemma addModel_present_is_refused :
  models_at ledger_COA "COA" = true ∧
  _owner ledger_COA = 1 ∧
  addModel ledger_COA 1 "COA" = Err (Revert "Inference: model already exists") ∧
  failure (snd (transact ledger_COA (mkTx 1 (MsgAddModel "COA")))) ≠ None.
Proof. split_and!; try reflexivity. discriminate. Qed.

End LedgerFacts.

(** ** Part VI-b.  Further properties of the Request Ledger *)

Module LedgerMore.
Import Ledger LedgerFacts.
Local Open Scope sol_scope.

(** *** Frames *)

Lemma registry_msg_owner st tx st' evs :
  registry_msg (tx_msg tx) = true → dispatch st tx = Ok (st', evs) →
  tx_sender tx = _owner st.
Proof.
  destruct tx as [sender msg]; unfold dispatch; cbn [tx_sender tx_msg].
  destruct msg; cbn [registry_msg]; try discriminate; intros _ H.
  - unfold setInferenceNode in H. exec_inv H. by apply onlyOwner_ok in Hguard.
  - unfold addModel in H. exec_inv H. by apply onlyOwner_ok in Hguard.
  - unfold addModels in H. exec_inv H. by apply onlyOwner_ok in Hguard.
  - unfold delModel in H. exec_inv H. by apply onlyOwner_ok in Hguard.
  - unfold delModels in H. exec_inv H. by apply onlyOwner_ok in Hguard.
  - unfold transferOwnership in H. exec_inv H. by apply onlyOwner_ok in Hguard.
  - unfold renounceOwnership in H. exec_inv H. by apply onlyOwner_ok in Hguard.
Qed.

Lemma onlyOwner_other st sender :
  sender ≠ _owner st → onlyOwner st sender = Err (OwnableUnauthorizedAccount sender).
Proof. intros Hne. unfold onlyOwner. by destruct (N.eqb_spec sender (_owner st)). Qed.

Lemma registry_msg_unauthorized st sender msg :
  registry_msg msg = true → sender ≠ _owner st →
  dispatch st (mkTx sender msg) = Err (OwnableUnauthorizedAccount sender).
Proof.
  intros Hm Hne. unfold dispatch; cbn [tx_sender tx_msg].
  destruct msg; try discriminate Hm;
    [unfold setInferenceNode|unfold addModel|unfold addModels|unfold delModel
    |unfold delModels|unfold transferOwnership|unfold renounceOwnership];
    by rewrite onlyOwner_other.
Qed.

Lemma submitResult_not_node st sender id r p :
  sender ≠ _inferenceNode st → submitResult st sender id r p = Err NotInferenceNode.
Proof.
  intros Hne. unfold submitResult, onlyInferenceNode, require.
  by destruct (N.eqb_spec sender (_inferenceNode st)).
Qed.

(** X6.  An account that is neither the owner nor the inference node can
    only submit requests: whatever it sends, the owner, the inference node,
    the whitelist, its listing and every existing record stay as they are;
    and anything but [requestCall] is refused, with
    [OwnableUnauthorizedAccount] for the owner's functions and with "not
    inference node" for [submitResult]. *)
Theorem unprivileged_sender_only_submits (st : State) (sender : address) (msg : Msg) :
  sender ≠ _owner st → sender ≠ _inferenceNode st →
  let st' := fst (transact st (mkTx sender msg)) in
  let r := snd (transact st (mkTx sender msg)) in
  _owner st' = _owner st ∧ _inferenceNode st' = _inferenceNode st ∧
  models st' = models st ∧ modelList st' = modelList st ∧
  (∀ id, id ≤ _requestCounter st → calls_at st' id = calls_at st id) ∧
  match msg with
  | MsgRequestCall _ _ => True
  | MsgSubmitResult _ _ _ => st' = st ∧ r = mkReceipt (Some NotInferenceNode) []
  | _ => st' = st ∧ r = mkReceipt (Some (OwnableUnauthorizedAccount sender)) []
  end.
Proof.
  intros Howner Hnode. cbv zeta. unfold transact.
  destruct (registry_msg msg) eqn:Hm.
  - rewrite registry_msg_unauthorized by done. cbn. by destruct msg.
  - destruct msg; try discriminate Hm; unfold dispatch; cbn [tx_sender tx_msg].
    + destruct (requestCall st sender model0 promptHash0) as [[st' evs]|e] eqn:Hr; [|done].
      apply requestCall_inv in Hr as (_ & _ & _ & -> & _). cbn. split_and!; try done.
      intros id Hid. unfold calls_at; cbn. rewrite lookup_insert_ne; [done|lia].
    + by rewrite submitResult_not_node.
Qed.

Lemma unprivileged_sender_only_submits_witness :
  fst (transact ledger_pending (mkTx 9 (MsgSubmitResult 1 7 9))) = ledger_pending ∧
  snd (transact ledger_pending (mkTx 9 (MsgSubmitResult 1 7 9))) =
    mkReceipt (Some NotInferenceNode) [].
Proof.
  pose proof (unprivileged_sender_only_submits ledger_pending 9 (MsgSubmitResult 1 7 9))
    as H.
  cbv zeta in H. apply H; discriminate.
Defined.

(** *** Invariants of the reachable states *)

Lemma addModels_loop_node st ms :
  _inferenceNode (fst (addModels_loop st ms)) = _inferenceNode st.
Proof. apply addModels_loop_counter. Qed.

Lemma dispatch_node_nonzero st tx st' evs :
  _inferenceNode st ≠ 0 → dispatch st tx = Ok (st', evs) → _inferenceNode st' ≠ 0.
Proof.
  intros Hnz. destruct tx as [sender msg]; unfold dispatch; cbn [tx_sender tx_msg].
  destruct msg; intros H.
  - unfold setInferenceNode in H. exec_inv H. injection H as <- _. cbn.
    apply require_ok, negb_true_iff in Hguard0. by apply N.eqb_neq.
  - unfold addModel in H. exec_inv H. by injection H as <- _.
  - unfold addModels in H. exec_inv H. injection H as H.
    pose proof (addModels_loop_node st models_) as Hn. rewrite H in Hn. cbn in Hn. congruence.
  - unfold delModel in H. exec_inv H. by injection H as <- _.
  - unfold delModels in H. exec_inv H. injection H as H.
    pose proof (delModels_loop_counter st models_) as (_ & _ & Hn & _).
    rewrite H in Hn. cbn in Hn. congruence.
  - apply requestCall_inv in H as (_ & _ & _ & -> & _). done.
  - apply submitResult_inv in H as (_ & _ & _ & _ & -> & _). done.
  - unfold transferOwnership in H. exec_inv H.
    destruct (newOwner =? 0); [done|]. by injection H as <- _.
  - unfold renounceOwnership in H. exec_inv H. by injection H as <- _.
Qed.

Lemma run_node_nonzero st txs :
  _inferenceNode st ≠ 0 → _inferenceNode (fst (run st txs)) ≠ 0.
Proof.
  revert st. induction txs as [|tx txs IH]; intros st Hst; cbn; [done|].
  unfold transact. destruct (dispatch st tx) as [[st1 evs]|e] eqn:Hd.
  - specialize (IH st1 (dispatch_node_nonzero _ _ _ _ Hst Hd)). by destruct (run st1 txs).
  - specialize (IH st Hst). by destruct (run st txs).
Qed.

Lemma constructor_inv deployer node ms st0 evs :
  constructor deployer node ms = Ok (st0, evs) →
  deployer ≠ 0 ∧ node ≠ 0 ∧
  st0 = fst (addModels_loop (mkState deployer 0 node ∅ ∅ []) ms).
Proof.
  unfold constructor. intros H. exec_inv H.
  unfold addModels in Hguard1. exec_inv Hguard1. injection Hguard1 as <-.
  injection H as <- _. apply require_ok, negb_true_iff, N.eqb_neq in Hguard0.
  split; [|done]. destruct (N.eqb_spec deployer 0); [discriminate Hguard|done].
Qed.

(** X1.  In every state the contract can reach, [getAllModels] lists
    exactly the whitelisted models, each of them once, and the inference
    node is not the zero address. *)
Theorem reachable_registry_is_exact (st : State) :
  reachable st →
  (∀ m, m ∈ getAllModels st ↔ models_at st m = true) ∧
  NoDup (getAllModels st) ∧
  inferenceNode st ≠ 0.
Proof.
  intros Hreach. destruct (reachable_consistent st Hreach) as [Hiff Hnd].
  split; [intros m; symmetry; apply Hiff|]. split; [done|].
  destruct Hreach as (deployer & node & ms & st0 & evs & txs & Hc & <-).
  apply run_node_nonzero. apply constructor_inv in Hc as (_ & Hnode & ->).
  by rewrite addModels_loop_node.
Qed.

Lemma ledger_pending_reachable : reachable ledger_pending.
Proof.
  exists 1, 2, ["COA"], ledger_COA, [OwnershipTransferred 0 1; ModelAdded "COA"],
    [mkTx 3 (MsgRequestCall "COA" 2748)].
  split; reflexivity.
Qed.

Lemma reachable_registry_is_exact_witness :
  ("COA" ∈ getAllModels ledger_pending ↔ models_at ledger_pending "COA" = true) ∧
  inferenceNode ledger_pending ≠ 0.
Proof.
  destruct (reachable_registry_is_exact ledger_pending ledger_pending_reachable)
    as (Hiff & _ & Hnode).
  split; [apply Hiff|exact Hnode].
Defined.

Lemma dispatch_well_formed st tx st' evs :
  requests_well_formed st → dispatch st tx = Ok (st', evs) → requests_well_formed st'.
Proof.
  intros (Hmax & Hprompt & Hnone) Hd.
  destruct (registry_msg (tx_msg tx)) eqn:Hm.
  - destruct (registry_msg_frame _ _ _ _ Hm Hd) as (Hc & Hcalls & _).
    unfold requests_well_formed, calls_at. rewrite Hc, Hcalls. done.
  - destruct tx as [sender []]; try discriminate Hm; unfold dispatch in Hd; cbn in Hd.
    + apply requestCall_inv in Hd as (_ & Hd0 & Hlt & -> & _).
      unfold requests_well_formed; cbn. split_and!.
      * lia.
      * intros id Hpos Hle. destruct (decide (id = _requestCounter st + 1)) as [->|Hne].
        -- unfold calls_at; cbn. by rewrite lookup_insert_eq.
        -- unfold calls_at; cbn. rewrite lookup_insert_ne by done.
           apply Hprompt; [done|lia].
      * intros id Hid. rewrite lookup_insert_ne by lia. apply Hnone. lia.
    + apply submitResult_inv in Hd as (_ & Hpos & Hle & _ & -> & _).
      unfold requests_well_formed; cbn. split_and!; [done| |].
      * intros id Hpos' Hle'. destruct (decide (id = requestId)) as [->|Hne].
        -- unfold calls_at at 1; cbn. rewrite lookup_insert_eq. cbn. by apply Hprompt.
        -- unfold calls_at; cbn. rewrite lookup_insert_ne by done. by apply Hprompt.
      * intros id Hid. rewrite lookup_insert_ne by lia. by apply Hnone.
Qed.

Lemma run_well_formed st txs :
  requests_well_formed st → requests_well_formed (fst (run st txs)).
Proof.
  revert st. induction txs as [|tx txs IH]; intros st Hst; cbn; [done|].
  unfold transact. destruct (dispatch st tx) as [[st1 evs]|e] eqn:Hd.
  - specialize (IH st1 (dispatch_well_formed _ _ _ _ Hst Hd)). by destruct (run st1 txs).
  - specialize (IH st Hst). by destruct (run st txs).
Qed.

(** X2.  In every state the contract can reach, the counter fits in 256
    bits, every allocated id (1 to the counter) carries a record whose
    prompt hash is non-zero, and reading any other id gives the all-zero
    record. *)
Theorem reachable_requests_well_formed (st : State) :
  reachable st →
  _requestCounter st ≤ max_uint256 ∧
  (∀ id, 0 < id → id ≤ _requestCounter st → promptHash (calls_at st id) ≠ 0) ∧
  (∀ id, id = 0 ∨ _requestCounter st < id → calls_at st id = zero_Call).
Proof.
  intros (deployer & node & ms & st0 & evs & txs & Hc & <-).
  assert (requests_well_formed (fst (run st0 txs))) as (Hmax & Hprompt & Hnone).
  { apply run_well_formed. apply constructor_inv in Hc as (_ & _ & ->).
    pose proof (addModels_loop_counter (mkState deployer 0 node ∅ ∅ []) ms)
      as (Hcnt & Hcalls & _).
    unfold requests_well_formed, calls_at. rewrite Hcnt, Hcalls. cbn.
    split_and!; [done|lia|done]. }
  split_and!; try done. intros id Hid. unfold calls_at. by rewrite Hnone.
Qed.

Lemma reachable_requests_well_formed_witness :
  promptHash (calls_at ledger_pending 1) ≠ 0 ∧ calls_at ledger_pending 2 = zero_Call.
Proof.
  destruct (reachable_requests_well_formed ledger_pending ledger_pending_reachable)
    as (_ & Hprompt & Hnone).
  split; [apply Hprompt; [reflexivity|discriminate]|apply Hnone; right; reflexivity].
Defined.

(** *** The life of a record *)

Lemma transact_keeps_request_data st tx id :
  0 < id → id ≤ _requestCounter st →
  request_data (calls_at (fst (transact st tx)) id) = request_data (calls_at st id) ∧
  id ≤ _requestCounter (fst (transact st tx)).
Proof.
  intros Hpos Hle. unfold transact.
  destruct (dispatch st tx) as [[st' evs]|e] eqn:Hd; cbn [fst]; [|done].
  destruct (registry_msg (tx_msg tx)) eqn:Hm.
  - destruct (registry_msg_frame _ _ _ _ Hm Hd) as (Hc & Hcalls & _).
    unfold calls_at. by rewrite Hcalls, Hc.
  - destruct tx as [sender []]; try discriminate Hm; unfold dispatch in Hd; cbn in Hd.
    + apply requestCall_inv in Hd as (_ & _ & _ & -> & _). cbn. split; [|lia].
      unfold calls_at; cbn. rewrite lookup_insert_ne; [done|lia].
    + apply submitResult_inv in Hd as (_ & _ & _ & _ & -> & _). cbn.
      split; [|done]. destruct (decide (requestId = id)) as [->|Hne].
      * unfold calls_at at 1; cbn. by rewrite lookup_insert_eq.
      * unfold calls_at; cbn. by rewrite lookup_insert_ne.
Qed.

(** X3.  What a request was submitted with never changes: whatever
    transactions follow (reports, removal of its model, a new inference
    node), the requester, the model and the prompt hash stored under an
    allocated id stay the same, and the id stays allocated. *)
Theorem request_data_is_immutable (st : State) (txs : list Tx) (id : uint256) :
  0 < id → id ≤ _requestCounter st →
  request_data (calls_at (fst (run st txs)) id) = request_data (calls_at st id) ∧
  id ≤ _requestCounter (fst (run st txs)).
Proof.
  revert st. induction txs as [|tx txs IH]; intros st Hpos Hle; cbn; [done|].
  destruct (transact_keeps_request_data st tx id Hpos Hle) as [Heq Hle'].
  destruct (transact st tx) as [st1 r]. cbn [fst] in *.
  destruct (IH st1 Hpos Hle') as [IH1 IH2]. destruct (run st1 txs) as [st2 rs].
  cbn [fst] in *. split; [congruence|done].
Qed.

Lemma request_data_is_immutable_witness :
  request_data
    (calls_at (fst (run ledger_pending
                      [mkTx 1 (MsgDelModel "COA"); mkTx 2 (MsgSubmitResult 1 7 9)])) 1)
  = (3, "COA", 2748).
Proof.
  apply (request_data_is_immutable ledger_pending
           [mkTx 1 (MsgDelModel "COA"); mkTx 2 (MsgSubmitResult 1 7 9)] 1);
    [reflexivity|discriminate].
Defined.

Lemma run_keeps_allocated_fulfilled st txs id :
  0 < id → id ≤ _requestCounter st → fulfilled (calls_at st id) = true →
  calls_at (fst (run st txs)) id = calls_at st id ∧
  id ≤ _requestCounter (fst (run st txs)).
Proof.
  revert st. induction txs as [|tx txs IH]; intros st Hpos Hle Hful; cbn; [done|].
  destruct (transact_keeps_fulfilled st tx id Hpos Hle Hful) as [Heq Hle'].
  destruct (transact st tx) as [st1 r]. cbn [fst] in *.
  destruct (IH st1 Hpos Hle') as [IH1 IH2]; [by rewrite Heq|].
  destruct (run st1 txs) as [st2 rs]. cbn [fst] in *. split; [congruence|done].
Qed.

(** X4.  A record with a non-zero result hash is final: after any further
    transactions it is still the same record, and a report on its id is
    refused and changes nothing, with "already fulfilled" when it comes
    from the inference node of the moment and with "not inference node"
    otherwise. *)
Theorem fulfilled_record_is_final
    (st : State) (txs : list Tx) (id : uint256) (sender : address) (r p : bytes32) :
  0 < id → id ≤ _requestCounter st → resultHash (calls_at st id) ≠ 0 →
  let st' := fst (run st txs) in
  calls_at st' id = calls_at st id ∧
  transact st' (mkTx sender (MsgSubmitResult id r p)) =
    (st', mkReceipt (Some (if sender =? _inferenceNode st'
                           then AlreadyFulfilled else NotInferenceNode)) []).
Proof.
  intros Hpos Hle Hres. cbv zeta.
  assert (fulfilled (calls_at st id) = true) as Hful.
  { unfold fulfilled, pending. by apply negb_true_iff, N.eqb_neq. }
  destruct (run_keeps_allocated_fulfilled st txs id Hpos Hle Hful) as [Heq Hle'].
  split; [done|]. apply submitResult_fulfilled; [by rewrite Heq|done..].
Qed.

Lemma fulfilled_record_is_final_witness :
  transact ledger_fulfilled (mkTx 2 (MsgSubmitResult 1 8 8)) =
    (ledger_fulfilled, mkReceipt (Some AlreadyFulfilled) []).
Proof.
  apply (fulfilled_record_is_final ledger_fulfilled [] 1 2 8 8);
    [reflexivity|discriminate|discriminate].
Defined.

(** X5.  [submitResult] decides in this order: a caller other than the
    inference node is refused with "not inference node"; then an id that is
    zero or above the counter with "invalid requestId"; then a record whose
    result hash is already non-zero with "already fulfilled".  Otherwise
    both hashes are stored together under the id, the rest of the record
    and every other record, the counter and the registry are untouched,
    and exactly [CallFinished(id, resultHash, reportHash)] is emitted. *)
Theorem submitResult_outcome
    (st : State) (sender : address) (id : uint256) (r p : bytes32) :
  (submitResult st sender id r p = Err NotInferenceNode ↔ sender ≠ _inferenceNode st) ∧
  (submitResult st sender id r p = Err InvalidId ↔
     sender = _inferenceNode st ∧ (id = 0 ∨ _requestCounter st < id)) ∧
  (submitResult st sender id r p = Err AlreadyFulfilled ↔
     sender = _inferenceNode st ∧ 0 < id ∧ id ≤ _requestCounter st ∧
     resultHash (calls_at st id) ≠ 0) ∧
  (sender = _inferenceNode st → 0 < id → id ≤ _requestCounter st →
   resultHash (calls_at st id) = 0 →
   ∃ st',
     submitResult st sender id r p = Ok (st', [CallFinished id r p]) ∧
     resultHash (calls_at st' id) = r ∧ reportHash (calls_at st' id) = p ∧
     request_data (calls_at st' id) = request_data (calls_at st id) ∧
     (∀ id', id' ≠ id → calls_at st' id' = calls_at st id') ∧
     _requestCounter st' = _requestCounter st ∧
     models st' = models st ∧ modelList st' = modelList st ∧
     _owner st' = _owner st ∧ _inferenceNode st' = _inferenceNode st).
Proof.
  unfold submitResult, onlyInferenceNode, require.
  destruct (N.eqb_spec sender (_inferenceNode st)) as [Hs|Hs]; cbn [bind].
  2:{ split_and!; try done; split; try done; by intros []. }
  destruct (N.ltb_spec 0 id) as [Hpos|Hpos], (N.leb_spec id (_requestCounter st)) as [Hle|Hle];
    cbn [andb bind].
  - destruct (N.eqb_spec (resultHash (calls_at st id)) 0) as [Hz|Hz]; cbn [bind].
    + split_and!.
      * split; [done|]. by intros [].
      * split; [done|]. intros [_ [->|?]]; lia.
      * split; [done|]. by intros (_ & _ & _ & ?).
      * intros _ _ _ _. eexists. split; [reflexivity|].
        rewrite calls_at_insert. cbn. split_and!; try done.
        intros id' Hne. by apply calls_at_insert_ne.
    + split_and!.
      * split; [done|]. by intros [].
      * split; [done|]. intros [_ [->|?]]; lia.
      * split; [done|]. done.
      * intros _ _ _ ?. done.
  - split_and!.
    + split; [done|]. by intros [].
    + split; [|done]. intros _. split; [done|]. by right.
    + split; [done|]. intros (_ & _ & ? & _). lia.
    + intros _ _ ? _. lia.
  - split_and!.
    + split; [done|]. by intros [].
    + split; [|done]. intros _. split; [done|]. left. lia.
    + split; [done|]. intros (_ & ? & _). lia.
    + intros _ ? _ _. lia.
  - split_and!.
    + split; [done|]. by intros [].
    + split; [|done]. intros _. split; [done|]. left. lia.
    + split; [done|]. intros (_ & ? & _). lia.
    + intros _ ? _ _. lia.
Qed.

Lemma submitResult_outcome_witness :
  ∃ st', submitResult ledger_pending 2 1 7 9 = Ok (st', [CallFinished 1 7 9]) ∧
         calls_at st' 1 = mkCall 3 "COA" 2748 7 9.
Proof.
  destruct (submitResult_outcome ledger_pending 2 1 7 9) as (_ & _ & _ & H).
  destruct H as (st' & Hok & _); [reflexivity|reflexivity|discriminate|reflexivity|].
  exists st'. split; [exact Hok|].
  injection Hok as <-. reflexivity.
Defined.

(** *** Authorities *)

(** X7.  [setInferenceNode] hands the right to report over: called by the
    owner with a non-zero address it changes the inference node and nothing
    else, emitting nothing; from then on a report by the new node on a
    pending id is accepted, and a report by the previous node (when it is a
    different account) is refused with "not inference node".  The zero
    address is refused and changes nothing. *)
Theorem setInferenceNode_hands_over
    (st : State) (node' : address) (id : uint256) (r p : bytes32) :
  node' ≠ 0 →
  let st' := set_inferenceNode st node' in
  transact st (mkTx (_owner st) (MsgSetInferenceNode node')) = (st', mkReceipt None []) ∧
  transact st (mkTx (_owner st) (MsgSetInferenceNode 0)) =
    (st, mkReceipt (Some EmptyInferenceNode) []) ∧
  (0 < id → id ≤ _requestCounter st → pending (calls_at st id) = true →
   failure (snd (transact st' (mkTx node' (MsgSubmitResult id r p)))) = None) ∧
  (_inferenceNode st ≠ node' →
   transact st' (mkTx (_inferenceNode st) (MsgSubmitResult id r p)) =
     (st', mkReceipt (Some NotInferenceNode) [])).
Proof.
  intros Hnz. cbv zeta. split_and!.
  - unfold transact, dispatch; cbn. unfold setInferenceNode.
    rewrite onlyOwner_owner. cbn. apply N.eqb_neq in Hnz. by rewrite Hnz.
  - unfold transact, dispatch; cbn. unfold setInferenceNode.
    by rewrite onlyOwner_owner.
  - intros Hpos Hle Hpend. unfold transact, dispatch; cbn.
    by rewrite submitResult_ok.
  - intros Hne. unfold transact, dispatch; cbn.
    by rewrite submitResult_not_node.
Qed.

Lemma setInferenceNode_hands_over_witness :
  transact ledger_pending (mkTx 1 (MsgSetInferenceNode 5)) =
    (set_inferenceNode ledger_pending 5, mkReceipt None []) ∧
  transact (set_inferenceNode ledger_pending 5) (mkTx 2 (MsgSubmitResult 1 7 9)) =
    (set_inferenceNode ledger_pending 5, mkReceipt (Some NotInferenceNode) []).
Proof.
  destruct (setInferenceNode_hands_over ledger_pending 5 1 7 9) as (H1 & _ & _ & H4);
    [discriminate|].
  split; [exact H1|]. apply H4. discriminate.
Defined.

(** *** The registry, call by call *)

Lemma find_model_appended m l i0 :
  m ∉ l → find_model m (l ++ [m]) i0 = Some (i0 + length l)%nat.
Proof.
  revert i0. induction l as [|x l IH]; intros i0 Hm; cbn.
  - assert (keccak256_eq m m = true) as -> by by apply keccak256_eq_spec.
    f_equal. lia.
  - apply not_elem_of_cons in Hm as [Hne Hm].
    destruct (keccak256_eq x m) eqn:Hx; [by apply keccak256_eq_spec in Hx|].
    rewrite IH by done. f_equal. lia.
Qed.

Lemma remove_appended m l : m ∉ l → remove_from_modelList m (l ++ [m]) = l.
Proof.
  intros Hm. unfold remove_from_modelList. rewrite find_model_appended by done.
  cbn [Nat.add]. unfold swap_pop.
  replace (length (l ++ [m]) - 1)%nat with (length l)
    by (rewrite length_app; cbn; lia).
  rewrite list_lookup_middle by done. cbn [default].
  rewrite list_insert_id by by apply list_lookup_middle.
  apply removelast_last.
Qed.

Lemma addModel_ok st sender m :
  sender = _owner st → models_at st m = false →
  addModel st sender m =
    Ok (set_modelList (set_models st (<[m := true]> (models st))) (modelList st ++ [m]),
        [ModelAdded m]).
Proof.
  intros -> Hm. unfold addModel. rewrite onlyOwner_owner; cbn [bind]. by rewrite Hm.
Qed.

Lemma delModel_ok st sender m :
  sender = _owner st → models_at st m = true →
  delModel st sender m =
    Ok (set_modelList (set_models st (<[m := false]> (models st)))
          (remove_from_modelList m (modelList st)),
        [ModelDeled m]).
Proof.
  intros -> Hm. unfold delModel. rewrite onlyOwner_owner; cbn [bind]. by rewrite Hm.
Qed.

(** X8.  Adding a model and removing it again is a round trip: on a
    consistent registry that does not hold the model, the owner's
    [addModel] followed by [delModel] both succeed, with one [ModelAdded]
    and one [ModelDeled], and leave the listing exactly as it was and
    every model's flag as it was; requests are not touched. *)
Theorem addModel_delModel_round_trip (st : State) (m : string) :
  registry_consistent st → models_at st m = false →
  let txs := [mkTx (_owner st) (MsgAddModel m); mkTx (_owner st) (MsgDelModel m)] in
  snd (run st txs) = [mkReceipt None [ModelAdded m]; mkReceipt None [ModelDeled m]] ∧
  getAllModels (fst (run st txs)) = getAllModels st ∧
  (∀ x, models_at (fst (run st txs)) x = models_at st x) ∧
  calls (fst (run st txs)) = calls st ∧
  _requestCounter (fst (run st txs)) = _requestCounter st.
Proof.
  intros [Hiff Hnd] Hm. cbv zeta.
  assert (m ∉ modelList st) as Hnot by (rewrite <- Hiff; congruence).
  set (st1 := set_modelList (set_models st (<[m := true]> (models st)))
                (modelList st ++ [m])).
  set (st2 := set_modelList (set_models st1 (<[m := false]> (models st1)))
                (remove_from_modelList m (modelList st1))).
  assert (run st [mkTx (_owner st) (MsgAddModel m); mkTx (_owner st) (MsgDelModel m)]
          = (st2, [mkReceipt None [ModelAdded m]; mkReceipt None [ModelDeled m]])) as ->.
  { cbn [run]. unfold transact, dispatch; cbn [tx_sender tx_msg].
    rewrite addModel_ok by done. fold st1.
    rewrite (delModel_ok st1); [done|done|].
    subst st1. by rewrite models_at_set_modelList, models_at_insert, decide_True. }
  cbn [fst snd]. subst st2 st1.
  cbn [set_modelList set_models modelList models calls _requestCounter
       _owner _inferenceNode getAllModels].
  rewrite remove_appended by done. split_and!; try done.
  intros x. unfold models_at, set_modelList, set_models; cbn [models].
  rewrite lookup_insert.
  case_decide as Hx; [subst; unfold models_at in Hm; by rewrite Hm|].
  by rewrite lookup_insert_ne.
Qed.

Lemma addModel_delModel_round_trip_witness :
  getAllModels
    (fst (run ledger_COA [mkTx 1 (MsgAddModel "GPT"); mkTx 1 (MsgDelModel "GPT")]))
  = ["COA"].
Proof.
  destruct (addModel_delModel_round_trip ledger_COA "GPT") as (_ & Hlist & _).
  - apply reachable_consistent.
    exists 1, 2, ["COA"], ledger_COA, [OwnershipTransferred 0 1; ModelAdded "COA"], [].
    split; reflexivity.
  - reflexivity.
  - exact Hlist.
Defined.

(** X9.  The whitelist gates submission at the time of the call: a request
    for a model that is not registered is refused with "model unsupported";
    once the owner has added the model, the very same request is accepted
    and gets the next id. *)
Theorem submission_follows_whitelist
    (st : State) (sender : address) (m : string) (d : bytes32) :
  models_at st m = false → d ≠ 0 → _requestCounter st < max_uint256 →
  snd (run st [mkTx sender (MsgRequestCall m d);
               mkTx (_owner st) (MsgAddModel m);
               mkTx sender (MsgRequestCall m d)]) =
    [mkReceipt (Some UnsupportedModel) [];
     mkReceipt None [ModelAdded m];
     mkReceipt None [CallRequested (_requestCounter st + 1) sender m d]].
Proof.
  intros Hm Hd Hc. cbn [run]. unfold transact, dispatch; cbn [tx_sender tx_msg].
  assert (requestCall st sender m d = Err UnsupportedModel) as ->
    by by apply requestCall_unsupported.
  rewrite addModel_ok by done.
  rewrite requestCall_ok; [done| |done..].
  by rewrite models_at_set_modelList, models_at_insert, decide_True.
Qed.

Lemma submission_follows_whitelist_witness :
  snd (run ledger_COA [mkTx 3 (MsgRequestCall "GPT" 5);
                       mkTx 1 (MsgAddModel "GPT");
                       mkTx 3 (MsgRequestCall "GPT" 5)]) =
    [mkReceipt (Some UnsupportedModel) [];
     mkReceipt None [ModelAdded "GPT"];
     mkReceipt None [CallRequested 1 3 "GPT" 5]].
Proof.
  apply (submission_follows_whitelist ledger_COA 3 "GPT" 5);
    [reflexivity|discriminate|reflexivity].
Defined.

(** X10.  A pending request outlives its model: after the owner has
    removed the model a request was submitted for, the inference node can
    still report on it; the report is accepted and stored. *)
Theorem fulfil_after_model_removal
    (st : State) (id : uint256) (r p : bytes32) :
  0 < id → id ≤ _requestCounter st → pending (calls_at st id) = true →
  models_at st (model (calls_at st id)) = true →
  let txs := [mkTx (_owner st) (MsgDelModel (model (calls_at st id)));
              mkTx (_inferenceNode st) (MsgSubmitResult id r p)] in
  map failure (snd (run st txs)) = [None; None] ∧
  models_at (fst (run st txs)) (model (calls_at st id)) = false ∧
  resultHash (calls_at (fst (run st txs)) id) = r ∧
  reportHash (calls_at (fst (run st txs)) id) = p.
Proof.
  intros Hpos Hle Hpend Hm. cbv zeta.
  set (m := model (calls_at st id)) in *.
  set (st1 := set_modelList (set_models st (<[m := false]> (models st)))
                (remove_from_modelList m (modelList st))).
  assert (calls_at st1 id = calls_at st id) as Hsame by done.
  assert (∃ st2,
            run st [mkTx (_owner st) (MsgDelModel m);
                    mkTx (_inferenceNode st) (MsgSubmitResult id r p)]
            = (st2, [mkReceipt None [ModelDeled m]; mkReceipt None [CallFinished id r p]]) ∧
            calls_at st2 id = mkCall (caller (calls_at st id)) m
                                (promptHash (calls_at st id)) r p ∧
            models st2 = models st1) as (st2 & -> & Hrec & Hmod).
  { eexists. cbn [run]. unfold transact, dispatch; cbn [tx_sender tx_msg].
    rewrite delModel_ok by done. fold st1.
    rewrite (submitResult_ok st1) by done.
    split; [reflexivity|]. by rewrite calls_at_insert, Hsame. }
  cbn [fst snd map failure]. rewrite Hrec. split_and!; try done.
  unfold models_at. rewrite Hmod. subst st1.
  unfold set_modelList, set_models; cbn [models]. by rewrite lookup_insert_eq.
Qed.

Lemma fulfil_after_model_removal_witness :
  map failure (snd (run ledger_pending [mkTx 1 (MsgDelModel "COA");
                                        mkTx 2 (MsgSubmitResult 1 7 9)])) = [None; None].
Proof.
  apply (fulfil_after_model_removal ledger_pending 1 7 9);
    [reflexivity|discriminate|reflexivity|reflexivity].
Defined.

(** *** The registry, in batches *)

Lemma addModels_loop_noop st ms :
  (∀ m, m ∈ ms → models_at st m = true) → addModels_loop st ms = (st, []).
Proof.
  induction ms as [|a ms IH]; intros Hall; cbn [addModels_loop]; [done|].
  rewrite (Hall a) by left. cbn [negb]. apply IH. intros m Hm. apply Hall. by right.
Qed.

Lemma delModels_loop_noop st ms :
  (∀ m, m ∈ ms → models_at st m = false) → delModels_loop st ms = (st, []).
Proof.
  induction ms as [|a ms IH]; intros Hall; cbn [delModels_loop]; [done|].
  rewrite (Hall a) by left. apply IH. intros m Hm. apply Hall. by right.
Qed.

Lemma addModels_loop_fresh st a ms :
  models_at st a = false →
  addModels_loop st (a :: ms) =
    (fst (addModels_loop
            (set_modelList (set_models st (<[a := true]> (models st)))
               (modelList st ++ [a])) ms),
     ModelAdded a ::
       snd (addModels_loop
              (set_modelList (set_models st (<[a := true]> (models st)))
                 (modelList st ++ [a])) ms)).
Proof.
  intros Ha. cbn [addModels_loop]. rewrite Ha. cbn [negb]. cbv zeta.
  change (modelList (set_models st (<[a:=true]> (models st)))) with (modelList st).
  by destruct (addModels_loop _ ms).
Qed.

Lemma delModels_loop_present st a ms :
  models_at st a = true →
  delModels_loop st (a :: ms) =
    (fst (delModels_loop
            (set_modelList (set_models st (<[a := false]> (models st)))
               (remove_from_modelList a (modelList st))) ms),
     ModelDeled a ::
       snd (delModels_loop
              (set_modelList (set_models st (<[a := false]> (models st)))
                 (remove_from_modelList a (modelList st))) ms)).
Proof.
  intros Ha. cbn [delModels_loop]. rewrite Ha. cbv zeta.
  change (modelList (set_models st (<[a:=false]> (models st)))) with (modelList st).
  by destruct (delModels_loop _ ms).
Qed.

Lemma filter_first_occurrences (P Q : string → Prop)
    `{∀ x, Decision (P x)} `{∀ x, Decision (Q x)} (a : string) (l : list string) :
  (∀ x, Q x ↔ P x ∧ x ≠ a) →
  filter P (filter (fun x => x ≠ a) l) = filter Q l.
Proof.
  intros HQ. induction l as [|x l IH]; [done|].
  destruct (decide (x = a)) as [->|Hx].
  - rewrite (filter_cons_False (fun x => x ≠ a)) by (intros ?; done).
    rewrite (filter_cons_False Q) by (rewrite HQ; intros [_ ?]; done). done.
  - rewrite (filter_cons_True (fun x => x ≠ a)) by done.
    destruct (decide (P x)) as [HP|HP].
    + rewrite (filter_cons_True P), (filter_cons_True Q) by (try rewrite HQ; done).
      by rewrite IH.
    + rewrite (filter_cons_False P), (filter_cons_False Q)
        by (try rewrite HQ; try done; intros [? _]; done).
      done.
Qed.

Lemma addModels_loop_spec st ms :
  ∃ news,
    snd (addModels_loop st ms) = map ModelAdded news ∧
    modelList (fst (addModels_loop st ms)) = (modelList st ++ news)%list ∧
    news = filter (fun m => models_at st m = false) (first_occurrences ms) ∧
    NoDup news ∧
    (∀ m, m ∈ news ↔ m ∈ ms ∧ models_at st m = false) ∧
    (∀ m, models_at (fst (addModels_loop st ms)) m = true ↔
          models_at st m = true ∨ m ∈ ms).
Proof.
  revert st. induction ms as [|a ms IH]; intros st.
  - exists []. cbn. rewrite app_nil_r. split_and!; try done; [constructor| |].
    + intros m. split; [by intros ?%elem_of_nil|]. by intros [?%elem_of_nil _].
    + intros m. split; [by left|]. by intros [?|?%elem_of_nil].
  - destruct (models_at st a) eqn:Ha.
    + cbn [addModels_loop]. rewrite Ha. cbn [negb].
      destruct (IH st) as (news & Hev & Hlist & Hord & Hnd & Hin & Hflag).
      exists news. split_and!; try done.
      * cbn [first_occurrences]. rewrite filter_cons_False by congruence.
        rewrite Hord. symmetry. apply filter_first_occurrences.
        intros x. split; [|tauto]. intros Hx. split; [done|]. intros ->. congruence.
      * intros m. rewrite Hin, elem_of_cons. split; [tauto|].
        intros [[->|?] ?]; [congruence|done].
      * intros m. rewrite Hflag, elem_of_cons. split; [tauto|].
        intros [?|[->|?]]; tauto.
    + rewrite addModels_loop_fresh by done.
      set (st1 := set_modelList (set_models st (<[a := true]> (models st)))
                    (modelList st ++ [a])).
      destruct (IH st1) as (news & Hev & Hlist & Hord & Hnd & Hin & Hflag).
      assert (∀ m, models_at st1 m = if decide (a = m) then true else models_at st m)
        as Hst1.
      { intros m. subst st1. by rewrite models_at_set_modelList, models_at_insert. }
      destruct (addModels_loop st1 ms) as [st' evs]. cbn [fst snd] in *.
      exists (a :: news). split_and!.
      * cbn. by rewrite Hev.
      * rewrite Hlist. subst st1. cbn. by rewrite <- app_assoc.
      * cbn [first_occurrences]. rewrite filter_cons_True by done. f_equal.
        rewrite Hord. symmetry. apply filter_first_occurrences.
        intros x. rewrite Hst1. case_decide as Hx.
        -- subst. split; [done|]. by intros [_ ?].
        -- split; [intros ?; split; [done|congruence]|]. by intros [? _].
      * constructor; [|done]. rewrite Hin, Hst1, decide_True by done. by intros [_ ?].
      * intros m. rewrite !elem_of_cons, Hin, Hst1. case_decide as Hm.
        -- subst. split; [tauto|]. tauto.
        -- split; [intros [->|[? ?]]; [done|tauto]|]. intros [[->|?] ?]; [done|tauto].
      * intros m. rewrite Hflag, Hst1, elem_of_cons. case_decide as Hm.
        -- subst. tauto.
        -- split; [tauto|]. intros [?|[->|?]]; [tauto|done|tauto].
Qed.

(** X11.  The batch [addModels] never refuses a model: called by the
    owner it succeeds and registers the models of the batch that were not
    yet registered, each once, in the order in which they first occur in
    the batch, at the end of the listing, with one [ModelAdded] each in
    that same order, and skips the others silently.  Afterwards every
    model of the batch is whitelisted, no other flag has changed, and
    sending the same batch again changes nothing and emits nothing. *)
Theorem addModels_registers_the_missing (st : State) (ms : list string) :
  ∃ st' news,
    transact st (mkTx (_owner st) (MsgAddModels ms)) =
      (st', mkReceipt None (map ModelAdded news)) ∧
    getAllModels st' = (getAllModels st ++ news)%list ∧
    news = filter (fun m => models_at st m = false) (first_occurrences ms) ∧
    NoDup news ∧
    (∀ m, m ∈ news ↔ m ∈ ms ∧ models_at st m = false) ∧
    (∀ m, models_at st' m = true ↔ models_at st m = true ∨ m ∈ ms) ∧
    transact st' (mkTx (_owner st') (MsgAddModels ms)) = (st', mkReceipt None []).
Proof.
  destruct (addModels_loop_spec st ms) as (news & Hev & Hlist & Hord & Hnd & Hin & Hflag).
  exists (fst (addModels_loop st ms)), news.
  unfold transact, dispatch; cbn [tx_sender tx_msg]. unfold addModels.
  rewrite !onlyOwner_owner. cbn [bind].
  destruct (addModels_loop st ms) as [st' evs] eqn:Hloop. cbn [fst snd] in *.
  rewrite Hev. split_and!; try done.
  rewrite addModels_loop_noop; [done|]. intros m Hm. apply Hflag. by right.
Qed.

(** The batch [addModels] on a ledger holding ["COA"] and ["GPT"]: of
    the batch LLM, GPT, BERT, LLM the two new models are registered, in
    the order of the batch. *)
Example addModels_in_batch_order :
  transact ledger_two_models (mkTx 1 (MsgAddModels ["LLM"; "GPT"; "BERT"; "LLM"])) =
    (mkState 1 0 2 ∅
       (<["BERT" := true]> (<["LLM" := true]> {[ "COA" := true; "GPT" := true ]}))
       ["COA"; "GPT"; "LLM"; "BERT"],
     mkReceipt None [ModelAdded "LLM"; ModelAdded "BERT"]).
Proof. reflexivity. Qed.

Lemma delModels_loop_spec st ms :
  registry_consistent st →
  ∃ gone,
    snd (delModels_loop st ms) = map ModelDeled gone ∧
    NoDup gone ∧
    (∀ m, m ∈ gone ↔ m ∈ ms ∧ models_at st m = true) ∧
    (∀ m, models_at (fst (delModels_loop st ms)) m = true ↔
          models_at st m = true ∧ m ∉ ms) ∧
    registry_consistent (fst (delModels_loop st ms)).
Proof.
  revert st. induction ms as [|a ms IH]; intros st Hst.
  - exists []. cbn. split_and!; try done; [constructor| |].
    + intros m. split; [by intros ?%elem_of_nil|]. by intros [?%elem_of_nil _].
    + intros m. split; [|tauto]. intros ?. split; [done|apply not_elem_of_nil].
  - destruct (models_at st a) eqn:Ha.
    + rewrite delModels_loop_present by done.
      set (st1 := set_modelList (set_models st (<[a := false]> (models st)))
                    (remove_from_modelList a (modelList st))).
      assert (registry_consistent st1) as Hst1c by by apply unregister_consistent.
      destruct (IH st1 Hst1c) as (gone & Hev & Hnd & Hin & Hflag & Hcons).
      assert (∀ m, models_at st1 m = if decide (a = m) then false else models_at st m)
        as Hst1.
      { intros m. subst st1. by rewrite models_at_set_modelList, models_at_insert. }
      destruct (delModels_loop st1 ms) as [st' evs]. cbn [fst snd] in *.
      exists (a :: gone). split_and!; try done.
      * cbn. by rewrite Hev.
      * constructor; [|done]. rewrite Hin, Hst1, decide_True by done. by intros [_ ?].
      * intros m. rewrite !elem_of_cons, Hin, Hst1. case_decide as Hm.
        -- subst. split; [tauto|]. tauto.
        -- split; [intros [->|[? ?]]; [done|tauto]|]. intros [[->|?] ?]; [done|tauto].
      * intros m. rewrite Hflag, Hst1, not_elem_of_cons. case_decide as Hm.
        -- subst. split; [by intros [? _]|]. by intros [_ [? _]].
        -- split; [intros [? ?]; split_and!; [done|congruence|done]|tauto].
    + cbn [delModels_loop]. rewrite Ha.
      destruct (IH st Hst) as (gone & Hev & Hnd & Hin & Hflag & Hcons).
      exists gone. split_and!; try done.
      * intros m. rewrite Hin, elem_of_cons. split; [tauto|].
        intros [[->|?] ?]; [congruence|done].
      * intros m. rewrite Hflag, not_elem_of_cons. split; [|tauto].
        intros [? ?]. split_and!; [done| |done]. intros ->. congruence.
Qed.

(** X12.  The batch [delModels] never refuses a model either: called by
    the owner on a consistent registry it succeeds, removes every model of
    the batch that was registered, with one [ModelDeled] each, and skips
    the others silently (where [delModel] would be refused).  Afterwards
    the listing holds exactly the models that were listed and are not in
    the batch, still without duplicates, and sending the same batch again
    changes nothing and emits nothing. *)
Theorem delModels_removes_the_present (st : State) (ms : list string) :
  registry_consistent st →
  ∃ st' gone,
    transact st (mkTx (_owner st) (MsgDelModels ms)) =
      (st', mkReceipt None (map ModelDeled gone)) ∧
    NoDup gone ∧
    (∀ m, m ∈ gone ↔ m ∈ ms ∧ models_at st m = true) ∧
    (∀ m, m ∈ getAllModels st' ↔ m ∈ getAllModels st ∧ m ∉ ms) ∧
    NoDup (getAllModels st') ∧
    (∀ m, models_at st' m = true ↔ models_at st m = true ∧ m ∉ ms) ∧
    transact st' (mkTx (_owner st') (MsgDelModels ms)) = (st', mkReceipt None []).
Proof.
  intros Hst.
  destruct (delModels_loop_spec st ms Hst) as (gone & Hev & Hnd & Hin & Hflag & Hcons).
  exists (fst (delModels_loop st ms)), gone.
  unfold transact, dispatch; cbn [tx_sender tx_msg]. unfold delModels.
  rewrite !onlyOwner_owner. cbn [bind].
  destruct (delModels_loop st ms) as [st' evs] eqn:Hloop. cbn [fst snd] in *.
  rewrite Hev. destruct Hcons as [Hiff' Hnd']. destruct Hst as [Hiff _].
  split_and!; try done.
  - intros m. unfold getAllModels. rewrite <- Hiff', <- Hiff. apply Hflag.
  - rewrite delModels_loop_noop; [done|]. intros m Hm.
    destruct (models_at st' m) eqn:Hf; [|done]. apply Hflag in Hf as [_ ?]. done.
Qed.

Lemma ledger_two_models_consistent : registry_consistent ledger_two_models.
Proof.
  apply reachable_consistent.
  exists 1, 2, ["COA"; "GPT"], ledger_two_models,
    [OwnershipTransferred 0 1; ModelAdded "COA"; ModelAdded "GPT"], [].
  split; reflexivity.
Qed.

Lemma delModels_removes_the_present_witness :
  ∃ st' gone,
    transact ledger_two_models (mkTx 1 (MsgDelModels ["GPT"; "LLM"; "GPT"])) =
      (st', mkReceipt None (map ModelDeled gone)) ∧
    (∀ m, m ∈ getAllModels st' ↔ m ∈ ["COA"; "GPT"] ∧ m ∉ ["GPT"; "LLM"; "GPT"]).
Proof.
  destruct (delModels_removes_the_present ledger_two_models ["GPT"; "LLM"; "GPT"]
              ledger_two_models_consistent) as (st' & gone & Htx & _ & _ & Hlist & _).
  exists st', gone. split; [exact Htx|exact Hlist].
Defined.

Lemma remove_from_modelList_length m (l : list string) :
  m ∈ l → S (length (remove_from_modelList m l)) = length l.
Proof.
  intros Hm. unfold remove_from_modelList.
  destruct (find_model m l 0) as [i|] eqn:Hf.
  - apply find_model_Some in Hf as (l1 & l2 & -> & -> & _). cbn [Nat.add].
    rewrite (Permutation_length (swap_pop_middle l1 m l2)).
    rewrite !length_app. cbn. lia.
  - by apply find_model_None in Hf.
Qed.

(** X13.  [delModel] removes exactly one entry: called by the owner on a
    consistent registry that holds the model, it succeeds with one
    [ModelDeled]; afterwards the model is not whitelisted, the listing is
    one entry shorter, holds exactly the other models and no duplicate,
    and no other flag and no request has changed. *)
Theorem delModel_removes_exactly_one (st : State) (m : string) :
  registry_consistent st → models_at st m = true →
  ∃ st',
    transact st (mkTx (_owner st) (MsgDelModel m)) = (st', mkReceipt None [ModelDeled m]) ∧
    models_at st' m = false ∧
    (∀ x, x ≠ m → models_at st' x = models_at st x) ∧
    (∀ x, x ∈ getAllModels st' ↔ x ∈ getAllModels st ∧ x ≠ m) ∧
    S (length (getAllModels st')) = length (getAllModels st) ∧
    NoDup (getAllModels st') ∧
    calls st' = calls st ∧ _requestCounter st' = _requestCounter st.
Proof.
  intros [Hiff Hnd] Hm. eexists. unfold transact, dispatch; cbn [tx_sender tx_msg].
  rewrite delModel_ok by done. split; [reflexivity|].
  destruct (remove_from_modelList_spec m _ Hnd) as [Hnd' Hin].
  unfold getAllModels, set_modelList, set_models; cbn [modelList calls _requestCounter].
  split_and!; try done.
  - unfold models_at; cbn [models]. by rewrite lookup_insert_eq.
  - intros x Hx. unfold models_at; cbn [models]. by rewrite lookup_insert_ne.
  - apply remove_from_modelList_length. by apply Hiff.
Qed.

Lemma delModel_removes_exactly_one_witness :
  ∃ st',
    transact ledger_two_models (mkTx 1 (MsgDelModel "COA")) =
      (st', mkReceipt None [ModelDeled "COA"]) ∧
    S (length (getAllModels st')) = 2%nat.
Proof.
  destruct (delModel_removes_exactly_one ledger_two_models "COA"
              ledger_two_models_consistent eq_refl)
    as (st' & Htx & _ & _ & _ & Hlen & _).
  exists st'. split; [exact Htx|exact Hlen].
Defined.

End LedgerMore.

(** ** Part VII.  Properties of the Content Store client *)

Module MinioFacts.
Import Js Minio.
Local Open Scope Z_scope.
Local Open Scope js_scope.

Section retry.
Context `{Network}.

Lemma makeRequest_cases options w :
  (∃ response, _makeRequest options w = (Return response, performed (EHttp options) w)) ∨
  (∃ message, _makeRequest options w = (Throw (Error message), performed (EHttp options) w)).
Proof.
  unfold _makeRequest. destruct (network w options) as [status body|msg|].
  - destruct ((200 <=? status) && (status <? 300)); [left|right]; eauto.
  - right; eauto.
  - right; eauto.
Qed.

Lemma attempts_trace_S options attempt k :
  attempts_trace options attempt (S (S k)) =
    EHttp options :: ESleep (backoff_delay attempt)
      :: attempts_trace options (attempt + 1) (S k).
Proof. reflexivity. Qed.

(** The retry loop entered at attempt number [attempt] with enough fuel:
    it makes [k] attempts, [k] at most the number of attempts left, and
    ends with the outcome of the last of them; with no attempt left it
    throws what it was given as [lastError]. *)
Lemma retry_loop_spec config options fuel attempt lastError w :
  retries config - attempt + 1 <= Z.of_nat fuel →
  ∃ k : nat,
    Z.of_nat k <= Z.max 0 (retries config - attempt + 1) ∧
    trace (snd (retry_loop config options fuel attempt lastError w)) =
      (trace w ++ attempts_trace options attempt k)%list ∧
    match fst (retry_loop config options fuel attempt lastError w) with
    | Return response =>
        k ≠ O ∧
        ∃ w_last, _makeRequest options w_last =
                    (Return response, snd (retry_loop config options fuel attempt lastError w))
    | Throw e =>
        (k = O ∧ retries config < attempt ∧ e = lastError) ∨
        (Z.of_nat k = retries config - attempt + 1 ∧
         ∃ w_last message,
           _makeRequest options w_last =
             (Throw (Error message), snd (retry_loop config options fuel attempt lastError w)) ∧
           e = Error message)
    | OutOfFuel => False
    end.
Proof.
  revert attempt lastError w.
  induction fuel as [|fuel IH]; intros attempt lastError w Hfuel.
  - cbn [retry_loop]. destruct (Z.leb_spec attempt (retries config)); [lia|].
    exists O. cbn. rewrite app_nil_r. split; [lia|]. split; [done|]. left. done.
  - cbn [retry_loop]. destruct (Z.leb_spec attempt (retries config)) as [Hle|Hgt].
    2:{ exists O. cbn. rewrite app_nil_r. split; [lia|]. split; [done|]. by left. }
    unfold try_catch.
    destruct (makeRequest_cases options w) as [[response Hreq]|[message Hreq]];
      rewrite Hreq.
    + exists 1%nat. cbn. split; [lia|]. split; [done|]. split; [done|]. exists w. done.
    + destruct (Z.eqb_spec attempt (retries config)) as [Heq|Hne].
      * exists 1%nat. cbn. split; [lia|]. split; [done|]. right.
        split; [lia|]. exists w, message. done.
      * set (w1 := mkWorld (now (performed (EHttp options) w)
                              + timer_delay (backoff_delay attempt))
                     (trace (performed (EHttp options) w)
                      ++ [ESleep (backoff_delay attempt)])).
        change ((sleep (backoff_delay attempt) ;;
                 retry_loop config options fuel (attempt + 1) (Error message))
                  (performed (EHttp options) w))
          with (retry_loop config options fuel (attempt + 1) (Error message) w1).
        destruct (IH (attempt + 1) (Error message) w1) as (k & Hk & Htr & Hout); [lia|].
        destruct (retry_loop config options fuel (attempt + 1) (Error message) w1)
          as [r w2] eqn:Hloop. cbn [fst snd] in *.
        assert (k ≠ O) as Hk0.
        { intros ->. destruct r; try done.
          - by destruct Hout.
          - destruct Hout as [(_ & ? & _)|(? & _)]; lia. }
        destruct k as [|k]; [done|].
        exists (S (S k)). rewrite attempts_trace_S.
        split; [lia|]. split.
        { rewrite Htr. subst w1. cbn. by rewrite <- !app_assoc. }
        destruct r; [by destruct Hout| |done].
        destruct Hout as [(? & _)|(Hkk & Hlast)]; [done|].
        right. split; [lia|done].
Qed.

Lemma added_app w es w' : trace w' = (trace w ++ es)%list → added w w' = es.
Proof. intros Htr. unfold added. rewrite Htr. apply drop_app_length. Qed.

(** [_requestWithRetry] wrapped in the [try]/[catch] of [putObject] and
    [getObject]. *)
Lemma retried_outcome config options prefix w :
  retry_outcome config options prefix w
    (try_catch
       (let* response := _requestWithRetry config options in ret (response_data response))
       (rethrow_prefixed prefix) w).
Proof.
  unfold retry_outcome, try_catch, bind, _requestWithRetry.
  destruct (retry_loop_spec config options (Z.to_nat (retries config)) 1
              ThrownUndefined w) as (k & Hk & Htr & Hout); [lia|].
  destruct (retry_loop config options (Z.to_nat (retries config)) 1 ThrownUndefined w)
    as [r w'] eqn:Hloop. cbn [fst snd] in *.
  exists k. split; [lia|]. destruct r as [response|e|]; [..|done].
  - cbn. split; [by apply added_app|]. destruct Hout as [_ [w_last Hlast]]. eauto.
  - destruct Hout as [(-> & Hr & ->)|(Hkk & w_last & message & Hlast & ->)]; cbn.
    + split; [by apply added_app|]. left. split; [done|]. split; [lia|done].
    + split; [by apply added_app|]. right. split; [lia|]. eauto.
Qed.

(** [putObject] and [getObject] always end: the retry loop never runs out
    of its iteration budget. *)
Lemma getObject_terminates config key w : fst (getObject config key w) ≠ OutOfFuel.
Proof.
  unfold getObject. destruct (_ || _); [done|].
  destruct (retried_outcome config
              (mkRequest "GET" ("/v1/minio/get/" ++ encodeURIComponent key) None)
              "Failed to get object: " w) as (k & _ & _ & Hout).
  intros Hfuel. by rewrite Hfuel in Hout.
Qed.

Lemma putObject_terminates config content w : fst (putObject config content w) ≠ OutOfFuel.
Proof.
  unfold putObject. destruct (_ || _); [done|].
  destruct (retried_outcome config
              (mkRequest "POST" "/v1/minio/object" (Some content))
              "Failed to upload object: " w) as (k & _ & _ & Hout).
  intros Hfuel. by rewrite Hfuel in Hout.
Qed.

End retry.

Lemma attempts_trace_requests options attempt k :
  http_requests (attempts_trace options attempt k) = replicate k options.
Proof.
  revert attempt. induction k as [|[|k] IH]; intros attempt; [done..|].
  change (attempts_trace options attempt (S (S k)))
    with (EHttp options :: ESleep (backoff_delay attempt)
            :: attempts_trace options (attempt + 1) (S k)).
  unfold http_requests in *. cbn [omap list_omap]. by rewrite IH.
Qed.

Lemma attempts_trace_sleeps options k :
  sleeps (attempts_trace options 1 k) = backoff_schedule (k - 1).
Proof.
  assert (∀ n attempt, 0 <= attempt →
            sleeps (attempts_trace options attempt (S n))
            = map (fun i => backoff_delay (Z.of_nat i)) (seq (Z.to_nat attempt) n)) as Hgen.
  { induction n as [|n IH]; intros attempt Ha; [done|].
    change (attempts_trace options attempt (S (S n)))
      with (EHttp options :: ESleep (backoff_delay attempt)
              :: attempts_trace options (attempt + 1) (S n)).
    unfold sleeps in *. cbn [omap list_omap seq map]. rewrite IH by lia.
    rewrite Z2Nat.id by lia. do 3 f_equal. lia. }
  destruct k as [|k]; [done|]. rewrite (Hgen k 1) by lia.
  unfold backoff_schedule. do 2 f_equal. lia.
Qed.

(** The waits start at one second, double, and stop growing at five. *)
Lemma backoff_delay_shape :
  backoff_delay 1 = 1000 ∧
  (∀ attempt, 1 <= attempt →
     backoff_delay (attempt + 1) = Z.min (2 * backoff_delay attempt) 5000) ∧
  (∀ attempt, 1 <= attempt → 1000 <= backoff_delay attempt <= 5000).
Proof.
  split; [reflexivity|]. split.
  - intros attempt Ha. unfold backoff_delay.
    replace (attempt + 1 - 1) with (Z.succ (attempt - 1)) by lia.
    rewrite Z.pow_succ_r by lia. lia.
  - intros attempt Ha. unfold backoff_delay.
    assert (1 <= 2 ^ (attempt - 1)) by (apply Z.pow_le_mono_r with (b := 0); lia).
    lia.
Qed.

(** Runs of the client. *)
Example putObject_store_down :
  putObject (H := store_down) DEFAULT_CONFIG (VString "hello") world0 =
    (Throw (Error [Lit "Failed to upload object: "; Lit "Request timeout"]),
     let options := mkRequest "POST" "/v1/minio/object" (Some (VString "hello")) in
     mkWorld 3000 [EHttp options; ESleep 1000; EHttp options; ESleep 2000; EHttp options]).
Proof. reflexivity. Qed.

Example putObject_store_flaky :
  putObject (H := store_flaky) DEFAULT_CONFIG (VString "hello") world0 =
    (Return "k1",
     let options := mkRequest "POST" "/v1/minio/object" (Some (VString "hello")) in
     mkWorld 3000 [EHttp options; ESleep 1000; EHttp options; ESleep 2000; EHttp options]).
Proof. reflexivity. Qed.

Example putObject_no_attempt_allowed :
  putObject (H := store_down) (mkConfig "" 30000 0 "") (VString "hello") world0 =
    (Throw (TypeError_reading "undefined" "message"), world0).
Proof. reflexivity. Qed.

(** C10.  [putObject] and [getObject] reject a payload that is empty or
    not a string before anything is sent: the world is returned as it was.
    Otherwise they make [k] attempts, [k] at most [retries], separated by
    the waits [backoff_delay 1], [backoff_delay 2], ... (one second,
    doubling, never above five seconds) and by nothing else; they return
    the body of the first successful attempt, and when every allowed
    attempt has failed they throw the error of the last attempt under
    their own prefix. *)
Theorem store_requests_retry_policy `{Network} (config : Config) (v : Value) (w : World) :
  (truthy v && is_string v = false →
     putObject config v w = (Throw (Error [Lit "Content must be a non-empty string"]), w) ∧
     getObject config v w = (Throw (Error [Lit "Key must be a non-empty string"]), w)) ∧
  (truthy v && is_string v = true →
     retry_outcome config (mkRequest "POST" "/v1/minio/object" (Some v))
       "Failed to upload object: " w (putObject config v w) ∧
     retry_outcome config (mkRequest "GET" ("/v1/minio/get/" ++ encodeURIComponent v) None)
       "Failed to get object: " w (getObject config v w)) ∧
  (∀ options k,
     http_requests (attempts_trace options 1 k) = replicate k options ∧
     sleeps (attempts_trace options 1 k) = backoff_schedule (k - 1)) ∧
  backoff_delay 1 = 1000 ∧
  (∀ attempt, 1 <= attempt →
     backoff_delay (attempt + 1) = Z.min (2 * backoff_delay attempt) 5000) ∧
  (∀ attempt, 1 <= attempt → 1000 <= backoff_delay attempt <= 5000).
Proof.
  split_and!.
  - intros Hv. unfold putObject, getObject.
    destruct (truthy v), (is_string v); try discriminate Hv; done.
  - intros Hv. unfold putObject, getObject.
    apply andb_true_iff in Hv as [-> ->]. cbn [negb orb].
    split; apply retried_outcome.
  - intros options k. split; [apply attempts_trace_requests|apply attempts_trace_sleeps].
  - apply backoff_delay_shape.
  - apply backoff_delay_shape.
  - apply backoff_delay_shape.
Qed.

Lemma store_requests_retry_policy_witness :
  putObject (H := store_down) DEFAULT_CONFIG (VString "") world0 =
    (Throw (Error [Lit "Content must be a non-empty string"]), world0) ∧
  retry_outcome (H := store_down) DEFAULT_CONFIG
    (mkRequest "POST" "/v1/minio/object" (Some (VString "hello")))
    "Failed to upload object: " world0
    (putObject (H := store_down) DEFAULT_CONFIG (VString "hello") world0) ∧
  1000 <= backoff_delay 3 <= 5000.
Proof.
  pose proof (store_requests_retry_policy (H := store_down) DEFAULT_CONFIG
                (VString "") world0) as (Hbad & _).
  pose proof (store_requests_retry_policy (H := store_down) DEFAULT_CONFIG
                (VString "hello") world0) as (_ & Hgood & _ & _ & _ & Hrange).
  split; [apply (Hbad eq_refl)|]. split; [apply (Hgood eq_refl)|].
  apply Hrange. lia.
Defined.

End MinioFacts.

(** ** Part VII-b.  Further properties of the Content Store client *)

Module MinioMore.
Import Js Minio MinioFacts.
Local Open Scope Z_scope.
Local Open Scope js_scope.

Section client.
Context `{Network}.

Lemma makeRequest_fails options w :
  attempt_fails w options = true →
  ∃ message, _makeRequest options w = (Throw (Error message), performed (EHttp options) w).
Proof.
  unfold attempt_fails, _makeRequest.
  destruct (network w options) as [status body|msg|]; [|eauto..].
  intros ->%negb_true_iff. eauto.
Qed.

Lemma makeRequest_succeeds options w status body :
  network w options = NetResponse status body →
  (200 <=? status) && (status <? 300) = true →
  _makeRequest options w = (Return (mkResponse status body), performed (EHttp options) w).
Proof. intros Hn Hs. unfold _makeRequest. by rewrite Hn, Hs. Qed.

(** X17.  [ping] never throws and never retries: it sends exactly one
    health request and returns [true] when the store answers it with a 2xx
    status, [false] on any other status, on a socket error and on a
    timeout. *)
Theorem ping_never_throws (w : World) :
  ping w = (Return (negb (attempt_fails w health_request)),
            performed (EHttp health_request) w).
Proof.
  unfold ping, try_catch, bind, attempt_fails, _makeRequest, health_request.
  destruct (network w _) as [status body|msg|]; [|done..].
  by destruct ((200 <=? status) && (status <? 300)).
Qed.

(** The backoff waits are between one and five seconds each. *)
Lemma backoff_schedule_within (n : nat) :
  Forall (fun ms => 1000 <= ms <= 5000) (backoff_schedule n) ∧
  length (backoff_schedule n) = n ∧
  fold_right Z.add 0 (backoff_schedule n) <= 5000 * Z.of_nat n.
Proof.
  unfold backoff_schedule.
  assert (∀ start, (1 <= start)%nat →
            Forall (fun ms => 1000 <= ms <= 5000)
              (map (fun i => backoff_delay (Z.of_nat i)) (seq start n)) ∧
            fold_right Z.add 0 (map (fun i => backoff_delay (Z.of_nat i)) (seq start n))
              <= 5000 * Z.of_nat n) as Hgen.
  { induction n as [|n IH]; intros start Hstart; cbn [seq map fold_right].
    - split; [constructor|lia].
    - destruct (IH (S start)) as [Hall Hsum]; [lia|].
      destruct backoff_delay_shape as (_ & _ & Hrange).
      specialize (Hrange (Z.of_nat start) ltac:(lia)).
      split; [by constructor|lia]. }
  rewrite length_map, length_seq.
  destruct (Hgen 1%nat) as [Hall Hsum]; [lia|]. by split_and!.
Qed.

Lemma retried_world config options prefix w :
  snd (try_catch
         (let* response := _requestWithRetry config options in ret (response_data response))
         (rethrow_prefixed prefix) w)
  = snd (_requestWithRetry config options w).
Proof.
  unfold try_catch, bind. destruct (_requestWithRetry config options w) as [[r|e|] w'];
    cbn; [done| |done].
  unfold rethrow_prefixed. by destruct e.
Qed.

(** The waits of a retried operation. *)
Lemma retried_waits config options prefix w :
  waits_within config
    (added w (snd (try_catch
                     (let* response := _requestWithRetry config options in
                      ret (response_data response))
                     (rethrow_prefixed prefix) w))).
Proof.
  destruct (retried_outcome config options prefix w) as (k & Hk & Hadded & _).
  unfold waits_within. rewrite Hadded, attempts_trace_sleeps.
  destruct (backoff_schedule_within (k - 1)) as (Hall & Hlen & Hsum).
  rewrite Hlen. split_and!; [done|lia|lia].
Qed.

Lemma retried_all_fail config options prefix w :
  1 <= retries config →
  (∀ w', attempt_fails w' options = true) →
  let r := try_catch
             (let* response := _requestWithRetry config options in
              ret (response_data response))
             (rethrow_prefixed prefix) w in
  (∃ message, fst r = Throw (Error (Lit prefix :: message))) ∧
  added w (snd r) = attempts_trace options 1 (Z.to_nat (retries config)).
Proof.
  intros Hretries Hfail. cbv zeta.
  destruct (retried_outcome config options prefix w) as (k & Hk & Hadded & Hout).
  destruct (fst _) as [body|e|] eqn:Hfst; [| |done].
  - destruct Hout as (w_last & response & Hlast & _).
    destruct (makeRequest_fails options w_last (Hfail w_last)) as [message Hm].
    congruence.
  - destruct Hout as [(_ & ? & _)|(Hkk & w_last & message & _ & ->)]; [lia|].
    split; [eauto|]. rewrite Hadded. f_equal. lia.
Qed.

Lemma retried_first_success config options prefix w status body :
  1 <= retries config →
  network w options = NetResponse status body →
  (200 <=? status) && (status <? 300) = true →
  try_catch
    (let* response := _requestWithRetry config options in ret (response_data response))
    (rethrow_prefixed prefix) w
  = (Return body, performed (EHttp options) w).
Proof.
  intros Hretries Hnet Hstatus. unfold try_catch, bind, _requestWithRetry.
  destruct (Z.to_nat (retries config)) as [|fuel] eqn:Hfuel; [lia|].
  cbn [retry_loop]. destruct (Z.leb_spec 1 (retries config)); [|lia].
  unfold try_catch. by rewrite (makeRequest_succeeds _ _ status body).
Qed.

Lemma valid_payload v :
  truthy v && is_string v = true → negb (truthy v) || negb (is_string v) = false.
Proof. by intros [-> ->]%andb_true_iff. Qed.

Lemma getObject_first_success config s w status body :
  s ≠ "" → 1 <= retries config →
  network w (get_request (VString s)) = NetResponse status body →
  (200 <=? status) && (status <? 300) = true →
  getObject config (VString s) w =
    (Return body, performed (EHttp (get_request (VString s))) w).
Proof.
  intros Hs Hretries Hnet Hstatus. unfold getObject. cbn [truthy is_string negb orb].
  apply String.eqb_neq in Hs. rewrite Hs. cbn [negb].
  by apply (retried_first_success config (get_request (VString s)) _ w status body).
Qed.

(** X14.  The backoff of [putObject] and [getObject] is bounded: every
    delay they hand to the timer lies between one and five seconds, they
    wait at most once per retry, that is [retries - 1] times, and the
    delays they ask for add up to at most [5000 * (retries - 1)]
    milliseconds, however the store answers. *)
Theorem store_wait_is_bounded (config : Config) (v : Value) (w : World) :
  truthy v && is_string v = true →
  waits_within config (added w (snd (putObject config v w))) ∧
  waits_within config (added w (snd (getObject config v w))).
Proof.
  intros Hv%valid_payload. unfold putObject, getObject. rewrite Hv.
  split; apply retried_waits.
Qed.

(** X15.  A store that answers no attempt with a 2xx status, be it by an
    error status such as 404, a socket error or a timeout, is asked
    [retries] times, with the backoff waits in between, before [putObject]
    and [getObject] give up; they then throw an [Error] whose message
    starts with their own prefix. *)
Theorem failing_store_exhausts_retries (config : Config) (v : Value) (w : World) :
  truthy v && is_string v = true →
  1 <= retries config →
  ((∀ w', attempt_fails w' (put_request v) = true) →
   (∃ message, fst (putObject config v w)
               = Throw (Error (Lit "Failed to upload object: " :: message))) ∧
   added w (snd (putObject config v w))
     = attempts_trace (put_request v) 1 (Z.to_nat (retries config))) ∧
  ((∀ w', attempt_fails w' (get_request v) = true) →
   (∃ message, fst (getObject config v w)
               = Throw (Error (Lit "Failed to get object: " :: message))) ∧
   added w (snd (getObject config v w))
     = attempts_trace (get_request v) 1 (Z.to_nat (retries config))).
Proof.
  intros Hv%valid_payload Hretries. unfold putObject, getObject. rewrite Hv.
  split; intros Hfail.
  - by apply (retried_all_fail config (put_request v)).
  - by apply (retried_all_fail config (get_request v)).
Qed.

(** X16.  When the store answers the first attempt with a 2xx status,
    [putObject] and [getObject] return the body of that answer after this
    single request, without any wait. *)
Theorem first_success_returns_at_once
    (config : Config) (v : Value) (w : World) (status : Z) (body : string) :
  truthy v && is_string v = true →
  1 <= retries config →
  (200 <=? status) && (status <? 300) = true →
  (network w (put_request v) = NetResponse status body →
   putObject config v w = (Return body, performed (EHttp (put_request v)) w)) ∧
  (network w (get_request v) = NetResponse status body →
   getObject config v w = (Return body, performed (EHttp (get_request v)) w)).
Proof.
  intros Hv%valid_payload Hretries Hstatus. unfold putObject, getObject. rewrite Hv.
  split; intros Hnet.
  - by apply (retried_first_success config (put_request v) _ w status body).
  - by apply (retried_first_success config (get_request v) _ w status body).
Qed.

End client.

Lemma store_wait_is_bounded_witness :
  waits_within DEFAULT_CONFIG
    (added world0 (snd (putObject (H := store_down) DEFAULT_CONFIG (VString "hello") world0))).
Proof.
  apply (store_wait_is_bounded (H := store_down) DEFAULT_CONFIG (VString "hello") world0).
  reflexivity.
Defined.

Lemma failing_store_exhausts_retries_witness :
  added world0 (snd (getObject (H := store_missing) DEFAULT_CONFIG (VString "k9") world0))
  = attempts_trace (get_request (H := store_missing) (VString "k9")) 1 3.
Proof.
  destruct (failing_store_exhausts_retries (H := store_missing) DEFAULT_CONFIG
              (VString "k9") world0 eq_refl) as [_ Hget]; [unfold retries; cbn; lia|].
  apply Hget. intros w'. reflexivity.
Defined.

Lemma first_success_returns_at_once_witness :
  getObject (H := App.store_echo) DEFAULT_CONFIG (VString "k9") world0 =
    (Return "/v1/minio/get/k9",
     performed (EHttp (get_request (H := App.store_echo) (VString "k9"))) world0).
Proof.
  destruct (first_success_returns_at_once (H := App.store_echo) DEFAULT_CONFIG
              (VString "k9") world0 200 "/v1/minio/get/k9" eq_refl) as [_ Hget];
    [unfold retries; cbn; lia|reflexivity|].
  apply Hget. reflexivity.
Defined.

Example getObject_store_missing :
  fst (getObject (H := store_missing) DEFAULT_CONFIG (VString "k9") world0) =
    Throw (Error [Lit "Failed to get object: "; Lit "HTTP "; Int 404; Lit ": ";
                  Lit "no such key"]).
Proof. reflexivity. Qed.

End MinioMore.

(** ** Part VIII.  Properties of the correlation/polling engine *)

Module AppFacts.
Import Js App.
Local Open Scope Z_scope.
Local Open Scope js_scope.

Lemma timer_delay_pos ms : 1 <= timer_delay ms.
Proof.
  unfold timer_delay. destruct (Z.ltb_spec ms 1); cbn; [lia|].
  destruct (Z.ltb_spec 2147483647 ms); lia.
Qed.

Lemma result_ready_iff details :
  result_ready details = true ↔
  resultHash details ≠ ZeroHash ∧ reportHash details ≠ ZeroHash.
Proof.
  unfold result_ready. rewrite andb_true_iff, !negb_true_iff, !String.eqb_neq. done.
Qed.

Section polling.
Context `{Chain} `{Minio.Network}.
Variable minioConfig : Minio.Config.

(** One iteration of the loop on a record that is not ready: read, wait,
    and go round again. *)
Lemma wait_loop_not_ready fuel requestId maxWaitTime checkInterval startTime w details :
  now w - startTime < maxWaitTime →
  calls_view w requestId = Resolved details →
  result_ready details = false →
  wait_loop minioConfig (S fuel) requestId maxWaitTime checkInterval startTime w =
  wait_loop minioConfig fuel requestId maxWaitTime checkInterval startTime
    (after_round requestId checkInterval w).
Proof.
  intros Ht Hread Hready. cbn [wait_loop]. unfold bind at 1. cbn [Date_now].
  apply Z.ltb_lt in Ht. rewrite Ht.
  unfold bind at 1, getRequestDetails, contract_call. rewrite Hread. cbn [settle].
  rewrite Hready. unfold bind at 1. cbn [sleep performed now trace].
  unfold after_round, poll_round. by rewrite <- app_assoc.
Qed.

(** One iteration of the loop on a record that is ready: read, then fetch
    the result and the report from the store. *)
Lemma wait_loop_ready fuel requestId maxWaitTime checkInterval startTime w details :
  now w - startTime < maxWaitTime →
  calls_view w requestId = Resolved details →
  result_ready details = true →
  wait_loop minioConfig (S fuel) requestId maxWaitTime checkInterval startTime w =
  (let* result :=
     Minio.getObject minioConfig (VString (strip0x (resultHash details))) in
   let* report :=
     Minio.getObject minioConfig (VString (strip0x (reportHash details))) in
   ret (mkFinalResult requestId (resultHash details) (reportHash details) result report))
    (performed (ECalls requestId) w).
Proof.
  intros Ht Hread Hready. cbn [wait_loop]. unfold bind at 1. cbn [Date_now].
  apply Z.ltb_lt in Ht. rewrite Ht.
  unfold bind at 1, getRequestDetails, contract_call. rewrite Hread. cbn [settle].
  by rewrite Hready.
Qed.

Lemma wait_loop_expired fuel requestId maxWaitTime checkInterval startTime w :
  maxWaitTime <= now w - startTime →
  wait_loop minioConfig fuel requestId maxWaitTime checkInterval startTime w =
  (Throw (timeout_error maxWaitTime), w).
Proof.
  intros Ht. apply Z.ltb_ge in Ht.
  destruct fuel; cbn [wait_loop]; unfold bind; cbn [Date_now]; by rewrite Ht.
Qed.

(** A returned result always carries two non-zero hashes. *)
Lemma wait_loop_returns_ready fuel requestId maxWaitTime checkInterval startTime w fr w' :
  wait_loop minioConfig fuel requestId maxWaitTime checkInterval startTime w
    = (Return fr, w') →
  fr_requestId fr = requestId ∧
  fr_resultHash fr ≠ ZeroHash ∧ fr_reportHash fr ≠ ZeroHash.
Proof.
  revert w. induction fuel as [|fuel IH]; intros w; cbn [wait_loop];
    unfold bind at 1; cbn [Date_now]; destruct (now w - startTime <? maxWaitTime);
    try discriminate.
  unfold bind at 1, getRequestDetails, contract_call.
  destruct (calls_view w requestId) as [details|msg]; cbn [settle]; [|discriminate].
  destruct (result_ready details) eqn:Hready.
  - apply result_ready_iff in Hready as [Hres Hrep].
    unfold bind.
    destruct (Minio.getObject _ _ _) as [[result| |] w1]; try discriminate.
    destruct (Minio.getObject _ _ w1) as [[report| |] w2]; try discriminate.
    unfold ret. intros [= <- <-]. done.
  - unfold bind at 1. cbn [sleep]. apply IH.
Qed.

(** The loop always ends, given one unit of fuel per millisecond of
    waiting time left: every round that does not end it moves the clock
    forward. *)
Lemma wait_loop_terminates fuel requestId maxWaitTime checkInterval startTime w :
  maxWaitTime - (now w - startTime) <= Z.of_nat fuel →
  fst (wait_loop minioConfig fuel requestId maxWaitTime checkInterval startTime w)
    ≠ OutOfFuel.
Proof.
  revert w. induction fuel as [|fuel IH]; intros w Hfuel.
  - rewrite wait_loop_expired by lia. done.
  - destruct (Z.lt_ge_cases (now w - startTime) maxWaitTime) as [Hlt|Hge];
      [|by rewrite wait_loop_expired].
    destruct (calls_view w requestId) as [details|message] eqn:Hread.
    + destruct (result_ready details) eqn:Hready.
      * rewrite (wait_loop_ready _ _ _ _ _ _ details) by done. unfold bind.
        pose proof (MinioFacts.getObject_terminates minioConfig
                      (VString (strip0x (resultHash details)))
                      (performed (ECalls requestId) w)) as Hres.
        destruct (Minio.getObject _ _ _) as [[result| |] w1]; try done.
        pose proof (MinioFacts.getObject_terminates minioConfig
                      (VString (strip0x (reportHash details))) w1) as Hrep.
        by destruct (Minio.getObject _ _ w1) as [[report| |] w2].
      * rewrite (wait_loop_not_ready _ _ _ _ _ _ details) by done.
        pose proof (timer_delay_pos checkInterval). apply IH.
        cbn [after_round now]. lia.
    + cbn [wait_loop]. unfold bind at 1. cbn [Date_now].
      apply Z.ltb_lt in Hlt. rewrite Hlt.
      unfold bind, getRequestDetails, contract_call. by rewrite Hread.
Qed.

Lemma waitForInferenceResult_terminates fuel requestId maxWaitTime checkInterval w :
  maxWaitTime <= Z.of_nat fuel →
  fst (waitForInferenceResult minioConfig fuel requestId maxWaitTime checkInterval w)
    ≠ OutOfFuel.
Proof.
  intros Hfuel. unfold waitForInferenceResult, bind. cbn [Date_now].
  apply wait_loop_terminates. lia.
Qed.

(** C7.  A record read with a non-zero [resultHash] but a zero
    [reportHash] does not resolve the request: the iteration performs the
    read and the wait, nothing else, and polling goes on.  The engine
    always ends (given fuel for the waiting time), and whenever it returns
    a result, both hashes in it are non-zero. *)
Theorem partial_fulfilment_keeps_polling
    (fuel : nat) (requestId : option Z) (maxWaitTime checkInterval startTime : Z)
    (w : World) (details : Details) :
  now w - startTime < maxWaitTime →
  calls_view w requestId = Resolved details →
  resultHash details ≠ ZeroHash →
  reportHash details = ZeroHash →
  wait_loop minioConfig (S fuel) requestId maxWaitTime checkInterval startTime w =
    wait_loop minioConfig fuel requestId maxWaitTime checkInterval startTime
      (after_round requestId checkInterval w) ∧
  ∀ fuel0 w0,
    (maxWaitTime <= Z.of_nat fuel0 →
     fst (waitForInferenceResult minioConfig fuel0 requestId maxWaitTime checkInterval w0)
       ≠ OutOfFuel) ∧
    ∀ fr w',
      waitForInferenceResult minioConfig fuel0 requestId maxWaitTime checkInterval w0
        = (Return fr, w') →
      fr_resultHash fr ≠ ZeroHash ∧ fr_reportHash fr ≠ ZeroHash.
Proof.
  intros Ht Hread Hres Hrep. split.
  - apply (wait_loop_not_ready _ _ _ _ _ _ details); try done.
    unfold result_ready. rewrite Hrep, String.eqb_refl. apply andb_false_r.
  - intros fuel0 w0. split; [apply waitForInferenceResult_terminates|].
    intros fr w' Hret. unfold waitForInferenceResult, bind in Hret.
    cbn [Date_now] in Hret. by apply wait_loop_returns_ready in Hret as (_ & ? & ?).
Qed.

Lemma iter_after_round_trace requestId checkInterval polls w :
  trace (Nat.iter polls (after_round requestId checkInterval) w) =
    (trace w ++ concat (replicate polls (poll_round requestId checkInterval)))%list ∧
  now (Nat.iter polls (after_round requestId checkInterval) w) =
    now w + Z.of_nat polls * timer_delay checkInterval.
Proof.
  induction polls as [|polls [IHt IHn]].
  - cbn. rewrite app_nil_r. split; [done|lia].
  - rewrite Nat.iter_succ. unfold after_round at 1 3. cbn [trace now].
    rewrite IHt, IHn. split; [|lia].
    rewrite <- app_assoc. f_equal.
    change (S polls) with (1 + polls)%nat.
    rewrite Nat.add_comm, replicate_add, concat_app. done.
Qed.

(** On a record that is never ready the loop runs out of time, not out of
    fuel: given one unit of fuel per millisecond left, it throws the
    timeout error after some number of rounds, once the time is up. *)
Lemma wait_loop_never_ready fuel requestId maxWaitTime checkInterval startTime w :
  (∀ w', ∃ d, calls_view w' requestId = Resolved d ∧ result_ready d = false) →
  maxWaitTime - (now w - startTime) <= Z.of_nat fuel →
  ∃ polls : nat,
    wait_loop minioConfig fuel requestId maxWaitTime checkInterval startTime w =
      (Throw (timeout_error maxWaitTime),
       Nat.iter polls (after_round requestId checkInterval) w) ∧
    maxWaitTime <= now (Nat.iter polls (after_round requestId checkInterval) w) - startTime.
Proof.
  intros Hnever. revert w. induction fuel as [|fuel IH]; intros w Hfuel.
  - exists O. cbn [Nat.iter nat_rect]. split; [apply wait_loop_expired|]; lia.
  - destruct (Z.lt_ge_cases (now w - startTime) maxWaitTime) as [Hlt|Hge].
    + destruct (Hnever w) as (d & Hread & Hready).
      rewrite (wait_loop_not_ready _ _ _ _ _ _ d) by done.
      pose proof (timer_delay_pos checkInterval) as Hpos.
      destruct (IH (after_round requestId checkInterval w)) as (polls & Hloop & Hup).
      { cbn [after_round now]. lia. }
      exists (S polls). rewrite Nat.iter_succ_r. done.
    + exists O. cbn [Nat.iter nat_rect]. split; [by apply wait_loop_expired|done].
Qed.

(** C8, as amended.  When the record is never ready, polling ends, after
    some rounds and once at least [maxWaitTime] has elapsed, with
    [Error("Timeout waiting for inference result after <maxWaitTime/1000>
    seconds")]: the error reports the configured maximum wait, and neither
    the request id nor the time that actually elapsed.  Up to then the
    engine has only read the ledger and waited: it has sent no transaction
    and no request to the store. *)
Theorem polling_timeout
    (fuel : nat) (requestId : option Z) (maxWaitTime checkInterval : Z) (w : World) :
  (∀ w', ∃ d, calls_view w' requestId = Resolved d ∧ result_ready d = false) →
  maxWaitTime <= Z.of_nat fuel →
  ∃ polls : nat,
    let w' := Nat.iter polls (after_round requestId checkInterval) w in
    waitForInferenceResult minioConfig fuel requestId maxWaitTime checkInterval w =
      (Throw (timeout_error maxWaitTime), w') ∧
    Minio.added w w' = concat (replicate polls (poll_round requestId checkInterval)) ∧
    now w' = now w + Z.of_nat polls * timer_delay checkInterval ∧
    maxWaitTime <= now w' - now w ∧
    Forall (fun e => is_transaction e = false ∧ is_http e = false) (Minio.added w w').
Proof.
  intros Hnever Hfuel.
  destruct (wait_loop_never_ready fuel requestId maxWaitTime checkInterval (now w) w)
    as (polls & Hloop & Hup); [done|lia|].
  exists polls. cbv zeta.
  destruct (iter_after_round_trace requestId checkInterval polls w) as [Htr Hnow].
  assert (Minio.added w (Nat.iter polls (after_round requestId checkInterval) w)
          = concat (replicate polls (poll_round requestId checkInterval))) as Hadded
    by by apply MinioFacts.added_app.
  split_and!; try done.
  rewrite Hadded. clear. induction polls as [|polls IH]; cbn; [constructor|].
  by repeat constructor.
Qed.

End polling.

Lemma partial_fulfilment_keeps_polling_witness :
  wait_loop (H := chain_partial) (H0 := store_echo) Minio.DEFAULT_CONFIG
    1 (Some 1) 3000 1000 0 Minio.world0 =
  wait_loop (H := chain_partial) (H0 := store_echo) Minio.DEFAULT_CONFIG
    0 (Some 1) 3000 1000 0 (after_round (Some 1) 1000 Minio.world0).
Proof.
  apply (partial_fulfilment_keeps_polling (H := chain_partial) (H0 := store_echo)
           Minio.DEFAULT_CONFIG 0 (Some 1) 3000 1000 0 Minio.world0
           (mkDetails "0x03" "COA" "0x0abc" "0x0a" ZeroHash));
    [reflexivity | reflexivity | discriminate | reflexivity].
Defined.

Lemma polling_timeout_witness :
  ∃ polls : nat,
    let w' := Nat.iter polls (after_round (Some 1) 1000) Minio.world0 in
    waitForInferenceResult (H := chain_pending) (H0 := store_echo) Minio.DEFAULT_CONFIG
      3000 (Some 1) 3000 1000 Minio.world0 = (Throw (timeout_error 3000), w') ∧
    Minio.added Minio.world0 w' = concat (replicate polls (poll_round (Some 1) 1000)) ∧
    now w' = now Minio.world0 + Z.of_nat polls * timer_delay 1000 ∧
    3000 <= now w' - now Minio.world0 ∧
    Forall (fun e => is_transaction e = false ∧ is_http e = false)
      (Minio.added Minio.world0 w').
Proof.
  apply (polling_timeout (H := chain_pending) (H0 := store_echo) Minio.DEFAULT_CONFIG
           3000 (Some 1) 3000 1000 Minio.world0).
  - intros w'. exists pending_details. split; reflexivity.
  - lia.
Defined.

(** C8, as stated, fails on the content of the error: polling request 1
    and polling request 2 on a ledger that never fulfils, with a maximum
    wait of 2500 ms and an interval of 1000 ms, end with the very same
    error, "... after 2.5 seconds", while 3000 ms have elapsed. *)
Lemma timeout_error_names_neither_id_nor_elapsed :
  let poll id :=
    waitForInferenceResult (H := chain_pending) (H0 := store_echo) Minio.DEFAULT_CONFIG
      10 (Some id) 2500 1000 Minio.world0 in
  fst (poll 1) = Throw (Error [Lit "Timeout waiting for inference result after ";
                               Div 2500 1000; Lit " seconds"]) ∧
  fst (poll 2) = fst (poll 1) ∧
  now (snd (poll 1)) - now Minio.world0 = 3000.
Proof. cbv zeta. split_and!; reflexivity. Qed.

(** Polling can be taken up again after a timeout: on a ledger that
    fulfils request 1 at time 2500, a first call with a maximum wait of
    2000 ms times out, and a second call on the same id, started where the
    first one stopped, returns the stored result and report. *)
Example resume_after_timeout :
  let chain := chain_fulfilled_at 2500 in
  let first :=
    waitForInferenceResult (H := chain) (H0 := store_echo) Minio.DEFAULT_CONFIG
      10 (Some 1) 2000 1000 Minio.world0 in
  let second :=
    waitForInferenceResult (H := chain) (H0 := store_echo) Minio.DEFAULT_CONFIG
      10 (Some 1) 2000 1000 (snd first) in
  fst first = Throw (timeout_error 2000) ∧
  fst second = Return (mkFinalResult (Some 1) "0x0a" "0x0b"
                         "/v1/minio/get/0a" "/v1/minio/get/0b").
Proof. cbv zeta. split; reflexivity. Qed.

Section submission.
Context `{Chain}.

Lemma find_none_Forall (logs : list Log) :
  Forall (fun log => is_CallRequested log = false) logs →
  List.find is_CallRequested logs = None.
Proof. induction 1 as [|log logs Hlog _ IH]; cbn; [done|]. by rewrite Hlog. Qed.

Lemma find_first_CallRequested (before after : list Log) id :
  Forall (fun log => is_CallRequested log = false) before →
  List.find is_CallRequested (before ++ Parsed (mkParsedLog "CallRequested" id) :: after)
    = Some (Parsed (mkParsedLog "CallRequested" id)).
Proof. induction 1 as [|log logs Hlog _ IH]; cbn; [done|]. by rewrite Hlog. Qed.

(** C9, as amended.  Once the model is reported as supported,
    [callInference] throws when the transaction fails; when the
    transaction is mined it returns normally, with the receipt and the
    prompt hash, and with the request id of the first [CallRequested] log
    of the receipt, or with an undefined request id when the receipt has
    no such log. *)
Theorem callInference_after_submission (objectKey model : string) (w : World) :
  models_view w model = Resolved true →
  let promptHash := "0x" ++ objectKey in
  let w1 := performed (EModels model) w in
  let w2 := performed (ERequestCall model promptHash) w1 in
  (∀ message,
     requestCall_tx w1 model promptHash = Rejected message →
     callInference objectKey model w = (Throw (Error message), w2)) ∧
  (∀ receipt,
     requestCall_tx w1 model promptHash = Resolved receipt →
     Forall (fun log => is_CallRequested log = false) (logs receipt) →
     callInference objectKey model w =
       (Return (mkInferenceResult receipt None promptHash), w2)) ∧
  (∀ receipt before id after,
     requestCall_tx w1 model promptHash = Resolved receipt →
     logs receipt = (before ++ Parsed (mkParsedLog "CallRequested" id) :: after)%list →
     Forall (fun log => is_CallRequested log = false) before →
     callInference objectKey model w =
       (Return (mkInferenceResult receipt (Some id) promptHash), w2)).
Proof.
  intros Hmodel. cbv zeta. split_and!.
  - intros message Htx. unfold callInference, try_catch, bind, contract_call.
    rewrite Hmodel. cbn [settle negb]. by rewrite Htx.
  - intros receipt Htx Hlogs. unfold callInference, try_catch, bind, contract_call.
    rewrite Hmodel. cbn [settle negb]. rewrite Htx. cbn [settle].
    by rewrite find_none_Forall.
  - intros receipt before id after Htx Hlogs Hbefore.
    unfold callInference, try_catch, bind, contract_call.
    rewrite Hmodel. cbn [settle negb]. rewrite Htx. cbn [settle].
    rewrite Hlogs, find_first_CallRequested by done. done.
Qed.

End submission.

Lemma callInference_after_submission_witness :
  callInference (H := chain_silent) object_key "COA" Minio.world0 =
    (Return (mkInferenceResult (mkReceipt "0xfeed" []) None ("0x" ++ object_key)),
     mkWorld 0 [EModels "COA"; ERequestCall "COA" ("0x" ++ object_key)]).
Proof.
  destruct (callInference_after_submission (H := chain_silent) object_key "COA"
              Minio.world0 eq_refl) as (_ & Hsilent & _).
  apply (Hsilent (mkReceipt "0xfeed" [])); [reflexivity|constructor].
Defined.

(** C9, as stated, fails on a mined transaction whose receipt has no
    [CallRequested] log: for an object key of 32 bytes, whose prompt hash
    is a well-formed [bytes32] value, [callInference] returns normally
    with an undefined request id, and [execute] goes on to poll the ledger
    with that undefined id. *)
Lemma missing_event_is_not_reported :
  String.length ("0x" ++ object_key) = 66%nat ∧
  fst (callInference (H := chain_silent) object_key "COA" Minio.world0) =
    Return (mkInferenceResult (mkReceipt "0xfeed" []) None ("0x" ++ object_key)) ∧
  trace (snd (execute (H := chain_silent) (H0 := store_keyed) Minio.DEFAULT_CONFIG 10
                (VString "pay 10 USDT") 5 "COA" true Minio.world0)) =
    [EAllowance;
     EHttp (mkRequest "POST" "/v1/minio/object" (Some (VString "pay 10 USDT")));
     EModels "COA";
     ERequestCall "COA" ("0x" ++ object_key);
     ECalls None].
Proof. split_and!; reflexivity. Qed.

End AppFacts.

(** ** Part VIII-b.  Further properties of the correlation/polling engine *)

Module AppMore.
Import Js App AppFacts.
Local Open Scope Z_scope.
Local Open Scope js_scope.

Lemma substring_full s : String.substring 0 (String.length s) s = s.
Proof. induction s as [|c s IH]; cbn; [done|]. by rewrite IH. Qed.

Lemma strip0x_prefixed key : strip0x ("0x" ++ key) = key.
Proof.
  unfold strip0x.
  assert (String.prefix "0x" ("0x" ++ key) = true) as ->.
  { cbn. by destruct key. }
  replace (String.length ("0x" ++ key) - 2)%nat with (String.length key)
    by (simpl; symmetry; apply Nat.sub_0_r).
  cbn [String.append String.substring]. apply substring_full.
Qed.

Section engine.
Context `{Chain}.

(** X22.  [callInference] sends no transaction for a model the ledger
    does not report as supported: when the whitelist read answers [false]
    it throws "Model <model> is not supported", and when the read fails it
    throws the error of the read; in both cases the read is all it has
    done. *)
Theorem callInference_needs_support (objectKey model : string) (w : World) :
  (models_view w model = Resolved false →
   callInference objectKey model w =
     (Throw (Error [Lit "Model "; Lit model; Lit " is not supported"]),
      performed (EModels model) w)) ∧
  (∀ message,
     models_view w model = Rejected message →
     callInference objectKey model w =
       (Throw (Error message), performed (EModels model) w)).
Proof.
  split.
  - intros Hm. unfold callInference, try_catch, bind, contract_call. by rewrite Hm.
  - intros message Hm. unfold callInference, try_catch, bind, contract_call.
    by rewrite Hm.
Qed.

(** X23.  [approveTokens] sends the approval only when it is needed: with
    an allowance of at least [amount] it returns [null] after reading the
    allowance; with a smaller allowance it sends one [approve] for
    [amount] and returns its receipt; and it throws the error of the read
    or of the transaction when one of them fails. *)
Theorem approveTokens_outcome (amount : Z) (w : World) :
  (∀ allowance,
     allowance_view w = Resolved allowance → amount <= allowance →
     approveTokens amount w = (Return None, performed EAllowance w)) ∧
  (∀ allowance receipt,
     allowance_view w = Resolved allowance → allowance < amount →
     approve_tx (performed EAllowance w) amount = Resolved receipt →
     approveTokens amount w =
       (Return (Some receipt), performed (EApprove amount) (performed EAllowance w))) ∧
  (∀ message,
     allowance_view w = Rejected message →
     approveTokens amount w = (Throw (Error message), performed EAllowance w)) ∧
  (∀ allowance message,
     allowance_view w = Resolved allowance → allowance < amount →
     approve_tx (performed EAllowance w) amount = Rejected message →
     approveTokens amount w =
       (Throw (Error message), performed (EApprove amount) (performed EAllowance w))).
Proof.
  split_and!.
  - intros allowance Ha Hle. unfold approveTokens, try_catch, bind, contract_call.
    rewrite Ha. cbn [settle]. apply Z.leb_le in Hle. by rewrite Hle.
  - intros allowance receipt Ha Hlt Htx.
    unfold approveTokens, try_catch, bind, contract_call.
    rewrite Ha. cbn [settle]. apply Z.leb_gt in Hlt. rewrite Hlt. by rewrite Htx.
  - intros message Ha. unfold approveTokens, try_catch, bind, contract_call.
    by rewrite Ha.
  - intros allowance message Ha Hlt Htx.
    unfold approveTokens, try_catch, bind, contract_call.
    rewrite Ha. cbn [settle]. apply Z.leb_gt in Hlt. rewrite Hlt. by rewrite Htx.
Qed.

Lemma callInference_returns objectKey model w ir w' :
  callInference objectKey model w = (Return ir, w') →
  ir_promptHash ir = "0x" ++ objectKey ∧
  models_view w model = Resolved true ∧
  requestCall_tx (performed (EModels model) w) model ("0x" ++ objectKey)
    = Resolved (receipt ir) ∧
  w' = performed (ERequestCall model ("0x" ++ objectKey)) (performed (EModels model) w).
Proof.
  unfold callInference, try_catch, bind, contract_call.
  destruct (models_view w model) as [[|]|m]; cbn [settle negb]; try discriminate.
  destruct (requestCall_tx _ model _) as [rc|m]; cbn [settle]; [|discriminate].
  unfold ret. intros [= <- <-]. done.
Qed.

(** X24.  The prompt hash is a round trip of the object key: every result
    [callInference] returns carries the prompt hash ["0x" + objectKey], it
    was obtained from a [requestCall] transaction for exactly that hash,
    sent after the whitelist read and as the only transaction, and
    [strip0x] gives the object key back from it. *)
Theorem prompt_hash_round_trip
    (objectKey model : string) (w w' : World) (ir : InferenceResult) :
  callInference objectKey model w = (Return ir, w') →
  ir_promptHash ir = "0x" ++ objectKey ∧
  strip0x (ir_promptHash ir) = objectKey ∧
  requestCall_tx (performed (EModels model) w) model ("0x" ++ objectKey)
    = Resolved (receipt ir) ∧
  Minio.added w w' = [EModels model; ERequestCall model ("0x" ++ objectKey)].
Proof.
  intros (Hhash & _ & Htx & ->)%callInference_returns. rewrite Hhash.
  split; [done|]. split; [apply strip0x_prefixed|]. split; [done|].
  apply MinioFacts.added_app. cbn. by rewrite <- app_assoc.
Qed.

(** X28.  [isModelSupported] never throws: it reads the whitelist flag
    once and returns it, and returns [false] when the read fails. *)
Theorem isModelSupported_never_throws (model : string) (w : World) :
  isModelSupported model w =
    (Return (match models_view w model with
             | Resolved supported => supported
             | Rejected _ => false
             end),
     performed (EModels model) w).
Proof.
  unfold isModelSupported, try_catch, contract_call.
  by destruct (models_view w model).
Qed.

End engine.

Section polling.
Context `{Chain} `{Minio.Network}.
Variable minioConfig : Minio.Config.

(** X25.  When the first read of the record finds both hashes non-zero
    and the store serves both objects, the engine returns at once: one
    ledger read, then one download under the result hash and one under the
    report hash, both with their ["0x"] prefix stripped, in this order and
    without any wait; the result carries the two hashes as read and the
    two bodies as served. *)
Theorem first_poll_resolves
    (fuel : nat) (requestId : option Z) (maxWaitTime checkInterval : Z) (w : World)
    (details : Details) (status1 status2 : Z) (body1 body2 : string) :
  0 < maxWaitTime → 1 <= Minio.retries minioConfig →
  calls_view w requestId = Resolved details →
  resultHash details ≠ ZeroHash → reportHash details ≠ ZeroHash →
  strip0x (resultHash details) ≠ "" → strip0x (reportHash details) ≠ "" →
  let request1 := Minio.get_request (VString (strip0x (resultHash details))) in
  let request2 := Minio.get_request (VString (strip0x (reportHash details))) in
  let w1 := performed (ECalls requestId) w in
  let w2 := performed (EHttp request1) w1 in
  Minio.network w1 request1 = NetResponse status1 body1 →
  (200 <=? status1) && (status1 <? 300) = true →
  Minio.network w2 request2 = NetResponse status2 body2 →
  (200 <=? status2) && (status2 <? 300) = true →
  waitForInferenceResult minioConfig (S fuel) requestId maxWaitTime checkInterval w =
    (Return (mkFinalResult requestId (resultHash details) (reportHash details)
               body1 body2),
     performed (EHttp request2) w2).
Proof.
  intros Hmax Hretries Hread Hres Hrep Hk1 Hk2. cbv zeta. intros Hn1 Hs1 Hn2 Hs2.
  unfold waitForInferenceResult. unfold bind at 1. cbn [Date_now].
  rewrite (wait_loop_ready _ _ _ _ _ _ _ details); [|lia|done|by apply result_ready_iff].
  unfold bind.
  rewrite (MinioMore.getObject_first_success _ _ _ status1 body1) by done.
  by rewrite (MinioMore.getObject_first_success _ _ _ status2 body2).
Qed.

(** X26.  Without waiting time there is no poll: when [maxWaitTime] is
    not positive the engine throws the timeout error at once, whatever the
    ledger holds and even when the result is ready; it reads no record,
    waits for nothing and asks the store for nothing. *)
Theorem no_waiting_time_no_poll
    (fuel : nat) (requestId : option Z) (maxWaitTime checkInterval : Z) (w : World) :
  maxWaitTime <= 0 →
  waitForInferenceResult minioConfig fuel requestId maxWaitTime checkInterval w =
    (Throw (timeout_error maxWaitTime), w).
Proof.
  intros Hmax. unfold waitForInferenceResult, bind. cbn [Date_now].
  apply wait_loop_expired. lia.
Qed.

Lemma attempts_trace_get requestId options attempt k :
  method options = "GET" →
  Forall (polling_effect requestId) (Minio.attempts_trace options attempt k).
Proof.
  intros Hget. revert attempt. induction k as [|[|k] IH]; intros attempt.
  - constructor.
  - by repeat constructor.
  - rewrite MinioFacts.attempts_trace_S. by repeat constructor.
Qed.

Lemma getObject_footprint requestId key w :
  ∃ es, trace (snd (Minio.getObject minioConfig key w)) = (trace w ++ es)%list ∧
        Forall (polling_effect requestId) es.
Proof.
  unfold Minio.getObject. destruct (_ || _).
  - exists []. cbn. by rewrite app_nil_r.
  - rewrite MinioMore.retried_world. unfold Minio._requestWithRetry.
    destruct (MinioFacts.retry_loop_spec minioConfig
                (mkRequest "GET" ("/v1/minio/get/" ++ Minio.encodeURIComponent key) None)
                (Z.to_nat (Minio.retries minioConfig)) 1 ThrownUndefined w)
      as (k & _ & Htr & _); [lia|].
    eexists. split; [exact Htr|]. by apply attempts_trace_get.
Qed.

Lemma wait_loop_footprint fuel requestId maxWaitTime checkInterval startTime w :
  ∃ es,
    trace (snd (wait_loop minioConfig fuel requestId maxWaitTime checkInterval
                  startTime w)) = (trace w ++ es)%list ∧
    Forall (polling_effect requestId) es.
Proof.
  revert w. induction fuel as [|fuel IH]; intros w; cbn [wait_loop];
    unfold bind at 1; cbn [Date_now]; destruct (now w - startTime <? maxWaitTime);
    try (exists []; cbn; by rewrite app_nil_r).
  unfold bind at 1, getRequestDetails, contract_call.
  destruct (calls_view w requestId) as [details|message]; cbn [settle].
  2:{ exists [ECalls requestId]. cbn. split; [done|]. by repeat constructor. }
  destruct (result_ready details).
  - unfold bind.
    destruct (getObject_footprint requestId (VString (strip0x (resultHash details)))
                (performed (ECalls requestId) w)) as (es1 & Htr1 & Hes1).
    destruct (Minio.getObject _ _ _) as [[result|e|] w1]; cbn [snd] in *.
    + destruct (getObject_footprint requestId (VString (strip0x (reportHash details))) w1)
        as (es2 & Htr2 & Hes2).
      destruct (Minio.getObject _ _ w1) as [[report|e|] w2]; unfold ret; cbn [snd] in *;
        (exists (ECalls requestId :: es1 ++ es2)%list;
         split; [rewrite Htr2, Htr1; cbn; by rewrite <- !app_assoc|];
         constructor; [done|by apply Forall_app]).
    + exists (ECalls requestId :: es1). split; [rewrite Htr1; cbn; by rewrite <- app_assoc|].
      by constructor.
    + exists (ECalls requestId :: es1). split; [rewrite Htr1; cbn; by rewrite <- app_assoc|].
      by constructor.
  - unfold bind at 1. cbn [sleep].
    match goal with |- context [wait_loop _ fuel _ _ _ _ ?w1] =>
      destruct (IH w1) as (es & Htr & Hes) end.
    exists (ECalls requestId :: ESleep checkInterval :: es).
    split; [rewrite Htr; cbn; by rewrite <- !app_assoc|]. by repeat constructor.
Qed.

(** X29.  Polling never writes: however it ends, with a result, a
    timeout or an error, everything [waitForInferenceResult] has done is
    reading the record of the request it was given, waiting, and sending
    GET requests to the store; it has sent no transaction and has put
    nothing into the store. *)
Theorem polling_never_writes
    (fuel : nat) (requestId : option Z) (maxWaitTime checkInterval : Z) (w : World) :
  let w' := snd (waitForInferenceResult minioConfig fuel requestId
                   maxWaitTime checkInterval w) in
  Forall (polling_effect requestId) (Minio.added w w') ∧
  Forall (fun e => is_transaction e = false) (Minio.added w w').
Proof.
  cbv zeta. unfold waitForInferenceResult, bind. cbn [Date_now].
  destruct (wait_loop_footprint fuel requestId maxWaitTime checkInterval (now w) w)
    as (es & Htr & Hes).
  rewrite (MinioFacts.added_app _ _ _ Htr). split; [done|].
  eapply Forall_impl; [exact Hes|]. by intros [].
Qed.

End polling.

Section execution.
Context `{Chain} `{Minio.Network}.

(** X27.  A failed upload ends [execute]: when the prompt cannot be
    stored, [execute] throws the error of the upload and does nothing
    more, so that no inference request reaches the ledger.  The token
    approval comes before the upload all the same: it has been read, and
    sent if it was needed, before the prompt is even checked. *)
Theorem failed_upload_ends_execute
    (minioConfig : Minio.Config) (fuel : nat) (prompt : Value) (amount : Z)
    (model : string) (waitForResult : bool) (w w1 w2 : World)
    (approval : option Receipt) (message : Message) :
  approveTokens amount w = (Return approval, w1) →
  Minio.putObject minioConfig prompt w1 = (Throw (Error message), w2) →
  execute minioConfig fuel prompt amount model waitForResult w =
    (Throw (Error message), w2).
Proof.
  intros Happrove Hput. unfold execute, try_catch at 1, bind at 1.
  rewrite Happrove. unfold bind at 1, uploadPrompt, try_catch at 1. by rewrite Hput.
Qed.

End execution.

Lemma first_poll_resolves_witness :
  waitForInferenceResult (H := chain_fulfilled_at 0) (H0 := store_echo)
    Minio.DEFAULT_CONFIG 1 (Some 1) 3000 1000 Minio.world0 =
    (Return (mkFinalResult (Some 1) "0x0a" "0x0b" "/v1/minio/get/0a" "/v1/minio/get/0b"),
     mkWorld 0 [ECalls (Some 1);
                EHttp (mkRequest "GET" "/v1/minio/get/0a" None);
                EHttp (mkRequest "GET" "/v1/minio/get/0b" None)]).
Proof.
  apply (first_poll_resolves (H := chain_fulfilled_at 0) (H0 := store_echo)
           Minio.DEFAULT_CONFIG 0 (Some 1) 3000 1000 Minio.world0 fulfilled_details
           200 200 "/v1/minio/get/0a" "/v1/minio/get/0b");
    try reflexivity; try discriminate. all: unfold Minio.retries; cbn; lia.
Defined.

Lemma no_waiting_time_no_poll_witness :
  waitForInferenceResult (H := chain_fulfilled_at 0) (H0 := store_echo)
    Minio.DEFAULT_CONFIG 1 (Some 1) 0 1000 Minio.world0 =
    (Throw (timeout_error 0), Minio.world0).
Proof.
  apply (no_waiting_time_no_poll (H := chain_fulfilled_at 0) (H0 := store_echo)
           Minio.DEFAULT_CONFIG 1 (Some 1) 0 1000 Minio.world0).
  lia.
Defined.

Lemma failed_upload_ends_execute_witness :
  execute (H := chain_no_allowance) (H0 := store_echo) Minio.DEFAULT_CONFIG 10
    (VString "") 5 "COA" true Minio.world0 =
    (Throw (Error [Lit "Content must be a non-empty string"]),
     mkWorld 0 [EAllowance; EApprove 5]).
Proof.
  apply (failed_upload_ends_execute (H := chain_no_allowance) (H0 := store_echo)
           Minio.DEFAULT_CONFIG 10 (VString "") 5 "COA" true Minio.world0
           (mkWorld 0 [EAllowance; EApprove 5]) (mkWorld 0 [EAllowance; EApprove 5])
           (Some (mkReceipt "0xbeef" []))); reflexivity.
Defined.

Lemma callInference_needs_support_witness :
  callInference (H := chain_no_model) "ab12" "GPT" Minio.world0 =
    (Throw (Error [Lit "Model "; Lit "GPT"; Lit " is not supported"]),
     mkWorld 0 [EModels "GPT"]).
Proof.
  destruct (callInference_needs_support (H := chain_no_model) "ab12" "GPT" Minio.world0)
    as [Hfalse _].
  apply Hfalse. reflexivity.
Defined.

Lemma approveTokens_outcome_witness :
  approveTokens (H := chain_no_allowance) 5 Minio.world0 =
    (Return (Some (mkReceipt "0xbeef" [])), mkWorld 0 [EAllowance; EApprove 5]).
Proof.
  destruct (approveTokens_outcome (H := chain_no_allowance) 5 Minio.world0)
    as (_ & Hsend & _).
  apply (Hsend 0); [reflexivity|lia|reflexivity].
Defined.

Lemma prompt_hash_round_trip_witness :
  ir_promptHash (mkInferenceResult (mkReceipt "0xfeed" []) None ("0x" ++ object_key))
    = "0x" ++ object_key ∧
  strip0x ("0x" ++ object_key) = object_key.
Proof.
  destruct (prompt_hash_round_trip (H := chain_silent) object_key "COA" Minio.world0
              (mkWorld 0 [EModels "COA"; ERequestCall "COA" ("0x" ++ object_key)])
              (mkInferenceResult (mkReceipt "0xfeed" []) None ("0x" ++ object_key))
              eq_refl) as (Hhash & Hstrip & _).
  split; [exact Hhash|exact Hstrip].
Defined.

End AppMore.

(** ** Part IX.  Properties of the attestation verifier *)

Module TeeFacts.
Import Js Tee.
Local Open Scope Z_scope.
Local Open Scope outcome_scope.

Example split_dot_three : split_dot "aa.bb.cc" = ["aa"; "bb"; "cc"].
Proof. reflexivity. Qed.

Example split_dot_empty_segment : split_dot "aa..cc" = ["aa"; ""; "cc"].
Proof. reflexivity. Qed.

Example split_dot_empty : split_dot "" = [""].
Proof. reflexivity. Qed.

Example well_shaped_four_segments : well_shaped "aa.bb.cc.dd" = true.
Proof. reflexivity. Qed.

Example well_shaped_empty_segment : well_shaped "aa..cc" = false.
Proof. reflexivity. Qed.

(** *** Nothing throws anything but [Error] objects *)

Lemma ends_well_obind {A B} (P : B → Prop) (c : Outcome A) (k : A → Outcome B) :
  ends_well (fun _ => True) c → (∀ a, ends_well P (k a)) → ends_well P (obind c k).
Proof. intros Hc Hk. destruct c as [a|[message|]|]; cbn in *; try done; auto. Qed.

Lemma ends_well_settle {A} (s : Settled A) : ends_well (fun _ => True) (settle s).
Proof. by destruct s. Qed.

Lemma ends_well_get_prop j prop : ends_well (fun _ => True) (get_prop j prop).
Proof. by destruct j. Qed.

Lemma ends_well_otry {A} (P : A → Prop) (body : Outcome A) handler :
  ends_well P body →
  (∀ message, ends_well P (handler (Error message))) →
  ends_well P (otry body handler).
Proof. intros Hbody Hhandler. destruct body as [a|[message|]|]; cbn in *; try done; auto. Qed.

Lemma ends_well_find_kid items kid : ends_well (fun _ => True) (find_kid items kid).
Proof.
  induction items as [|k items IH]; cbn [find_kid]; [done|].
  apply ends_well_obind; [apply ends_well_get_prop|].
  intros k_kid. by destruct (strict_eq k_kid kid).
Qed.

Lemma ends_well_jwks_keys jwks : ends_well (fun _ => True) (jwks_keys jwks).
Proof.
  destruct jwks as [| | | | |fields]; try done. cbn.
  destruct (lookup_last "keys" fields) as [[]|]; done.
Qed.

Section verifier.
Context `{Jose}.

Lemma ends_well_getJWKFromJWKS url kid :
  ends_well (fun _ => True) (getJWKFromJWKS url kid).
Proof.
  unfold getJWKFromJWKS. apply ends_well_otry; [|done].
  destruct (fetch url) as [message|ok status json]; [done|].
  destruct ok; cbn [negb]; [|done].
  apply ends_well_obind; [apply ends_well_settle|]. intros jwks.
  apply ends_well_obind; [apply ends_well_jwks_keys|]. intros keys.
  apply ends_well_obind; [apply ends_well_find_kid|]. intros jwk.
  by destruct (truthy_json jwk).
Qed.

(** The verifier always returns a result, in one of the three forms:
    every exception raised inside it is turned into a result by one of its
    two [catch] blocks. *)
Lemma parseAndVerifyJWT_returns token url :
  ∃ r, parseAndVerifyJWT token url = Return r ∧ result_form r.
Proof.
  unfold parseAndVerifyJWT.
  match goal with |- ∃ r, otry ?body _ = _ ∧ _ => assert (ends_well result_form body) as Hbody end.
  { cbv zeta. destruct (_ || _); [done|].
    apply ends_well_obind; [apply ends_well_settle|]. intros header.
    apply ends_well_obind; [apply ends_well_get_prop|]. intros kid.
    apply ends_well_obind; [apply ends_well_get_prop|]. intros alg.
    destruct (_ || _); [done|].
    apply ends_well_obind; [apply ends_well_getJWKFromJWKS|]. intros jwk.
    apply ends_well_obind; [apply ends_well_settle|]. intros key.
    apply ends_well_obind; [apply ends_well_settle|]. intros payloadUnverified.
    apply ends_well_obind; [apply ends_well_get_prop|]. intros iat.
    apply ends_well_otry.
    - apply ends_well_obind; [apply ends_well_settle|]. intros payload. constructor.
    - intros message. cbn. constructor. }
  match goal with |- ∃ r, otry ?body _ = _ ∧ _ => destruct body as [r|[message|]|] end;
    cbn in *; try done; eauto using result_form.
Qed.

Lemma well_shaped_false token :
  well_shaped token = false →
  missing (split_dot token !! 0%nat) || missing (split_dot token !! 1%nat)
    || missing (split_dot token !! 2%nat) = true.
Proof. unfold well_shaped. by intros ?%negb_false_iff. Qed.

Lemma well_shaped_true token :
  well_shaped token = true →
  missing (split_dot token !! 0%nat) || missing (split_dot token !! 1%nat)
    || missing (split_dot token !! 2%nat) = false.
Proof. unfold well_shaped. by intros ?%negb_true_iff. Qed.

(** C6, as amended.  The verifier never raises.  A token whose first
    three dot-separated segments are not all present and non-empty yields
    the result [{signatureValid: false, error: "Invalid JWT format"}]; a
    header without a truthy [kid] or [alg] yields
    [{signatureValid: false, error: "Missing kid or alg in JWT header"}];
    an unreachable key set yields [{signatureValid: false, error}] with the
    error of the fetch.  A signature rejected by [jwtVerify] yields
    [{header, signatureValid: false, error}] with the reason given by
    [jwtVerify], and an accepted one [{header, payload, signatureValid: true}]. *)
Theorem parseAndVerifyJWT_outcome (token url : string) :
  (∃ r, parseAndVerifyJWT token url = Return r ∧ result_form r) ∧
  (well_shaped token = false →
     parseAndVerifyJWT token url =
       Return (mkVerifyResult None None false (Some [Lit "Invalid JWT format"]))) ∧
  (∀ header,
     well_shaped token = true →
     decode_json (segment token 0) = Resolved header →
     header ≠ JNull →
     has_kid_and_alg header = false →
     parseAndVerifyJWT token url =
       Return (mkVerifyResult None None false
                 (Some [Lit "Missing kid or alg in JWT header"]))) ∧
  (∀ header message,
     well_shaped token = true →
     decode_json (segment token 0) = Resolved header →
     has_kid_and_alg header = true →
     fetch url = FetchFailed message →
     parseAndVerifyJWT token url =
       Return (mkVerifyResult None None false (Some message))) ∧
  (∀ header kid alg jwk key payloadUnverified iat,
     well_shaped token = true →
     decode_json (segment token 0) = Resolved header →
     has_kid_and_alg header = true →
     get_prop header "kid" = Return kid →
     get_prop header "alg" = Return alg →
     getJWKFromJWKS url kid = Return jwk →
     importJWK jwk alg = Resolved key →
     decode_json (segment token 1) = Resolved payloadUnverified →
     get_prop payloadUnverified "iat" = Return iat →
     (∀ message,
        jwtVerify token key alg iat = Rejected message →
        parseAndVerifyJWT token url =
          Return (mkVerifyResult (Some header) None false (Some message))) ∧
     (∀ payload,
        jwtVerify token key alg iat = Resolved payload →
        parseAndVerifyJWT token url =
          Return (mkVerifyResult (Some header) (Some payload) true None))).
Proof.
  split; [apply parseAndVerifyJWT_returns|]. split_and!.
  - intros Hshape%well_shaped_false. unfold parseAndVerifyJWT. cbv zeta.
    by rewrite Hshape.
  - intros header Hshape%well_shaped_true Hdec Hnull Hka.
    unfold parseAndVerifyJWT. cbv zeta. rewrite Hshape.
    fold (segment token 0). rewrite Hdec. cbn [settle obind].
    unfold has_kid_and_alg in Hka.
    destruct header as [| | | | |fields]; try done; cbn in Hka |- *;
      try done.
    apply andb_false_iff in Hka. 
    destruct (truthy_json (lookup_last "kid" fields)),
             (truthy_json (lookup_last "alg" fields)); cbn; try done.
    by destruct Hka.
  - intros header message Hshape%well_shaped_true Hdec Hka Hfetch.
    unfold parseAndVerifyJWT. cbv zeta. rewrite Hshape.
    fold (segment token 0). rewrite Hdec. cbn [settle obind].
    unfold has_kid_and_alg in Hka.
    destruct (get_prop header "kid") as [kid| |]; try done.
    destruct (get_prop header "alg") as [alg| |]; try done.
    apply andb_true_iff in Hka as [Hk Ha]. cbn [obind]. rewrite Hk, Ha.
    cbn [obind negb orb]. unfold getJWKFromJWKS. rewrite Hfetch. done.
  - intros header kid alg jwk key payloadUnverified iat
      Hshape%well_shaped_true Hdec Hka Hkid Halg Hjwk Hkey Hpay Hiat.
    assert (parseAndVerifyJWT token url =
            otry (otry (let* payload := settle (jwtVerify token key alg iat) in
                        Return (mkVerifyResult (Some header) (Some payload) true None))
                    (fun e => let* message := message_of e in
                              Return (mkVerifyResult (Some header) None false
                                        (Some message))))
              (fun error => let* message := message_of error in
                            Return (mkVerifyResult None None false (Some message))))
      as Heq.
    { unfold parseAndVerifyJWT. cbv zeta. rewrite Hshape.
      fold (segment token 0) (segment token 1). rewrite Hdec. cbn [settle obind].
      unfold has_kid_and_alg in Hka. rewrite Hkid, Halg in Hka |- *.
      apply andb_true_iff in Hka as [Hk Ha]. cbn [obind]. rewrite Hk, Ha.
      cbn [obind negb orb].
      rewrite Hjwk. cbn [obind]. rewrite Hkey. cbn [settle obind].
      rewrite Hpay. cbn [settle obind]. rewrite Hiat. done. }
    split.
    + intros message Hv. rewrite Heq, Hv. done.
    + intros payload Hv. rewrite Heq, Hv. done.
Qed.

End verifier.

Lemma parseAndVerifyJWT_outcome_witness :
  parseAndVerifyJWT (H := jose_offline) "not-a-token" "https://keys.example/jwks" =
    Return (mkVerifyResult None None false (Some [Lit "Invalid JWT format"])) ∧
  parseAndVerifyJWT (H := jose_rejecting) "aa.bb.cc" "https://keys.example/jwks" =
    Return (mkVerifyResult (Some sample_header) None false
              (Some [Lit "signature verification failed"])).
Proof.
  split.
  - apply (parseAndVerifyJWT_outcome (H := jose_offline)). reflexivity.
  - destruct (parseAndVerifyJWT_outcome (H := jose_rejecting)
                "aa.bb.cc" "https://keys.example/jwks") as (_ & _ & _ & _ & Hsig).
    apply (proj1 (Hsig sample_header (Some (JStr "k1")) (Some (JStr "RS256"))
                    (Some (JObj [("kid", JStr "k1")])) tt sample_header None
                    eq_refl eq_refl eq_refl eq_refl eq_refl eq_refl eq_refl eq_refl eq_refl)
             [Lit "signature verification failed"] eq_refl).
Defined.

(** C6, as stated, fails on every malformed token: ["not-a-token"] has a
    single segment, and the verifier returns a result for it instead of
    raising.  The shape test looks at the first three segments only: a
    token of four segments passes it, and one of three segments with an
    empty one does not.  An unreachable key set is returned as a result
    too. *)
Lemma malformed_token_is_returned_not_raised :
  length (split_dot "not-a-token") = 1%nat ∧
  parseAndVerifyJWT (H := jose_offline) "not-a-token" "https://keys.example/jwks" =
    Return (mkVerifyResult None None false (Some [Lit "Invalid JWT format"])) ∧
  length (split_dot "aa.bb.cc.dd") = 4%nat ∧
  parseAndVerifyJWT (H := jose_rejecting) "aa.bb.cc.dd" "https://keys.example/jwks" =
    Return (mkVerifyResult (Some sample_header) None false
              (Some [Lit "signature verification failed"])) ∧
  length (split_dot "aa..cc") = 3%nat ∧
  parseAndVerifyJWT (H := jose_rejecting) "aa..cc" "https://keys.example/jwks" =
    Return (mkVerifyResult None None false (Some [Lit "Invalid JWT format"])) ∧
  parseAndVerifyJWT (H := jose_unreachable) "aa.bb.cc" "https://keys.example/jwks" =
    Return (mkVerifyResult None None false (Some [Lit "getaddrinfo ENOTFOUND"])).
Proof. split_and!; reflexivity. Qed.

End TeeFacts.

(** ** Part IX-b.  Further properties of the attestation verifier *)

Module TeeMore.
Import Js Tee TeeFacts.
Local Open Scope Z_scope.
Local Open Scope outcome_scope.

Lemma split_dot_length token : length (split_dot token) = S (count_dots token).
Proof.
  induction token as [|c rest IH]; cbn [split_dot count_dots]; [done|].
  destruct (Ascii.eqb c "."); cbn [length]; [by rewrite IH|].
  destruct (split_dot rest) as [|part parts]; [done|]. cbn in *. done.
Qed.

Lemma well_shaped_needs_three token :
  well_shaped token = true → (3 <= length (split_dot token))%nat.
Proof.
  unfold well_shaped. intros Hs%negb_true_iff.
  apply orb_false_iff in Hs as [_ Hs].
  destruct (split_dot token !! 2%nat) as [s|] eqn:H2; [|done].
  apply lookup_lt_Some in H2. lia.
Qed.

Section verifier.
Context `{Jose}.

Lemma failed_is_not_valid e r :
  (let* message := message_of e in
   Return (mkVerifyResult None None false (Some message))) = Return r →
  signatureValid r = false.
Proof. destruct e; cbn; [|done]. by intros [= <-]. Qed.

(** X18.  A token with fewer than two dots is never looked into: whatever
    its content, the verifier answers [{signatureValid: false, error:
    "Invalid JWT format"}]. *)
Theorem too_few_dots_is_invalid_format (token url : string) :
  (count_dots token < 2)%nat →
  parseAndVerifyJWT token url =
    Return (mkVerifyResult None None false (Some [Lit "Invalid JWT format"])).
Proof.
  intros Hdots. unfold parseAndVerifyJWT. cbv zeta.
  destruct (well_shaped token) eqn:Hs.
  - apply well_shaped_needs_three in Hs. rewrite split_dot_length in Hs. lia.
  - apply well_shaped_false in Hs. by rewrite Hs.
Qed.

(** X19.  The verifier reports a valid signature only when [jwtVerify]
    has accepted the token: a result with [signatureValid = true] means
    that the token is well shaped, that its header decodes and carries a
    truthy [kid] and [alg], that the key set holds a key for that [kid],
    that this key was imported for that [alg], and that [jwtVerify]
    accepted the token under this key and algorithm, with the [iat] of the
    token's own payload as reference; the result then carries that header
    and the payload returned by [jwtVerify], and no error. *)
Theorem valid_means_jwtVerify_accepted (token url : string) (r : VerifyResult) :
  parseAndVerifyJWT token url = Return r →
  signatureValid r = true →
  ∃ header kid alg jwk key payloadUnverified iat payload,
    well_shaped token = true ∧
    decode_json (segment token 0) = Resolved header ∧
    get_prop header "kid" = Return kid ∧ truthy_json kid = true ∧
    get_prop header "alg" = Return alg ∧ truthy_json alg = true ∧
    getJWKFromJWKS url kid = Return jwk ∧
    importJWK jwk alg = Resolved key ∧
    decode_json (segment token 1) = Resolved payloadUnverified ∧
    get_prop payloadUnverified "iat" = Return iat ∧
    jwtVerify token key alg iat = Resolved payload ∧
    r = mkVerifyResult (Some header) (Some payload) true None.
Proof.
  intros Hret Hvalid.
  assert (∀ e, (let* message := message_of e in
                Return (mkVerifyResult None None false (Some message))) = Return r →
               False) as Hfailed.
  { intros e He. apply failed_is_not_valid in He. congruence. }
  unfold parseAndVerifyJWT in Hret. cbv zeta in Hret.
  destruct (well_shaped token) eqn:Hshape.
  2:{ apply well_shaped_false in Hshape. rewrite Hshape in Hret.
      exfalso. by apply (Hfailed (Error [Lit "Invalid JWT format"])). }
  pose proof Hshape as Hshape'. apply well_shaped_true in Hshape'.
  rewrite Hshape' in Hret. fold (segment token 0) (segment token 1) in Hret.
  destruct (decode_json (segment token 0)) as [header|m0] eqn:Hdec; cbn [settle obind] in Hret;
    [|exfalso; by apply (Hfailed (Error m0))].
  destruct (get_prop header "kid") as [kid|e1|] eqn:Hkid; cbn [obind] in Hret;
    [|exfalso; by apply (Hfailed e1)|done].
  destruct (get_prop header "alg") as [alg|e2|] eqn:Halg; cbn [obind] in Hret;
    [|exfalso; by apply (Hfailed e2)|done].
  destruct (truthy_json kid) eqn:Htk; cbn [negb orb] in Hret;
    [|exfalso; by apply (Hfailed (Error [Lit "Missing kid or alg in JWT header"]))].
  destruct (truthy_json alg) eqn:Hta; cbn [negb orb] in Hret;
    [|exfalso; by apply (Hfailed (Error [Lit "Missing kid or alg in JWT header"]))].
  destruct (getJWKFromJWKS url kid) as [jwk|e3|] eqn:Hjwk; cbn [obind] in Hret;
    [|exfalso; by apply (Hfailed e3)|done].
  destruct (importJWK jwk alg) as [key|m4] eqn:Hkey; cbn [settle obind] in Hret;
    [|exfalso; by apply (Hfailed (Error m4))].
  destruct (decode_json (segment token 1)) as [pu|m5] eqn:Hpay; cbn [settle obind] in Hret;
    [|exfalso; by apply (Hfailed (Error m5))].
  destruct (get_prop pu "iat") as [iat|e6|] eqn:Hiat; cbn [obind] in Hret;
    [|exfalso; by apply (Hfailed e6)|done].
  destruct (jwtVerify token key alg iat) as [payload|m7] eqn:Hver;
    cbn in Hret.
  - injection Hret as <-. exists header, kid, alg, jwk, key, pu, iat, payload. done.
  - injection Hret as <-. done.
Qed.

Lemma find_kid_skips before rest kid :
  Forall (passed_over kid) before →
  find_kid (before ++ rest) kid = find_kid rest kid.
Proof.
  induction 1 as [|k before (k_kid & Hget & Hne) _ IH]; cbn [app find_kid]; [done|].
  rewrite Hget. cbn [obind]. by rewrite Hne.
Qed.

(** X20.  Key lookup.  [getJWKFromJWKS] throws "Failed to fetch JWKS:
    <status>" when the key-set endpoint answers with a non-2xx status,
    without parsing the body.  On a key set [{keys: [...]}] it returns the
    first entry whose [kid] is identical to the one asked for, passing over
    the entries before it, and it throws "JWK with kid <kid> not found"
    when every entry is passed over. *)
Theorem getJWKFromJWKS_selects_first_match
    (url : string) (kid : option Json) (status : Z) :
  (∀ json, fetch url = FetchDone false status json →
     getJWKFromJWKS url kid = Throw (Error [Lit "Failed to fetch JWKS: "; Int status])) ∧
  (∀ fields before kfields after,
     fetch url = FetchDone true status (Resolved (JObj fields)) →
     lookup_last "keys" fields = Some (JArr (before ++ JObj kfields :: after)) →
     Forall (passed_over kid) before →
     strict_eq (lookup_last "kid" kfields) kid = true →
     getJWKFromJWKS url kid = Return (Some (JObj kfields))) ∧
  (∀ fields keys,
     fetch url = FetchDone true status (Resolved (JObj fields)) →
     lookup_last "keys" fields = Some (JArr keys) →
     Forall (passed_over kid) keys →
     getJWKFromJWKS url kid = Throw (kid_not_found kid)).
Proof.
  split_and!.
  - intros json Hfetch. unfold getJWKFromJWKS. by rewrite Hfetch.
  - intros fields before kfields after Hfetch Hkeys Hbefore Hmatch.
    unfold getJWKFromJWKS. rewrite Hfetch. cbn [negb settle obind jwks_keys].
    rewrite Hkeys. cbn [obind]. rewrite find_kid_skips by done.
    cbn [find_kid get_prop obind]. by rewrite Hmatch.
  - intros fields keys Hfetch Hkeys Hall.
    unfold getJWKFromJWKS. rewrite Hfetch. cbn [negb settle obind jwks_keys].
    rewrite Hkeys. cbn [obind].
    rewrite <- (app_nil_r keys), find_kid_skips by done. done.
Qed.

(** X21.  Whatever fails between the header check and the signature check
    is reported, not raised: when the key lookup throws (key set
    unreachable, refused, malformed, or without the key), when [importJWK]
    refuses the key, or when the payload segment does not decode, the
    verifier returns [{signatureValid: false, error}] with the message of
    that failure, and without the header. *)
Theorem lookup_failures_are_reported
    (token url : string) (header : Json) (kid alg : option Json) :
  well_shaped token = true →
  decode_json (segment token 0) = Resolved header →
  get_prop header "kid" = Return kid → truthy_json kid = true →
  get_prop header "alg" = Return alg → truthy_json alg = true →
  (∀ message,
     getJWKFromJWKS url kid = Throw (Error message) →
     parseAndVerifyJWT token url =
       Return (mkVerifyResult None None false (Some message))) ∧
  (∀ jwk message,
     getJWKFromJWKS url kid = Return jwk →
     importJWK jwk alg = Rejected message →
     parseAndVerifyJWT token url =
       Return (mkVerifyResult None None false (Some message))) ∧
  (∀ jwk key message,
     getJWKFromJWKS url kid = Return jwk →
     importJWK jwk alg = Resolved key →
     decode_json (segment token 1) = Rejected message →
     parseAndVerifyJWT token url =
       Return (mkVerifyResult None None false (Some message))).
Proof.
  intros Hshape%well_shaped_true Hdec Hkid Htk Halg Hta.
  assert (parseAndVerifyJWT token url =
            otry (let* jwk := getJWKFromJWKS url kid in
                  let* key := settle (importJWK jwk alg) in
                  let* payloadUnverified := settle (decode_json (segment token 1)) in
                  let* iat := get_prop payloadUnverified "iat" in
                  otry
                    (let* payload := settle (jwtVerify token key alg iat) in
                     Return (mkVerifyResult (Some header) (Some payload) true None))
                    (fun e =>
                       let* message := message_of e in
                       Return (mkVerifyResult (Some header) None false (Some message))))
              (fun error =>
                 let* message := message_of error in
                 Return (mkVerifyResult None None false (Some message)))) as Heq.
  { unfold parseAndVerifyJWT. cbv zeta. rewrite Hshape.
    fold (segment token 0) (segment token 1). rewrite Hdec. cbn [settle obind].
    rewrite Hkid. cbn [obind]. rewrite Halg. cbn [obind]. rewrite Htk, Hta. done. }
  rewrite Heq. split_and!.
  - intros message ->. done.
  - intros jwk message -> Hkey. cbn [obind]. by rewrite Hkey.
  - intros jwk key message -> Hkey Hpay. cbn [obind]. rewrite Hkey. cbn [settle obind].
    by rewrite Hpay.
Qed.

End verifier.

Lemma getJWKFromJWKS_selects_first_match_witness :
  getJWKFromJWKS (H := jose_accepting) "https://keys.example/jwks" (Some (JStr "k1"))
  = Return (Some (JObj [("kid", JStr "k1")])).
Proof.
  destruct (getJWKFromJWKS_selects_first_match (H := jose_accepting)
              "https://keys.example/jwks" (Some (JStr "k1")) 200) as (_ & Hfound & _).
  apply (Hfound [("keys", JArr [JObj [("kid", JStr "k0")]; JObj [("kid", JStr "k1")]])]
           [JObj [("kid", JStr "k0")]] [("kid", JStr "k1")] []); try reflexivity.
  constructor; [|constructor]. exists (Some (JStr "k0")). split; reflexivity.
Defined.

Lemma lookup_failures_are_reported_witness :
  parseAndVerifyJWT (H := jose_unreachable) "aa.bb.cc" "https://keys.example/jwks" =
    Return (mkVerifyResult None None false (Some [Lit "getaddrinfo ENOTFOUND"])).
Proof.
  destruct (lookup_failures_are_reported (H := jose_unreachable)
              "aa.bb.cc" "https://keys.example/jwks" sample_header
              (Some (JStr "k1")) (Some (JStr "RS256"))
              eq_refl eq_refl eq_refl eq_refl eq_refl eq_refl) as (Hlookup & _).
  apply Hlookup. reflexivity.
Defined.

Lemma too_few_dots_is_invalid_format_witness :
  parseAndVerifyJWT (H := jose_accepting) "aa.bb" "https://keys.example/jwks" =
    Return (mkVerifyResult None None false (Some [Lit "Invalid JWT format"])).
Proof.
  apply (too_few_dots_is_invalid_format (H := jose_accepting)). cbn. lia.
Defined.

Lemma valid_means_jwtVerify_accepted_witness :
  ∃ header kid alg jwk key payloadUnverified iat payload,
    well_shaped "aa.bb.cc" = true ∧
    decode_json (Jose := jose_accepting) (segment "aa.bb.cc" 0) = Resolved header ∧
    get_prop header "kid" = Return kid ∧ truthy_json kid = true ∧
    get_prop header "alg" = Return alg ∧ truthy_json alg = true ∧
    getJWKFromJWKS (H := jose_accepting) "https://keys.example/jwks" kid = Return jwk ∧
    importJWK (Jose := jose_accepting) jwk alg = Resolved key ∧
    decode_json (Jose := jose_accepting) (segment "aa.bb.cc" 1) = Resolved payloadUnverified ∧
    get_prop payloadUnverified "iat" = Return iat ∧
    jwtVerify (Jose := jose_accepting) "aa.bb.cc" key alg iat = Resolved payload ∧
    mkVerifyResult (Some sample_header) (Some sample_payload) true None
      = mkVerifyResult (Some header) (Some payload) true None.
Proof.
  apply (valid_means_jwtVerify_accepted (H := jose_accepting)
           "aa.bb.cc" "https://keys.example/jwks"); reflexivity.
Defined.

End TeeMore.
